(** * The node I/O core of elliptics (library/pool.c)

    A shallow embedding of the work pools, the dispatcher, the admission
    check, the send loop, the acceptor and the reactor loop of
    [library/pool.c], with the properties the design document states
    about them.

    Conventions.
    - C integers are [Z]; where the width matters the wrap-around is
      written out ([wrap32], [wrap64]).
    - A mutex protects a structure that the model passes as a value: a
      function of the model is one critical section (or a sequence of
      them) run to completion.
    - Calls into the environment (sockets, threads, the allocator, the
      clock, [rand]) are oracles given as arguments, and the calls a
      function makes are collected in a trace it returns.
    - Memory errors of the C code (a NULL or an out-of-range access)
      are [None]. *)

From stdpp Require Import gmap list.
From Stdlib Require Import ZArith Lia Permutation.

Local Open Scope Z_scope.

(** ** Machine integers *)

Definition wrap32 (x : Z) : Z := x mod 2 ^ 32.
Definition wrap64 (x : Z) : Z := x mod 2 ^ 64.

(** [flags & bit] as a C truth value. *)
Definition flag_set (flags bit : Z) : bool := negb (Z.land flags bit =? 0).

(** ** errno and epoll constants (Linux ABI) *)

Module Errno.
Definition EINTR : Z := 4.
Definition EAGAIN : Z := 11.
Definition EWOULDBLOCK : Z := 11.
Definition ENOMEM : Z := 12.
Definition EMFILE : Z := 24.
Definition ENOTSUP : Z := 95.
Definition ECONNABORTED : Z := 103.
Definition ECONNRESET : Z := 104.
Definition ENOBUFS : Z := 105.
End Errno.

Module Epoll.
Definition EPOLLIN : Z := 1.
Definition EPOLLOUT : Z := 4.
Definition EPOLLERR : Z := 8.
Definition EPOLLHUP : Z := 16.
End Epoll.

(** ** Work pools *)

Definition pthread_t := Z.

(** [struct dnet_work_io]: one worker of a pool.  The request and reply
    lists of a worker play no part in what follows and are left out. *)
Record dnet_work_io := mk_work_io {
  thread_index : Z;
  wio_trans : Z;
  joined : Z;
  tid : pthread_t
}.

Definition set_joined (w : dnet_work_io) (j : Z) : dnet_work_io :=
  {| thread_index := thread_index w; wio_trans := wio_trans w;
     joined := j; tid := tid w |}.

(** [struct dnet_work_pool].  [queue_size] stands for the request queue
    of the pool, of which the code of this file reads the size only. *)
Record dnet_work_pool := mk_work_pool {
  num : Z;
  mode : Z;
  wio_list : list dnet_work_io;
  queue_size : Z
}.

Definition set_wio_list (p : dnet_work_pool) (l : list dnet_work_io) : dnet_work_pool :=
  {| num := num p; mode := mode p; wio_list := l; queue_size := queue_size p |}.

Definition set_num (p : dnet_work_pool) (n : Z) : dnet_work_pool :=
  {| num := n; mode := mode p; wio_list := wio_list p; queue_size := queue_size p |}.

(** [struct dnet_work_pool_place]: a lock and a pointer to a pool, NULL
    when the place is empty. *)
Record dnet_work_pool_place := mk_place {
  pool : option dnet_work_pool
}.

(** Calls to the threads library, in the order they are made:
    a [pthread_create] that started thread [t] for the worker of index
    [i], and a [pthread_join] of thread [t]. *)
Inductive thread_call :=
| Pthread_create (i : Z) (t : pthread_t)
| Pthread_join (t : pthread_t).

#[global] Instance thread_call_eq_dec : EqDecision thread_call.
Proof. solve_decision. Defined.

(** *** dnet_work_pool_stop *)

(** The body of the loop of [dnet_work_pool_stop] at index [i], and the
    [n] iterations from [i] on. *)
Fixpoint stop_loop (n : nat) (i : nat) (l : list dnet_work_io)
  : option (list dnet_work_io * list thread_call) :=
  match n with
  | O => Some (l, [])
  | S n' =>
      match l !! i with
      | None => None
      | Some wio =>
          let '(l1, c) :=
            if joined wio =? 0
            then (<[i := set_joined wio 1]> l, [Pthread_join (tid wio)])
            else (l, []) in
          match stop_loop n' (S i) l1 with
          | None => None
          | Some (l2, cs) => Some (l2, c ++ cs)
          end
      end
  end.

Definition dnet_work_pool_stop (place : dnet_work_pool_place)
  : option (dnet_work_pool_place * list thread_call) :=
  match pool place with
  | None => None
  | Some p =>
      match stop_loop (Z.to_nat (num p)) 0 (wio_list p) with
      | None => None
      | Some (l, cs) => Some ({| pool := Some (set_wio_list p l) |}, cs)
      end
  end.

(** [k] invocations of [dnet_work_pool_stop] in a row on one place. *)
Fixpoint stop_times (k : nat) (place : dnet_work_pool_place)
  : option (dnet_work_pool_place * list thread_call) :=
  match k with
  | O => Some (place, [])
  | S k' =>
      match dnet_work_pool_stop place with
      | None => None
      | Some (place1, cs1) =>
          match stop_times k' place1 with
          | None => None
          | Some (place2, cs2) => Some (place2, cs1 ++ cs2)
          end
      end
  end.

(** What [dnet_work_pool_stop] makes of one worker. *)
Definition mark_joined (w : dnet_work_io) : dnet_work_io :=
  if joined w =? 0 then set_joined w 1 else w.

Definition not_joined (w : dnet_work_io) : Prop := joined w = 0.

Definition joins (ws : list dnet_work_io) : list thread_call :=
  (fun w => Pthread_join (tid w)) <$> filter not_joined ws.

(** The workers the loop of [dnet_work_pool_stop] visits. *)
Definition workers (p : dnet_work_pool) : list dnet_work_io :=
  take (Z.to_nat (num p)) (wio_list p).

(** The pool after one shutdown. *)
Definition stopped (p : dnet_work_pool) : dnet_work_pool :=
  set_wio_list p ((mark_joined <$> workers p) ++ drop (Z.to_nat (num p)) (wio_list p)).

(** [pool->num] workers are allocated. *)
Definition pool_wf (p : dnet_work_pool) : Prop :=
  0 <= num p <= Z.of_nat (length (wio_list p)).

(** *** dnet_work_pool_grow *)

(** The worker that the loop of [dnet_work_pool_grow] initialises at
    index [i], once [pthread_create] has stored the thread id [t]. *)
Definition new_work_io (i : Z) (t : pthread_t) : dnet_work_io :=
  {| thread_index := i; wio_trans := 2 ^ 64 - 1; joined := 0; tid := t |}.

(** The creation loop: [n] iterations from index [i] on, with [acc] the
    workers initialised so far.  [create i] is what [pthread_create]
    returns at index [i]: an error number (0 for success) and the
    thread id.  The result is the workers created and the error, if
    one occurred. *)
Fixpoint grow_loop (create : Z -> Z * pthread_t) (n : nat) (i : Z)
    (acc : list dnet_work_io) : list dnet_work_io * Z :=
  match n with
  | O => (acc, 0)
  | S n' =>
      let '(err, t) := create i in
      if err =? 0
      then grow_loop create n' (i + 1) (acc ++ [new_work_io i t])
      else (acc, - err)
  end.

(** [dnet_work_pool_grow]: the error returned, the pool afterwards and
    the calls made.  [malloc_ok] tells whether the allocation of the
    worker array succeeds.  On the error path the array is freed: the
    pool is left with no worker that can be reached. *)
Definition dnet_work_pool_grow (malloc_ok : bool) (create : Z -> Z * pthread_t)
    (p : dnet_work_pool) (n : Z) : Z * dnet_work_pool * list thread_call :=
  if negb malloc_ok then (- Errno.ENOMEM, set_wio_list p [], [])
  else
    let '(ws, err) := grow_loop create (Z.to_nat n) 0 [] in
    let created := (fun w => Pthread_create (thread_index w) (tid w)) <$> ws in
    if err =? 0
    then (0, set_num (set_wio_list p ws) n, created)
    else (err, set_wio_list p [], created ++ ((fun w => Pthread_join (tid w)) <$> ws)).

(** ** Admission check *)

(** [struct dnet_io_pool]: the blocking and the non-blocking place of
    one backend, or of the node itself. *)
Record dnet_io_pool := mk_io_pool {
  recv_pool : dnet_work_pool_place;
  recv_pool_nb : dnet_work_pool_place
}.

(** The part of [struct dnet_io] that the admission check reads: the
    pools of the node and, when the node has backends, the pools the
    pools manager holds. *)
Record dnet_io := mk_io {
  io_pool : dnet_io_pool;
  pools_manager : option (list dnet_io_pool)
}.

(** Modelled from the spec: [dnet_get_pool_queue_size] is defined with
    the request queue, outside this file; it yields the number of
    requests queued in the pool. *)
Definition dnet_get_pool_queue_size (p : dnet_work_pool) : Z := queue_size p.

(** The two counters are [uint64_t] and travel as a pair
    [(queue_size, threads_count)]; [pool->num] is an [int], converted
    to [uint64_t] by the addition. *)
Definition dnet_check_work_pool_place (place : dnet_work_pool_place) (c : Z * Z) : Z * Z :=
  match pool place with
  | Some p => (wrap64 (fst c + dnet_get_pool_queue_size p), wrap64 (snd c + num p))
  | None => c
  end.

Definition dnet_check_io_pool (io : dnet_io_pool) (c : Z * Z) : Z * Z :=
  dnet_check_work_pool_place (recv_pool_nb io)
    (dnet_check_work_pool_place (recv_pool io) c).

(** Modelled from the spec: [dnet_io_pools_check] is defined with the
    pools manager, outside this file; it aggregates the two counters
    across every pool the manager holds. *)
Definition dnet_io_pools_check (pools : list dnet_io_pool) (c : Z * Z) : Z * Z :=
  foldl (fun acc p => dnet_check_io_pool p acc) c pools.

Definition dnet_check_io (io : dnet_io) : Z :=
  let c := dnet_check_io_pool (io_pool io) (0, 0) in
  let c := match pools_manager io with
           | Some pools => dnet_io_pools_check pools c
           | None => c
           end in
  if fst c <=? wrap64 (snd c * 1000) then 1 else 0.

(** The visit of one place as a step of a fold. *)
Definition visit_place (c : Z * Z) (place : dnet_work_pool_place) : Z * Z :=
  dnet_check_work_pool_place place c.

(** The places the admission check visits, in the order it visits
    them, and the two aggregates as plain sums over them. *)
Definition io_pool_places (p : dnet_io_pool) : list dnet_work_pool_place :=
  [recv_pool p; recv_pool_nb p].

Definition all_places (io : dnet_io) : list dnet_work_pool_place :=
  io_pool_places (io_pool io) ++
  match pools_manager io with
  | Some pools => pools ≫= io_pool_places
  | None => []
  end.

Definition place_queued (place : dnet_work_pool_place) : Z :=
  match pool place with Some p => queue_size p | None => 0 end.

Definition place_threads (place : dnet_work_pool_place) : Z :=
  match pool place with Some p => num p | None => 0 end.

Definition sum_Z (l : list Z) : Z := foldr Z.add 0 l.

Definition aggregate_queued (io : dnet_io) : Z := sum_Z (place_queued <$> all_places io).
Definition aggregate_threads (io : dnet_io) : Z := sum_Z (place_threads <$> all_places io).

(** ** Commands, requests and connections *)

(** Constants of [elliptics/packet.h], which is not part of this tree:
    the flag bits and the command numbers are parameters. *)
Record packet_h := mk_packet_h {
  DNET_FLAGS_NOLOCK : Z;
  DNET_FLAGS_DIRECT_BACKEND : Z;
  DNET_FLAGS_REPLY : Z;
  DNET_CMD_AUTH : Z;
  DNET_CMD_STATUS : Z;
  DNET_CMD_REVERSE_LOOKUP : Z;
  DNET_CMD_JOIN : Z;
  DNET_CMD_ROUTE_LIST : Z;
  DNET_CMD_MONITOR_STAT : Z;
  DNET_CMD_BACKEND_CONTROL : Z;
  DNET_CMD_BACKEND_STATUS : Z;
  DNET_CMD_BULK_READ_NEW : Z;
  DNET_CMD_BULK_REMOVE_NEW : Z
}.

(** [struct dnet_id], the key of a command. *)
Record dnet_id := mk_id {
  id_bytes : list Z;
  group_id : Z
}.

(** [struct dnet_cmd], the header of a frame. *)
Record dnet_cmd := mk_cmd {
  id : dnet_id;
  cmd : Z;
  flags : Z;
  trans : Z;
  backend_id : Z;
  size : Z
}.

Definition set_backend_id (c : dnet_cmd) (b : Z) : dnet_cmd :=
  {| id := id c; cmd := cmd c; flags := flags c; trans := trans c;
     backend_id := b; size := size c |}.

(** The two kinds of request; the code tests for the first only. *)
Inductive dnet_io_req_type :=
| DNET_IO_REQ_OLD_PROTOCOL
| DNET_IO_REQ_TYPED_PROTOCOL.

(** [struct dnet_io_req].  [header] is the command of a request of the
    old protocol; [serialized] selects the send routine. *)
Record dnet_io_req := mk_io_req {
  io_req_type : dnet_io_req_type;
  header : dnet_cmd;
  serialized : Z
}.

Definition set_header (r : dnet_io_req) (c : dnet_cmd) : dnet_io_req :=
  {| io_req_type := io_req_type r; header := c; serialized := serialized r |}.

(** A transaction of a connection. *)
Record dnet_trans := mk_trans {
  t_trans : Z;
  t_time : Z
}.

(** [struct dnet_net_state], a connection: its sockets, its send queue
    with the count of queued frames, and its transactions.  The index
    by id maps an id to the transaction; the timer index holds the ids
    of the transactions a timeout sweep would find. *)
Record dnet_net_state := mk_net_state {
  read_s : Z;
  write_s : Z;
  accept_s : Z;
  send_list : list dnet_io_req;
  send_queue_size : Z;
  trans_root : gmap Z dnet_trans;
  timer_root : gset Z
}.

Definition set_trans (st : dnet_net_state) (ids : gmap Z dnet_trans) (timers : gset Z)
  : dnet_net_state :=
  {| read_s := read_s st; write_s := write_s st; accept_s := accept_s st;
     send_list := send_list st; send_queue_size := send_queue_size st;
     trans_root := ids; timer_root := timers |}.

Definition set_send (st : dnet_net_state) (l : list dnet_io_req) (q : Z) : dnet_net_state :=
  {| read_s := read_s st; write_s := write_s st; accept_s := accept_s st;
     send_list := l; send_queue_size := q;
     trans_root := trans_root st; timer_root := timer_root st |}.

(** ** Dispatcher *)

(** What [dnet_schedule_io] leaves behind: the backend id it resolved
    and the class, which together select the place; the connection
    with its transactions as the demultiplexing left them; and the
    request handed to [dnet_push_request], if the function got that
    far. *)
Record schedule_result := mk_schedule_result {
  sched_backend_id : Z;
  sched_nonblocking : Z;
  sched_state : dnet_net_state;
  sched_pushed : option dnet_io_req
}.

Section Dispatcher.
Variable K : packet_h.

(** The routing lookup of the node, key to backend id, an input of
    the dispatcher. *)
Variable dnet_state_search_backend : dnet_id -> Z.

(** The two accessors of a request that is not of the old protocol;
    they belong to the protocol-independent layer. *)
Variable n2_io_req_get_cmd : dnet_io_req -> dnet_cmd.
Variable n2_io_req_set_request_backend_id : dnet_io_req -> Z -> Z * dnet_io_req.

(** The reading of the clock that refreshes a timestamp. *)
Variable now : Z.

Definition dnet_cmd_needs_backend (command : Z) : Z :=
  if (command =? DNET_CMD_AUTH K)
     || (command =? DNET_CMD_STATUS K)
     || (command =? DNET_CMD_REVERSE_LOOKUP K)
     || (command =? DNET_CMD_JOIN K)
     || (command =? DNET_CMD_ROUTE_LIST K)
     || (command =? DNET_CMD_MONITOR_STAT K)
     || (command =? DNET_CMD_BACKEND_CONTROL K)
     || (command =? DNET_CMD_BACKEND_STATUS K)
     || (command =? DNET_CMD_BULK_READ_NEW K)
     || (command =? DNET_CMD_BULK_REMOVE_NEW K)
  then 0 else 1.

Definition dnet_io_req_get_cmd (r : dnet_io_req) : dnet_cmd :=
  match io_req_type r with
  | DNET_IO_REQ_OLD_PROTOCOL => header r
  | _ => n2_io_req_get_cmd r
  end.

Definition dnet_io_req_set_request_backend_id (r : dnet_io_req) (b : Z)
  : Z * dnet_io_req :=
  match io_req_type r with
  | DNET_IO_REQ_OLD_PROTOCOL => (0, set_header r (set_backend_id (header r) b))
  | _ => n2_io_req_set_request_backend_id r b
  end.

(** Modelled from the spec: the three operations of the transaction
    registry are defined with the transactions, outside this file.
    The lookup is by id in the id index; the refresh stamps the
    transaction with the clock; the removal takes the transaction
    out of the timer index and leaves the id index alone. *)
Definition dnet_trans_search (st : dnet_net_state) (t : Z) : option dnet_trans :=
  trans_root st !! t.

Definition dnet_trans_update_timestamp (t : dnet_trans) : dnet_trans :=
  {| t_trans := t_trans t; t_time := now |}.

Definition dnet_trans_remove_timer_nolock (timers : gset Z) (t : Z) : gset Z :=
  timers ∖ {[ t ]}.

(** The transaction found is updated in place: the id index keeps
    the entry under the id it was found at. *)
Definition dnet_update_trans_timestamp_network (st : dnet_net_state) (r : dnet_io_req)
  : dnet_net_state :=
  let c := dnet_io_req_get_cmd r in
  if flag_set (flags c) (DNET_FLAGS_REPLY K) then
    match dnet_trans_search st (trans c) with
    | Some t =>
        set_trans st
          (<[trans c := dnet_trans_update_timestamp t]> (trans_root st))
          (dnet_trans_remove_timer_nolock (timer_root st) (trans c))
    | None => st
    end
  else st.

(** [dnet_schedule_io], with [st] the connection of the request. *)
Definition dnet_schedule_io (st : dnet_net_state) (r : dnet_io_req) : schedule_result :=
  let c := dnet_io_req_get_cmd r in
  let nonblocking := if flag_set (flags c) (DNET_FLAGS_NOLOCK K) then 1 else 0 in
  let st1 := dnet_update_trans_timestamp_network st r in
  let b :=
    if flag_set (flags c) (DNET_FLAGS_DIRECT_BACKEND K) then backend_id c
    else if negb (dnet_cmd_needs_backend (cmd c) =? 0)
         then dnet_state_search_backend (id c)
         else -1 in
  if negb (flag_set (flags c) (DNET_FLAGS_REPLY K)) then
    let '(err, r1) :=
      dnet_io_req_set_request_backend_id r (if 0 <=? b then b else -1) in
    if negb (err =? 0)
    then {| sched_backend_id := b; sched_nonblocking := nonblocking;
            sched_state := st1; sched_pushed := None |}
    else {| sched_backend_id := b; sched_nonblocking := nonblocking;
            sched_state := st1; sched_pushed := Some r1 |}
  else {| sched_backend_id := b; sched_nonblocking := nonblocking;
          sched_state := st1; sched_pushed := Some r |}.

(** The opcodes that need no backend, as the design document lists
    them. *)
Definition backendless (command : Z) : Prop :=
  command ∈ [DNET_CMD_AUTH K; DNET_CMD_STATUS K; DNET_CMD_REVERSE_LOOKUP K;
             DNET_CMD_JOIN K; DNET_CMD_ROUTE_LIST K; DNET_CMD_MONITOR_STAT K;
             DNET_CMD_BACKEND_CONTROL K; DNET_CMD_BACKEND_STATUS K;
             DNET_CMD_BULK_READ_NEW K; DNET_CMD_BULK_REMOVE_NEW K].
End Dispatcher.

#[global] Instance backendless_dec (K : packet_h) (command : Z) :
  Decision (backendless K command).
Proof. unfold backendless. apply _. Defined.

(** ** Send loop *)

(** What the send loop does, in order. *)
Inductive send_call :=
| Unschedule_send
| Frame_sent (r : dnet_io_req)
| Send_wait_broadcast
| Io_req_free (r : dnet_io_req).

Section Send.
(** The low watermark of [library/elliptics.h], which is not part of
    this tree. *)
Variable DNET_SEND_WATERMARK_LOW : Z.

(** [st->n->send_limit], a [uint32_t] of the node. *)
Variable send_limit : Z.

(** The result of the write of a frame, by [n2_send_request] or by
    [dnet_send_request] as [r->serialized] tells: 0 when the frame is
    fully written, an error otherwise.  The first argument counts
    the attempts of one invocation. *)
Variable send_request : nat -> dnet_io_req -> Z.

(** Modelled from the spec: [atomic_dec] is defined with the atomic
    counters, outside this file; it decrements the counter and yields
    the count after the decrement.  The result is the pair of the
    new count and the value returned. *)
Definition atomic_dec (v : Z) : Z * Z := (v - 1, v - 1).

(** The iterations of [while (1)], by recursion on the send queue: an
    iteration leaves the loop or removes the head.  [k] counts the
    attempts, [counter] is the [uint32_t] of the same name, [q] is
    [st->send_queue_size].  The result is the error, the queue, the
    count and the calls. *)
Fixpoint send_loop (l : list dnet_io_req) (k : nat) (counter q : Z)
  : Z * list dnet_io_req * Z * list send_call :=
  match l with
  | [] => (- Errno.EAGAIN, [], q, [Unschedule_send])
  | r :: rest =>
      let err := send_request k r in
      if err =? 0 then
        let '(q1, woken) :=
          if 0 <? q then
            let '(q', ret) := atomic_dec q in
            (q', if ret =? DNET_SEND_WATERMARK_LOW then [Send_wait_broadcast] else [])
          else (q, []) in
        let here := [Frame_sent r] ++ woken ++ [Io_req_free r] in
        let counter1 := if send_limit =? 0 then counter else wrap32 (counter + 1) in
        if negb (send_limit =? 0) && (send_limit <=? counter1)
        then (0, rest, q1, here)
        else
          let '(e, l', q', cs) := send_loop rest (S k) counter1 q1 in
          (e, l', q', here ++ cs)
      else (err, l, q, [])
  end.

Definition dnet_process_send_single (st : dnet_net_state)
  : Z * dnet_net_state * list send_call :=
  let '(err, l, q, cs) := send_loop (send_list st) 0 0 (send_queue_size st) in
  (err, set_send st l q,
   cs ++ if (err <? 0) && (0 <? q) then [Send_wait_broadcast] else []).

(** The frames one invocation has written, dequeued and freed. *)
Definition frames_sent (cs : list send_call) : list dnet_io_req :=
  omap (fun c => match c with Frame_sent r => Some r | _ => None end) cs.

(** The count of queued frames after one more frame is sent: the
    decrement is guarded by a test for a positive count. *)
Definition dec_count (q : Z) : Z := if 0 <? q then q - 1 else q.

(** The calls for the frames [rs] sent in a row from the count [q]:
    each frame is written, the send condition is broadcast if the
    count was positive and the decrement leaves it equal to the low
    watermark, and the frame is freed. *)
Fixpoint watermark_trace (rs : list dnet_io_req) (q : Z) : list send_call :=
  match rs with
  | [] => []
  | r :: rs' =>
      [Frame_sent r]
      ++ (if (0 <? q) && (q - 1 =? DNET_SEND_WATERMARK_LOW)
          then [Send_wait_broadcast] else [])
      ++ [Io_req_free r]
      ++ watermark_trace rs' (dec_count q)
  end.
End Send.

(** The count goes from the threshold or above to below it. *)
Definition crosses_below (low before after : Z) : Prop :=
  low <= before /\ after < low.

(** ** Accepting a connection *)

Inductive log_level := DNET_LOG_ERROR | DNET_LOG_INFO.

(** How [dnet_state_accept_process] ends: it returns, or it ends the
    process with [exit]. *)
Inductive accept_outcome :=
| Accept_return (err : Z)
| Accept_exit (code : Z).

(** What the environment answers to one run of
    [dnet_state_accept_process]: the descriptor [accept] returns and
    the [errno] it leaves; the error of [dnet_socket_local_addr]; and
    whether [dnet_state_create] yields a state. *)
Record accept_env := mk_accept_env {
  accept_cs : Z;
  accept_errno : Z;
  local_addr_err : Z;
  state_created : bool
}.

Definition dnet_state_accept_process (e : accept_env) : accept_outcome * list log_level :=
  if accept_cs e <? 0 then
    let err := - accept_errno e in
    if (err =? - Errno.EAGAIN) || (err =? - Errno.EWOULDBLOCK)
    then (Accept_return err, [])
    else if (err =? - Errno.ECONNABORTED) || (err =? - Errno.EMFILE)
            || (err =? - Errno.ENOBUFS) || (err =? - Errno.ENOMEM)
    then (Accept_return (- Errno.EAGAIN), [DNET_LOG_ERROR])
    else (Accept_exit err, [DNET_LOG_ERROR; DNET_LOG_ERROR])
  else if negb (local_addr_err e =? 0)
  then (Accept_return (local_addr_err e), [DNET_LOG_ERROR])
  else if negb (state_created e)
  then (Accept_return (- Errno.EAGAIN), [DNET_LOG_ERROR])
  else (Accept_return 0, [DNET_LOG_INFO]).

(** ** Shuffling the events of a wake *)

(** [a[i]] for an [int] index; a negative index is out of range. *)
Definition array_get {A : Type} (a : list A) (i : Z) : option A :=
  if i <? 0 then None else a !! Z.to_nat i.

Section Shuffle.
Context {A : Type}.

(** [RAND_MAX] of the C library. *)
Variable RAND_MAX : Z.

(** [rand i] is what the call of [rand()] in iteration [i] returns. *)
Variable rand : Z -> Z.

(** The index that iteration [i] exchanges with [i]; the division is
    the truncating division of C. *)
Definition shuffle_index (size i : Z) : Z :=
  i + rand i ÷ (RAND_MAX ÷ (size - i) + 1).

(** [n] iterations of the loop from [i] on.  An iteration copies
    [evs[j]] aside, moves [evs[i]] to [j] and stores the copy at
    [i]. *)
Fixpoint shuffle_loop (n : nat) (i size : Z) (evs : list A) : option (list A) :=
  match n with
  | O => Some evs
  | S n' =>
      let j := shuffle_index size i in
      match array_get evs j, array_get evs i with
      | Some tmp, Some ei =>
          shuffle_loop n' (i + 1) size
            (<[Z.to_nat i := tmp]> (<[Z.to_nat j := ei]> evs))
      | _, _ => None
      end
  end.

Definition dnet_shuffle_epoll_events (evs : list A) (size : Z) : option (list A) :=
  if size <? 1 then Some evs
  else shuffle_loop (Z.to_nat (size - 1)) 0 size evs.
End Shuffle.

(** ** Reactor *)

(** A connection as the reactor holds it: the pointer to a
    [struct dnet_net_state]. *)
Definition conn := nat.

(** [struct epoll_event] with the [dnet_net_epoll_data] its pointer
    leads to: the connection and the descriptor that was registered. *)
Record epoll_event := mk_event {
  events : Z;
  data_st : conn;
  data_fd : Z
}.

(** The handlers the reactor invokes, and the reset of a connection. *)
Inductive net_call :=
| Call_accept (st : conn)
| Call_recv (st : conn)
| Call_send (st : conn)
| Call_reset (st : conn) (err : Z).

(** How the loop over the events goes on after one event. *)
Inductive loop_step := Loop_next | Loop_break | Loop_exit (code : Z).

(** Whether the reactor resets the connection on the error [err] of a
    handler. *)
Definition resets_state (err : Z) : bool :=
  negb (err =? 0) && (err <? 0) && negb (err =? - Errno.EAGAIN).

Section Reactor.
(** The state of the node that handlers read and change. *)
Context {W : Type}.

(** [n->io] and [*st] in a state of the node. *)
Variable node_io : W -> dnet_io.
Variable net_state : W -> conn -> dnet_net_state.

(** The three handlers on a connection of the node, each with the
    value it returns and the state it leaves, and the reset of a
    connection ([dnet_state_reset], [dnet_unschedule_all],
    [dnet_add_reconnect_state], [dnet_state_put]). *)
Variable accept_handler : conn -> W -> accept_outcome * W.
Variable recv_handler : conn -> W -> Z * W.
Variable send_handler : conn -> W -> Z * W.
Variable reset_state : conn -> Z -> W -> W.

Definition fatal (err : Z) : bool :=
  negb (err =? 0) && negb (err =? - Errno.EAGAIN).

Definition dnet_state_net_process (st : conn) (ev : epoll_event) (w : W)
  : Z * W * list net_call :=
  let '(err1, w1, cs1, out1) :=
    if flag_set (events ev) Epoll.EPOLLIN then
      let '(e, w') := recv_handler st w in (e, w', [Call_recv st], fatal e)
    else (- Errno.ECONNRESET, w, [], false) in
  if out1 then (err1, w1, cs1)
  else
    let '(err2, w2, cs2, out2) :=
      if flag_set (events ev) Epoll.EPOLLOUT then
        let '(e, w') := send_handler st w1 in (e, w', cs1 ++ [Call_send st], fatal e)
      else (err1, w1, cs1, false) in
    if out2 then (err2, w2, cs2)
    else if flag_set (events ev) (Z.lor Epoll.EPOLLHUP Epoll.EPOLLERR)
    then (- Errno.ECONNRESET, w2, cs2)
    else (err2, w2, cs2).

(** What follows the handler in the body of the loop. *)
Definition after_handler (st : conn) (err : Z) (w : W) (cs : list net_call)
  : W * list net_call * loop_step :=
  if resets_state err
  then (reset_state st err w, cs ++ [Call_reset st err], Loop_break)
  else (w, cs, Loop_next).

(** The body of the loop over the events, for one event; [tmp]
    counts the events that were serviced. *)
Definition process_event (ev : epoll_event) (w : W) (tmp : Z)
  : W * Z * list net_call * loop_step :=
  let st := data_st ev in
  if data_fd ev =? accept_s (net_state w st) then
    match accept_handler st w with
    | (Accept_return err, w1) =>
        let '(w2, cs, s) := after_handler st err w1 [Call_accept st] in
        (w2, tmp + 1, cs, s)
    | (Accept_exit code, w1) => (w1, tmp + 1, [Call_accept st], Loop_exit code)
    end
  else if flag_set (events ev) Epoll.EPOLLOUT || negb (dnet_check_io (node_io w) =? 0) then
    let '(err, w1, cs1) := dnet_state_net_process st ev w in
    let '(w2, cs, s) := after_handler st err w1 cs1 in
    (w2, tmp + 1, cs, s)
  else (w, tmp, [], Loop_next).

(** One entry per event the loop reached: the state of the node when
    it reached the event, the event, and the calls it made for it. *)
Record event_record := mk_event_record {
  er_world : W;
  er_event : epoll_event;
  er_calls : list net_call
}.

Fixpoint process_events (evs : list epoll_event) (w : W) (tmp : Z)
  : W * Z * list event_record * loop_step :=
  match evs with
  | [] => (w, tmp, [], Loop_next)
  | ev :: rest =>
      let '(w1, tmp1, cs, s) := process_event ev w tmp in
      let here := mk_event_record w ev cs in
      match s with
      | Loop_next =>
          let '(w2, tmp2, log, s2) := process_events rest w1 tmp1 in
          (w2, tmp2, here :: log, s2)
      | _ => (w1, tmp1, [here], s)
      end
  end.

(** One wake of [dnet_io_process_network] with [num_events] events in
    the array [evs]: the events are shuffled and processed; the last
    component tells whether the thread then parks on the admission
    condition. *)
Definition dnet_io_process_network_wake (RAND_MAX : Z) (rand : Z -> Z)
    (evs : list epoll_event) (num_events : Z) (w : W)
  : option (W * list event_record * loop_step * bool) :=
  if Z.of_nat (length evs) <? num_events then None
  else
    match dnet_shuffle_epoll_events RAND_MAX rand evs num_events with
    | None => None
    | Some evs' =>
        let '(w1, tmp, log, s) :=
          process_events (take (Z.to_nat num_events) evs') w 0 in
        Some (w1, log, s, (tmp =? 0) && (dnet_check_io (node_io w1) =? 0))
    end.
End Reactor.

(** ** Sample values

    Inputs on which the statements below are evaluated. *)

Definition sample_workers : list dnet_work_io :=
  [ {| thread_index := 0; wio_trans := 2 ^ 64 - 1; joined := 0; tid := 11 |};
    {| thread_index := 1; wio_trans := 2 ^ 64 - 1; joined := 1; tid := 12 |};
    {| thread_index := 2; wio_trans := 2 ^ 64 - 1; joined := 0; tid := 13 |} ].

Definition sample_pool : dnet_work_pool :=
  {| num := 3; mode := 0; wio_list := sample_workers; queue_size := 5 |}.

(** A pool of one worker, and the creation of threads 101, 102, ...
    without error. *)
Definition one_worker : dnet_work_io :=
  {| thread_index := 0; wio_trans := 2 ^ 64 - 1; joined := 0; tid := 7 |}.

Definition one_worker_pool : dnet_work_pool :=
  {| num := 1; mode := 0; wio_list := [one_worker]; queue_size := 0 |}.

Definition create_ok (i : Z) : Z * pthread_t := (0, 101 + i).

(** A node with two system pools and one backend. *)
Definition sample_io : dnet_io :=
  {| io_pool := {| recv_pool := {| pool := Some sample_pool |};
                   recv_pool_nb := {| pool := None |} |};
     pools_manager :=
       Some [ {| recv_pool := {| pool := Some one_worker_pool |};
                 recv_pool_nb := {| pool := Some sample_pool |} |} ] |}.

(** Values for the constants of [packet.h], one bit per flag and one
    number per command. *)
Definition sample_packet_h : packet_h :=
  {| DNET_FLAGS_NOLOCK := 16;
     DNET_FLAGS_DIRECT_BACKEND := 128; DNET_FLAGS_REPLY := 512;
     DNET_CMD_AUTH := 15; DNET_CMD_STATUS := 12; DNET_CMD_REVERSE_LOOKUP := 2;
     DNET_CMD_JOIN := 3; DNET_CMD_ROUTE_LIST := 8; DNET_CMD_MONITOR_STAT := 24;
     DNET_CMD_BACKEND_CONTROL := 26; DNET_CMD_BACKEND_STATUS := 27;
     DNET_CMD_BULK_READ_NEW := 34; DNET_CMD_BULK_REMOVE_NEW := 35 |}.

Definition sample_id : dnet_id := {| id_bytes := [1; 2; 3]; group_id := 2 |}.

(** A reply of transaction 42, and a connection that has no
    transaction 42 but a transaction 7, armed in the timer index. *)
Definition stray_reply : dnet_io_req :=
  {| io_req_type := DNET_IO_REQ_OLD_PROTOCOL;
     header := {| id := sample_id; cmd := 5; flags := 512; trans := 42;
                  backend_id := 3; size := 0 |};
     serialized := 0 |}.

Definition reply_7 : dnet_io_req :=
  {| io_req_type := DNET_IO_REQ_OLD_PROTOCOL;
     header := {| id := sample_id; cmd := 5; flags := 512; trans := 7;
                  backend_id := 3; size := 0 |};
     serialized := 0 |}.

Definition sample_state : dnet_net_state :=
  {| read_s := 5; write_s := 6; accept_s := -1;
     send_list := []; send_queue_size := 0;
     trans_root := {[ 7 := {| t_trans := 7; t_time := 100 |} ]};
     timer_root := {[ 7 ]} |}.

(** The accessors of typed requests, for samples that hold none. *)
Definition no_n2_get_cmd (r : dnet_io_req) : dnet_cmd := header r.
Definition no_n2_set_backend_id (r : dnet_io_req) (b : Z) : Z * dnet_io_req :=
  (- Errno.ENOTSUP, r).

(** Two frames queued on a connection whose count of queued frames
    equals a low watermark of 4, and writes that all succeed. *)
Definition frame_1 : dnet_io_req :=
  {| io_req_type := DNET_IO_REQ_OLD_PROTOCOL;
     header := {| id := sample_id; cmd := 5; flags := 512; trans := 1;
                  backend_id := 0; size := 0 |};
     serialized := 0 |}.

Definition frame_2 : dnet_io_req :=
  {| io_req_type := DNET_IO_REQ_OLD_PROTOCOL;
     header := {| id := sample_id; cmd := 5; flags := 512; trans := 2;
                  backend_id := 0; size := 0 |};
     serialized := 1 |}.

Definition sending_state : dnet_net_state :=
  {| read_s := 5; write_s := 6; accept_s := -1;
     send_list := [frame_1; frame_2]; send_queue_size := 4;
     trans_root := ∅; timer_root := ∅ |}.

Definition send_ok (k : nat) (r : dnet_io_req) : Z := 0.

(** Writes of which the second would block. *)
Definition send_second_blocks (k : nat) (r : dnet_io_req) : Z :=
  match k with 1%nat => - Errno.EAGAIN | _ => 0 end.

(** [accept] fails for want of descriptors. *)
Definition accept_emfile : accept_env :=
  {| accept_cs := -1; accept_errno := Errno.EMFILE;
     local_addr_err := 0; state_created := true |}.

(** Five events and the returns of [rand] for them. *)
Definition sample_events : list epoll_event :=
  [ {| events := 1; data_st := 0%nat; data_fd := 5 |};
    {| events := 4; data_st := 0%nat; data_fd := 6 |};
    {| events := 1; data_st := 1%nat; data_fd := 8 |};
    {| events := 5; data_st := 2%nat; data_fd := 9 |};
    {| events := 1; data_st := 3%nat; data_fd := 3 |} ].

Definition sample_rand (i : Z) : Z := (i * 1103515245 + 12345) mod 2147483648.

(** The handler calls of one event, the reset apart: the accept handler
    for an accept event; otherwise, if the event carries EPOLLOUT or
    admission is granted, the receive handler for EPOLLIN and the send
    handler for EPOLLOUT, the latter unless the receive handler has
    just failed; otherwise none. *)
Definition event_calls (is_accept pollin pollout granted recv_failed : bool) (st : conn)
  : list net_call :=
  if is_accept then [Call_accept st]
  else if pollout || granted then
    (if pollin then [Call_recv st] else [])
    ++ (if pollout && negb (pollin && recv_failed) then [Call_send st] else [])
  else [].

(** A node for the samples: its state is the admission view, which no
    handler changes; connection 3 is the listening one, on descriptor
    3; every handler succeeds. *)
Definition overloaded_io : dnet_io :=
  {| io_pool := {| recv_pool := {| pool := Some {| num := 1; mode := 0;
                                                    wio_list := [one_worker];
                                                    queue_size := 5000 |} |};
                   recv_pool_nb := {| pool := None |} |};
     pools_manager := None |}.

Definition sample_node_io (w : dnet_io) : dnet_io := w.

Definition sample_net_state (w : dnet_io) (st : conn) : dnet_net_state :=
  {| read_s := 5; write_s := 6;
     accept_s := match st with 3%nat => 3 | _ => -1 end;
     send_list := []; send_queue_size := 0; trans_root := ∅; timer_root := ∅ |}.

Definition sample_accept (st : conn) (w : dnet_io) : accept_outcome * dnet_io :=
  (Accept_return 0, w).

Definition sample_handler (st : conn) (w : dnet_io) : Z * dnet_io := (0, w).

Definition sample_reset (st : conn) (err : Z) (w : dnet_io) : dnet_io := w.


(** ** Further sample values *)

(** Thread creation that fails with error 11 at index 2. *)
Definition create_fails_at_2 (i : Z) : Z * pthread_t :=
  if i =? 2 then (11, 0) else (0, 101 + i).



(** [accept] fails with an error the acceptor does not survive. *)
Definition accept_ebadf : accept_env :=
  {| accept_cs := -1; accept_errno := 9;
     local_addr_err := 0; state_created := true |}.

Definition accept_fine : accept_env :=
  {| accept_cs := 12; accept_errno := 0;
     local_addr_err := 0; state_created := true |}.

(** A receive handler that meets a reset of the peer. *)
Definition failing_handler (st : conn) (w : dnet_io) : Z * dnet_io :=
  (- Errno.ECONNRESET, w).

(** Two events that carry EPOLLIN alone, on connections that do not
    listen, and an event that carries EPOLLHUP alone. *)
Definition recv_only_events : list epoll_event :=
  [ {| events := 1; data_st := 0%nat; data_fd := 5 |};
    {| events := 1; data_st := 1%nat; data_fd := 8 |} ].

Definition hangup_event : epoll_event :=
  {| events := 16; data_st := 1%nat; data_fd := 8 |}.

(** ** Work pools: allocation and cleanup *)

(** What the allocation and the cleanup of a pool do to the resources
    of the pool, in order; the calls to the threads library are
    embedded. *)
Inductive pool_call :=
| Pool_calloc
| Pool_mutex_init
| Pool_queue_create
| Pool_thread (c : thread_call)
| Pool_mutex_destroy
| Pool_queue_destroy
| Pool_free_wio_list
| Pool_free.

(** The threads that a sequence of calls starts, and those it joins. *)
Definition threads_created (cs : list thread_call) : list pthread_t :=
  omap (fun c => match c with Pthread_create _ t => Some t | _ => None end) cs.

Definition threads_joined (cs : list thread_call) : list pthread_t :=
  omap (fun c => match c with Pthread_join t => Some t | _ => None end) cs.

Definition pool_threads (cs : list pool_call) : list thread_call :=
  omap (fun c => match c with Pool_thread t => Some t | _ => None end) cs.

(** What the environment answers to one run of [dnet_work_pool_alloc]:
    whether [calloc] yields the pool, the error of the initialisation
    of its mutex, whether the request queue is created, and the two
    answers [dnet_work_pool_grow] depends on. *)
Record alloc_env := mk_alloc_env {
  calloc_ok : bool;
  mutex_init_err : Z;
  queue_ok : bool;
  wio_malloc_ok : bool;
  thread_create : Z -> Z * pthread_t
}.

(** [dnet_work_pool_alloc]: the error returned, the place afterwards
    and the calls made.  The place afterwards is [None] where
    [place->pool] is left pointing to a pool that has been freed. *)
Definition dnet_work_pool_alloc (e : alloc_env) (place : dnet_work_pool_place)
    (n : Z) (pool_mode : Z)
  : Z * option dnet_work_pool_place * list pool_call :=
  if negb (calloc_ok e) then (- Errno.ENOMEM, Some {| pool := None |}, [])
  else if negb (mutex_init_err e =? 0)
  then (- mutex_init_err e, None, [Pool_calloc; Pool_free])
  else
    let p := {| num := 0; mode := pool_mode; wio_list := []; queue_size := 0 |} in
    if negb (queue_ok e)
    then (- Errno.ENOMEM, None,
          [Pool_calloc; Pool_mutex_init; Pool_mutex_destroy; Pool_free])
    else
      let '(err, p1, cs) := dnet_work_pool_grow (wio_malloc_ok e) (thread_create e) p n in
      let done := [Pool_calloc; Pool_mutex_init; Pool_queue_create]
                  ++ (Pool_thread <$> cs) in
      if negb (err =? 0)
      then (err, None, done ++ [Pool_mutex_destroy; Pool_free])
      else (err, Some {| pool := Some p1 |}, done).

(** [dnet_work_pool_cleanup].  The loop over the workers empties their
    request lists, which the model of a worker leaves out; it reads
    [pool->num] entries of the worker array all the same. *)
Definition dnet_work_pool_cleanup (place : dnet_work_pool_place)
  : option (dnet_work_pool_place * list pool_call) :=
  match pool place with
  | None => None
  | Some p =>
      if Z.of_nat (length (wio_list p)) <? num p then None
      else Some ({| pool := None |},
                 [Pool_mutex_destroy; Pool_queue_destroy; Pool_free_wio_list; Pool_free])
  end.

Definition dnet_work_pool_exit (place : dnet_work_pool_place)
  : option (dnet_work_pool_place * list pool_call) :=
  match dnet_work_pool_stop place with
  | None => None
  | Some (place1, cs1) =>
      match dnet_work_pool_cleanup place1 with
      | None => None
      | Some (place2, cs2) => Some (place2, (Pool_thread <$> cs1) ++ cs2)
      end
  end.



(** An environment in which every step of an allocation succeeds, and
    one in which the third thread cannot be created. *)
Definition alloc_fine : alloc_env :=
  {| calloc_ok := true; mutex_init_err := 0; queue_ok := true;
     wio_malloc_ok := true; thread_create := create_ok |}.

Definition alloc_thread_fails : alloc_env :=
  {| calloc_ok := true; mutex_init_err := 0; queue_ok := true;
     wio_malloc_ok := true; thread_create := create_fails_at_2 |}.

(** ** Initialisation of the I/O core *)


(** What [dnet_io_init] acquires, step by step: the [dnet_io]
    structure, the admission mutex and condition, the two places and
    their pools (the flag tells the non-blocking one), the
    protocol-independent layer, the acceptor and the network threads. *)
Inductive io_resource :=
| R_io
| R_full_lock
| R_full_wait
| R_place (nonblocking : bool)
| R_pool (nonblocking : bool)
| R_n2_protocol
| R_acceptor
| R_net (i : Z).

#[global] Instance io_resource_eq_dec : EqDecision io_resource.
Proof. solve_decision. Defined.













(** ** Comparisons and dumps of [elliptics/interface.h] *)

(** [struct dnet_time]: seconds and nanoseconds, both [uint64_t]. *)
Record dnet_time := mk_time {
  tsec : Z;
  tnsec : Z
}.

Definition dnet_time_cmp (t1 t2 : dnet_time) : Z :=
  if tsec t1 <? tsec t2 then -1
  else if tsec t2 <? tsec t1 then 1
  else if tnsec t1 <? tnsec t2 then -1
  else if tnsec t2 <? tnsec t1 then 1
  else 0.

Section IdCmp.
(** [DNET_ID_SIZE] of [elliptics/packet.h], the number of bytes of
    an id. *)
Variable DNET_ID_SIZE : Z.





(** The table of [dnet_dump_id_len_raw]. *)
Definition hex : list Z :=
  [48; 49; 50; 51; 52; 53; 54; 55; 56; 57; 97; 98; 99; 100; 101; 102].

(** The loop of [dnet_dump_id_len_raw]: [n] iterations from index
    [i] on; the characters written so far are [dst]. *)
Fixpoint dump_loop (n : nat) (i : nat) (bytes : list Z) (dst : list Z)
  : option (list Z) :=
  match n with
  | O => Some dst
  | S n' =>
      match bytes !! i with
      | None => None
      | Some b =>
          match hex !! Z.to_nat (Z.shiftr b 4), hex !! Z.to_nat (Z.land b 15) with
          | Some hi, Some lo => dump_loop n' (S i) bytes (dst ++ [hi; lo])
          | _, _ => None
          end
      end
  end.

(** [dnet_dump_id_len_raw]: the characters of the string written to
    [dst], without the terminating NUL.  [len] is an [unsigned
    int]. *)
Definition dnet_dump_id_len_raw (bytes : list Z) (len : Z) : option (list Z) :=
  let len := if DNET_ID_SIZE <? len then DNET_ID_SIZE else len in
  dump_loop (Z.to_nat len) 0 bytes [].
End IdCmp.


(** The value of a hexadecimal digit, and the bytes that a string of
    such digits spells. *)
Definition unhex_digit (c : Z) : Z :=
  if (48 <=? c) && (c <=? 57) then c - 48 else c - 87.

Fixpoint unhex (s : list Z) : list Z :=
  match s with
  | hi :: lo :: s' => (16 * unhex_digit hi + unhex_digit lo) :: unhex s'
  | _ => []
  end.

Definition is_hex_digit (c : Z) : Prop :=
  48 <= c <= 57 \/ 97 <= c <= 102.

Definition time_a : dnet_time := {| tsec := 10; tnsec := 500 |}.
Definition time_b : dnet_time := {| tsec := 10; tnsec := 900 |}.
Definition time_c : dnet_time := {| tsec := 11; tnsec := 0 |}.



(** ** Registration with epoll *)

(** [EEXIST] of Linux. *)
Definition EEXIST : Z := 17.

(** The three [dnet_net_epoll_data] of a connection, which the data
    pointer of a registration leads to. *)
Inductive epoll_data := Read_data | Write_data | Accept_data.

(** A registration in an epoll instance: the event mask, the
    connection and which of its three data the pointer is.  The
    interest list of an instance maps a descriptor to its
    registration. *)
Record epoll_reg := mk_reg {
  reg_events : Z;
  reg_st : conn;
  reg_data : epoll_data
}.

(** [epoll_ctl(EPOLL_CTL_ADD)]: the value returned, errno and the
    interest list.  A registered descriptor gives EEXIST;
    [add_errno fd] is the errno of a failure for another reason
    (EBADF, ENOMEM, ENOSPC, EPERM), 0 for none. *)
Definition epoll_ctl_add (add_errno : Z -> Z) (ep : gmap Z epoll_reg) (fd : Z)
    (r : epoll_reg) : Z * Z * gmap Z epoll_reg :=
  if negb (add_errno fd =? 0) then (-1, add_errno fd, ep)
  else match ep !! fd with
       | Some _ => (-1, EEXIST, ep)
       | None => (0, 0, <[fd := r]> ep)
       end.

(** [epoll_ctl(EPOLL_CTL_DEL)], whose result the code ignores: a
    descriptor that is not registered leaves the list as it is. *)
Definition epoll_ctl_del (ep : gmap Z epoll_reg) (fd : Z) : gmap Z epoll_reg :=
  delete fd ep.

(** [dnet_schedule_network_io] on the connection [c] with the sockets
    of [st] and the value [need_exit] of [st->__need_exit]: the value
    returned, the interest list, and whether [full_wait] was
    broadcast. *)
Definition dnet_schedule_network_io (add_errno : Z -> Z) (need_exit : Z)
    (c : conn) (st : dnet_net_state) (send : bool) (ep : gmap Z epoll_reg)
  : Z * gmap Z epoll_reg * bool :=
  if negb (need_exit =? 0) then (need_exit, ep, false)
  else
    let ev := if send then Epoll.EPOLLOUT else Epoll.EPOLLIN in
    let fd := if send then write_s st else read_s st in
    let data := if send then Write_data else Read_data in
    let '(err, errno, ep1) :=
      if 0 <=? fd
      then epoll_ctl_add add_errno ep fd
             {| reg_events := ev; reg_st := c; reg_data := data |}
      else (0, 0, ep) in
    let '(err, ep2) :=
      if err <? 0 then
        let err := - errno in
        if err =? - EEXIST then (0, ep1) else (err, ep1)
      else if negb send && (0 <=? accept_s st) then
        let '(err, errno, ep2) :=
          epoll_ctl_add add_errno ep1 (accept_s st)
            {| reg_events := ev; reg_st := c; reg_data := Accept_data |} in
        if err <? 0 then (- errno, ep2) else (err, ep2)
      else (err, ep1) in
    (err, ep2, send).

Definition dnet_schedule_send add_errno need_exit c st ep :=
  dnet_schedule_network_io add_errno need_exit c st true ep.

Definition dnet_schedule_recv add_errno need_exit c st ep :=
  dnet_schedule_network_io add_errno need_exit c st false ep.

(** [dnet_unschedule_send] and [dnet_unschedule_all]. *)
Definition dnet_unschedule_send (st : dnet_net_state) (ep : gmap Z epoll_reg)
  : gmap Z epoll_reg :=
  if 0 <=? write_s st then epoll_ctl_del ep (write_s st) else ep.

Definition dnet_unschedule_all (st : dnet_net_state) (ep : gmap Z epoll_reg)
  : gmap Z epoll_reg :=
  let ep := if 0 <=? read_s st then epoll_ctl_del ep (read_s st) else ep in
  let ep := if 0 <=? write_s st then epoll_ctl_del ep (write_s st) else ep in
  if 0 <=? accept_s st then epoll_ctl_del ep (accept_s st) else ep.

(** The descriptors of a connection that can be registered. *)
Definition state_fds (st : dnet_net_state) : list Z :=
  filter (fun fd => 0 <= fd) [read_s st; write_s st; accept_s st].

Definition no_add_errno : Z -> Z := fun _ => 0.

(** A connected state with its two sockets, and a listening state. *)
Definition connected_state : dnet_net_state :=
  {| read_s := 7; write_s := 8; accept_s := -1; send_list := [];
     send_queue_size := 0; trans_root := ∅; timer_root := ∅ |}.

Definition listening_state : dnet_net_state :=
  {| read_s := -1; write_s := -1; accept_s := 5; send_list := [];
     send_queue_size := 0; trans_root := ∅; timer_root := ∅ |}.

Definition other_regs : gmap Z epoll_reg :=
  {[ 3 := {| reg_events := Epoll.EPOLLIN; reg_st := 9%nat; reg_data := Read_data |} ]}.


(** ** Receiving a frame *)

(** What one [recv] on the read socket gives: bytes that have arrived
    (at least one), the end of the stream, or a failure with its
    errno. *)
Inductive recv_result :=
| Recv_data (b : Z) (l : list Z)
| Recv_eof
| Recv_errno (e : Z).

(** The outcome of [recv(fd, data, size, 0)] for [size > 0], and the
    stream after it.  Of the bytes that have arrived the call takes at
    most [size]; the others stay for the next call.  A stream with
    nothing left would block: EAGAIN. *)
Inductive recv_ret :=
| Ret_bytes (l : list Z)
| Ret_eof
| Ret_errno (e : Z).

Definition sock_recv (sock : list recv_result) (size : Z)
  : recv_ret * list recv_result :=
  match sock with
  | [] => (Ret_errno Errno.EAGAIN, [])
  | Recv_errno e :: sock' => (Ret_errno e, sock')
  | Recv_eof :: sock' => (Ret_eof, sock')
  | Recv_data b l :: sock' =>
      let n := Z.to_nat size in
      (Ret_bytes (take n (b :: l)),
       match drop n (b :: l) with
       | [] => sock'
       | b' :: l' => Recv_data b' l' :: sock'
       end)
  end.

(** The bytes a write of [l] at offset [off] leaves in [buf]; [None]
    if the write does not fit in the object. *)
Definition write_at (buf : list Z) (off : Z) (l : list Z) : option (list Z) :=
  if (0 <=? off) && (off + Z.of_nat (length l) <=? Z.of_nat (length buf))
  then Some (take (Z.to_nat off) buf ++ l
             ++ drop (Z.to_nat off + length l) buf)
  else None.

(** The block that [dnet_process_recv_single] allocates for a request:
    after the [struct dnet_io_req] come the header, which [r->header]
    points to, and the data.  [r_bytes] holds what follows the struct;
    [r_dsize] is 0 while [r->data] is NULL. *)
Record recv_req := mk_recv_req {
  r_bytes : list Z;
  r_hsize : Z;
  r_dsize : Z
}.

(** The receive state of a connection: [rcv_flags], [rcv_offset] and
    [rcv_end] (64-bit unsigned, as the [size] computed from them), the
    bytes of [rcv_cmd], and [rcv_data].  The time stamps, the trace id
    and the log are left out. *)
Record recv_state := mk_recv_state {
  rcv_flags : Z;
  rcv_offset : Z;
  rcv_end : Z;
  rcv_cmd : list Z;
  rcv_data : option recv_req
}.

(** How an invocation of [dnet_process_recv_single] ends: it returns
    [err], with the request it handed to [dnet_schedule_io] if any; or
    the native protocol took the message, and what follows depends on
    state of that protocol; or a write or read falls outside its
    object; or the iterations allowed are used up. *)
Inductive recv_outcome :=
| Recv_return (err : Z) (st : recv_state) (sock : list recv_result)
    (pushed : option recv_req)
| Recv_n2 (err : Z) (st : recv_state) (sock : list recv_result)
| Recv_memory_error
| Recv_fuel.

Section Recv.
(** [DNET_IO_CMD], [sizeof(struct dnet_cmd)] and
    [sizeof(struct dnet_io_req)]. *)
Variable DNET_IO_CMD : Z.
Variable CMD_SIZE : Z.
Variable REQ_SIZE : Z.

(** [dnet_convert_cmd] on the bytes of a header, which it converts in
    place to the byte order of the host, and [c->size] of a converted
    header. *)
Variable dnet_convert_cmd : list Z -> list Z.
Variable cmd_size : list Z -> Z.

(** The values [n2_native_protocol_prepare_message_buffer] and
    [n2_native_protocol_schedule_message] return for the header in
    [rcv_cmd]: -ENOTSUP for a command of the old protocol. *)
Variable n2_prepare : list Z -> Z.
Variable n2_schedule : list Z -> Z.

(** Whether [malloc] of that many bytes succeeds. *)
Variable malloc_ok : Z -> bool.

(** [dnet_schedule_command]; the [free] of [rcv_data] shows as its
    loss. *)
Definition dnet_schedule_command (st : recv_state) : recv_state :=
  {| rcv_flags := DNET_IO_CMD;
     rcv_offset := 0;
     rcv_end := CMD_SIZE;
     rcv_cmd := rcv_cmd st;
     rcv_data := None |}.

(** The label [out] of [dnet_process_recv_single]. *)
Definition recv_out (err : Z) (st : recv_state) (sock : list recv_result)
  : recv_outcome :=
  if negb (err =? - Errno.EAGAIN) && negb (err =? - Errno.EINTR)
  then Recv_return err (dnet_schedule_command st) sock None
  else Recv_return err st sock None.

(** The state after [recv] has written [l] at [data + rcv_offset],
    where [data] is [&st->rcv_cmd] or [st->rcv_data]. *)
Definition recv_store (st : recv_state) (l : list Z) : option recv_state :=
  if flag_set (rcv_flags st) DNET_IO_CMD then
    match write_at (rcv_cmd st) (rcv_offset st) l with
    | Some buf =>
        Some {| rcv_flags := rcv_flags st;
                rcv_offset := wrap64 (rcv_offset st + Z.of_nat (length l));
                rcv_end := rcv_end st;
                rcv_cmd := buf;
                rcv_data := rcv_data st |}
    | None => None
    end
  else
    match rcv_data st with
    | Some r =>
        match write_at (r_bytes r) (rcv_offset st - REQ_SIZE) l with
        | Some buf =>
            Some {| rcv_flags := rcv_flags st;
                    rcv_offset := wrap64 (rcv_offset st + Z.of_nat (length l));
                    rcv_end := rcv_end st;
                    rcv_cmd := rcv_cmd st;
                    rcv_data := Some {| r_bytes := buf; r_hsize := r_hsize r;
                                        r_dsize := r_dsize r |} |}
        | None => None
        end
    | None => None
    end.

(** From the label [again] to the test of [rcv_offset] against
    [rcv_end]: the outcome if the function leaves here, or the state
    and the stream it goes on with. *)
Definition recv_chunk (st : recv_state) (sock : list recv_result)
  : recv_outcome + recv_state * list recv_result :=
  let size := wrap64 (rcv_end st - rcv_offset st) in
  if size =? 0 then inr (st, sock)
  else
    match sock_recv sock size with
    | (Ret_errno e, sock') =>
        if negb (e =? Errno.EAGAIN) && negb (e =? Errno.EINTR)
        then inl (recv_out (- e) st sock')
        else inl (recv_out (- Errno.EAGAIN) st sock')
    | (Ret_eof, sock') => inl (recv_out (- Errno.ECONNRESET) st sock')
    | (Ret_bytes l, sock') =>
        match recv_store st l with
        | Some st' => inr (st', sock')
        | None => inl Recv_memory_error
        end
    end.

(** The label [schedule]. *)
Definition recv_schedule (st : recv_state) (sock : list recv_result)
  : recv_outcome :=
  let err := n2_schedule (rcv_cmd st) in
  if negb (err =? - Errno.ENOTSUP) then Recv_n2 err st sock
  else
    match rcv_data st with
    | None => Recv_memory_error
    | Some r =>
        Recv_return 0
          (dnet_schedule_command
             {| rcv_flags := rcv_flags st; rcv_offset := rcv_offset st;
                rcv_end := rcv_end st; rcv_cmd := rcv_cmd st;
                rcv_data := None |})
          sock (Some r)
    end.

(** [dnet_process_recv_single], with at most [fuel] passes through the
    label [again].  [malloc] does not initialise the data part of the
    block; its bytes are 0 here until [recv] writes them. *)
Fixpoint recv_loop (fuel : nat) (st : recv_state) (sock : list recv_result)
  : recv_outcome :=
  match fuel with
  | O => Recv_fuel
  | S fuel' =>
      match recv_chunk st sock with
      | inl o => o
      | inr (st, sock) =>
          if negb (rcv_offset st =? rcv_end st) then recv_loop fuel' st sock
          else if flag_set (rcv_flags st) DNET_IO_CMD then
            let st :=
              {| rcv_flags := Z.land (rcv_flags st) (Z.lnot DNET_IO_CMD);
                 rcv_offset := rcv_offset st; rcv_end := rcv_end st;
                 rcv_cmd := dnet_convert_cmd (rcv_cmd st);
                 rcv_data := rcv_data st |} in
            let c_size := cmd_size (rcv_cmd st) in
            let err := n2_prepare (rcv_cmd st) in
            if negb (err =? - Errno.ENOTSUP) then Recv_n2 err st sock
            else
              let n := wrap64 (c_size + CMD_SIZE + REQ_SIZE) in
              if negb (malloc_ok n) then recv_out (- Errno.ENOMEM) st sock
              else if n <? REQ_SIZE + CMD_SIZE then Recv_memory_error
              else
                let r :=
                  {| r_bytes := take (Z.to_nat CMD_SIZE) (rcv_cmd st)
                                ++ repeat 0 (Z.to_nat (n - REQ_SIZE - CMD_SIZE));
                     r_hsize := CMD_SIZE;
                     r_dsize := c_size |} in
                let st :=
                  {| rcv_flags := rcv_flags st;
                     rcv_offset := REQ_SIZE + CMD_SIZE;
                     rcv_end := wrap64 (REQ_SIZE + CMD_SIZE + c_size);
                     rcv_cmd := rcv_cmd st;
                     rcv_data := Some r |} in
                if negb (c_size =? 0) then recv_loop fuel' st sock
                else recv_schedule st sock
          else recv_schedule st sock
      end
  end.

(** The bytes a stream holds. *)
Fixpoint sock_bytes (sock : list recv_result) : nat :=
  match sock with
  | [] => 0
  | Recv_data b l :: sock' => S (length l) + sock_bytes sock'
  | _ :: sock' => sock_bytes sock'
  end.

(** [dnet_process_recv_single]: every pass through [again] but one
    takes a byte from the stream. *)
Definition dnet_process_recv_single (st : recv_state) (sock : list recv_result)
  : recv_outcome :=
  recv_loop (sock_bytes sock + 2) st sock.

(** The state in which a connection waits for a command. *)
Definition recv_ready (st : recv_state) : Prop :=
  rcv_flags st = DNET_IO_CMD /\ rcv_offset st = 0 /\ rcv_end st = CMD_SIZE
  /\ rcv_data st = None /\ Z.of_nat (length (rcv_cmd st)) = CMD_SIZE.

(** Offsets as the 64-bit fields hold them. *)
Definition recv_in_range (st : recv_state) : Prop :=
  0 <= rcv_offset st < 2 ^ 64 /\ 0 <= rcv_end st < 2 ^ 64.

(** A frame of the old protocol for which the allocation succeeds: the
    header [hdr], once converted, announces the data [payload]. *)
Definition recv_frame (hdr payload : list Z) : Prop :=
  Z.of_nat (length hdr) = CMD_SIZE
  /\ length (dnet_convert_cmd hdr) = length hdr
  /\ cmd_size (dnet_convert_cmd hdr) = Z.of_nat (length payload)
  /\ n2_prepare (dnet_convert_cmd hdr) = - Errno.ENOTSUP
  /\ n2_schedule (dnet_convert_cmd hdr) = - Errno.ENOTSUP
  /\ Z.of_nat (length payload) + CMD_SIZE + REQ_SIZE < 2 ^ 64
  /\ malloc_ok (Z.of_nat (length payload) + CMD_SIZE + REQ_SIZE) = true.

(** The receive state after the first [k] bytes of the frame, for [k]
    below the length of the frame; [old] is what [rcv_cmd] held
    before.  The header is complete at [k = CMD_SIZE]; it is converted
    and the block of the request is allocated then. *)
Definition recv_progress (old hdr payload : list Z) (k : nat) : recv_state :=
  let c := Z.to_nat CMD_SIZE in
  if (k <? c)%nat then
    {| rcv_flags := DNET_IO_CMD;
       rcv_offset := Z.of_nat k;
       rcv_end := CMD_SIZE;
       rcv_cmd := take k hdr ++ drop k old;
       rcv_data := None |}
  else
    {| rcv_flags := Z.land DNET_IO_CMD (Z.lnot DNET_IO_CMD);
       rcv_offset := REQ_SIZE + CMD_SIZE + Z.of_nat (k - c);
       rcv_end := REQ_SIZE + CMD_SIZE + Z.of_nat (length payload);
       rcv_cmd := dnet_convert_cmd hdr;
       rcv_data :=
         Some {| r_bytes := dnet_convert_cmd hdr ++ take (k - c) payload
                            ++ repeat 0 (length payload - (k - c));
                 r_hsize := CMD_SIZE;
                 r_dsize := Z.of_nat (length payload) |} |}.

(** The request of a frame, as [dnet_schedule_io] gets it; [hdr] is
    the converted header. *)
Definition recv_request (hdr payload : list Z) : recv_req :=
  {| r_bytes := hdr ++ payload; r_hsize := CMD_SIZE;
     r_dsize := Z.of_nat (length payload) |}.
End Recv.

(** The bytes a stream delivers before its first end or failure, and
    the stream from there on. *)
Fixpoint sock_data (sock : list recv_result) : list Z :=
  match sock with
  | Recv_data b l :: sock' => b :: l ++ sock_data sock'
  | _ => []
  end.

Fixpoint sock_rest (sock : list recv_result) : list recv_result :=
  match sock with
  | Recv_data b l :: sock' => sock_rest sock'
  | _ => sock
  end.

(** A protocol with a header of four bytes, the last of which is the
    size of the data, and a stream that delivers the frame
    [9 9 9 2 | 5 6] in pieces. *)
Definition sample_convert_cmd (hdr : list Z) : list Z := hdr.
Definition sample_cmd_size (hdr : list Z) : Z := default 0 (hdr !! 3%nat).
Definition old_protocol (hdr : list Z) : Z := - Errno.ENOTSUP.
Definition malloc_fine (n : Z) : bool := true.

Definition sample_recv_single : recv_state -> list recv_result -> recv_outcome :=
  dnet_process_recv_single 1 4 8 sample_convert_cmd sample_cmd_size old_protocol old_protocol malloc_fine.

Definition sample_progress : nat -> recv_state :=
  recv_progress 1 4 8 sample_convert_cmd [0; 0; 0; 0] [9; 9; 9; 2] [5; 6].

Definition sample_stream : list recv_result :=
  [Recv_data 9 [9]; Recv_data 9 [2; 5]; Recv_data 6 [7; 7]; Recv_eof].

Definition stalled_stream : list recv_result :=
  [Recv_data 9 [9]; Recv_data 9 [2; 5]; Recv_errno Errno.EINTR; Recv_data 6 [7; 7]].

Definition broken_stream : list recv_result :=
  [Recv_data 9 [9; 9; 2; 5]; Recv_eof].

(** A protocol whose headers announce the largest size. *)
Definition huge_cmd_size (hdr : list Z) : Z := 2 ^ 64 - 1.


(** ** Addresses *)

(** Address families and the sizes of [struct sockaddr_in] and
    [struct sockaddr_in6] (Linux ABI).  In both structs the port takes
    the bytes 2 and 3, in network byte order; the IPv4 address takes
    the bytes 4 to 7 of the first, the IPv6 address the bytes 8 to 23
    of the second. *)
Module Sock.
End Sock.

(** [struct dnet_addr] as the code uses it: the bytes of the socket
    address, its length and its family. *)
Record dnet_addr := mk_addr {
  addr : list Z;
  addr_len : Z;
  family : Z
}.






Section LocalAddr.
Context {A : Type}.

(** [dnet_addr_equal]. *)
Variable dnet_addr_equal : A -> A -> bool.

(** The loop of [dnet_local_addr_index], [n] iterations from the index
    [i] on. *)
Fixpoint local_addr_loop (n : nat) (i : Z) (a : A) (addrs : list A) : option Z :=
  match n with
  | O => Some (-1)
  | S n' =>
      match addrs !! Z.to_nat i with
      | None => None
      | Some b =>
          if dnet_addr_equal a b then Some i
          else local_addr_loop n' (i + 1) a addrs
      end
  end.

(** [dnet_local_addr_index] over [n->addrs] and [n->addr_num]. *)
Definition dnet_local_addr_index (addr_num : Z) (addrs : list A) (a : A) : option Z :=
  local_addr_loop (Z.to_nat addr_num) 0 a addrs.
End LocalAddr.


(** The address ::ffff:192.0.2.7, port 1025, as [getsockname] gives it
    for a connection that came in over IPv4 on an IPv6 socket. *)
Definition mapped_addr : dnet_addr :=
  {| addr := [10; 0; 4; 1; 0; 0; 0; 0;
              0; 0; 0; 0; 0; 0; 0; 0; 0; 0; 255; 255; 192; 0; 2; 7;
              0; 0; 0; 0];
     addr_len := 28; family := 10 |}.

Definition same_family (a b : dnet_addr) : bool := family a =? family b.

(** ** Network threads *)

(** The calls of [dnet_net_io_init] and [dnet_net_io_cleanup] on the
    resources of a network thread. *)
Inductive nio_call :=
| Nio_epoll_create (fd : Z)
| Nio_fcntl (fd : Z)
| Nio_thread_create (t : pthread_t)
| Nio_thread_join (t : pthread_t)
| Nio_close (fd : Z).

(** [struct dnet_net_io]: the epoll descriptor and the thread. *)
Record dnet_net_io := mk_net_io {
  epoll_fd : Z;
  nio_tid : pthread_t
}.

(** [dnet_net_io_init]: [epoll_create] returns [efd], leaving
    [epoll_errno] if it fails, and [pthread_create] returns the error
    and the thread of [create]. *)
Definition dnet_net_io_init (efd epoll_errno : Z) (create : Z * pthread_t)
  : Z * option dnet_net_io * list nio_call :=
  if efd <? 0 then (- epoll_errno, None, [])
  else
    let opened := [Nio_epoll_create efd; Nio_fcntl efd; Nio_fcntl efd] in
    if negb (fst create =? 0)
    then (- fst create, None, opened ++ [Nio_close efd])
    else (0, Some {| epoll_fd := efd; nio_tid := snd create |},
          opened ++ [Nio_thread_create (snd create)]).

Definition dnet_net_io_cleanup (nio : dnet_net_io) : list nio_call :=
  [Nio_thread_join (nio_tid nio); Nio_close (epoll_fd nio)].

(** The descriptors and the threads that a sequence of calls leaves
    open and running. *)
Fixpoint nio_held (cs : list nio_call) (fds : list Z) (ts : list pthread_t)
  : list Z * list pthread_t :=
  match cs with
  | [] => (fds, ts)
  | Nio_epoll_create fd :: cs' => nio_held cs' (fd :: fds) ts
  | Nio_thread_create t :: cs' => nio_held cs' fds (t :: ts)
  | Nio_close fd :: cs' => nio_held cs' (filter (fun x => x <> fd) fds) ts
  | Nio_thread_join t :: cs' => nio_held cs' fds (filter (fun x => x <> t) ts)
  | Nio_fcntl _ :: cs' => nio_held cs' fds ts
  end.

(** The address 192.0.2.7, port 1025, and the addresses of a node. *)
Definition plain_addr : dnet_addr :=
  {| addr := [2; 0; 4; 1; 192; 0; 2; 7; 0; 0; 0; 0; 0; 0; 0; 0;
              0; 0; 0; 0; 0; 0; 0; 0; 0; 0; 0; 0];
     addr_len := 16; family := 2 |}.

Definition node_addrs : list dnet_addr := [plain_addr; mapped_addr; mapped_addr].

(** * Properties *)

(** ** Shutdown of a pool *)

Section Stop.
Lemma mark_joined_joined w : joined (mark_joined w) <> 0.
Proof.
  unfold mark_joined. destruct (joined w =? 0) eqn:E; simpl; [lia|].
  apply Z.eqb_neq in E. exact E.
Qed.

Lemma mark_joined_idem w : mark_joined (mark_joined w) = mark_joined w.
Proof.
  unfold mark_joined at 1.
  pose proof (mark_joined_joined w) as H. apply Z.eqb_neq in H. now rewrite H.
Qed.

Lemma mark_joined_tid w : tid (mark_joined w) = tid w.
Proof. unfold mark_joined. now destruct (joined w =? 0). Qed.

Lemma joins_marked ws : joins (mark_joined <$> ws) = [].
Proof.
  unfold joins. induction ws as [|w ws IH]; [reflexivity|].
  rewrite fmap_cons, filter_cons_False; [exact IH|].
  apply mark_joined_joined.
Qed.

Lemma stop_loop_spec n : forall (i : nat) (l : list dnet_work_io),
  (i + n <= length l)%nat ->
  stop_loop n i l =
    Some (take i l ++ (mark_joined <$> take n (drop i l)) ++ drop (i + n) l,
          joins (take n (drop i l))).
Proof.
  induction n as [|n IH]; intros i l Hlen.
  - simpl. rewrite Nat.add_0_r, take_drop. reflexivity.
  - destruct (lookup_lt_is_Some_2 l i) as [wio Hwio]; [lia|].
    assert (Hstep : stop_loop (S n) i l =
        match stop_loop n (S i) (<[i := mark_joined wio]> l) with
        | None => None
        | Some (l2, cs) =>
            Some (l2, (if joined wio =? 0 then [Pthread_join (tid wio)] else []) ++ cs)
        end).
    { simpl. rewrite Hwio. unfold mark_joined.
      destruct (joined wio =? 0); [reflexivity|].
      now rewrite (list_insert_id l i wio Hwio). }
    rewrite Hstep, IH by (rewrite length_insert; lia). clear Hstep IH.
    rewrite (drop_S l wio i Hwio), firstn_cons, fmap_cons.
    rewrite drop_insert_lt by lia.
    rewrite (take_S_r (<[i:=mark_joined wio]> l) i (mark_joined wio))
      by (apply list_lookup_insert_eq; lia).
    rewrite take_insert_ge by lia.
    replace (S i + n)%nat with (i + S n)%nat by lia.
    rewrite <- app_assoc. simpl.
    rewrite (drop_insert_lt l (i + S n) i) by lia.
    do 2 f_equal.
    unfold joins. destruct (joined wio =? 0) eqn:E.
    + apply Z.eqb_eq in E. rewrite filter_cons_True by exact E. reflexivity.
    + apply Z.eqb_neq in E. rewrite filter_cons_False by exact E. reflexivity.
Qed.

Lemma dnet_work_pool_stop_spec place p :
  pool place = Some p -> pool_wf p ->
  dnet_work_pool_stop place = Some ({| pool := Some (stopped p) |}, joins (workers p)).
Proof.
  intros Hp Hwf. unfold dnet_work_pool_stop. rewrite Hp.
  rewrite stop_loop_spec by (unfold pool_wf in Hwf; lia).
  reflexivity.
Qed.

Lemma stopped_wf p : pool_wf p -> pool_wf (stopped p).
Proof.
  unfold pool_wf, stopped, workers. simpl. intros H.
  rewrite length_app, length_fmap, length_take, length_drop. lia.
Qed.

Lemma workers_stopped p : pool_wf p -> workers (stopped p) = mark_joined <$> workers p.
Proof.
  unfold pool_wf, stopped, workers. simpl. intros H.
  rewrite take_app_length'; [reflexivity|].
  rewrite length_fmap, length_take. lia.
Qed.

Lemma stopped_idem p : pool_wf p -> stopped (stopped p) = stopped p.
Proof.
  intros H. unfold stopped at 1. rewrite workers_stopped by exact H.
  unfold stopped, workers. simpl.
  rewrite <- list_fmap_compose.
  rewrite drop_app_length'
    by (rewrite length_fmap, length_take; unfold pool_wf in H; lia).
  f_equal. f_equal. apply list_fmap_ext. intros _ w _. apply mark_joined_idem.
Qed.

Lemma stop_times_stopped k : forall p,
  pool_wf p ->
  stop_times k {| pool := Some (stopped p) |} = Some ({| pool := Some (stopped p) |}, []).
Proof.
  induction k as [|k IH]; intros p Hwf; [reflexivity|].
  simpl stop_times.
  rewrite (dnet_work_pool_stop_spec _ (stopped p)) by (auto using stopped_wf).
  rewrite stopped_idem, IH by exact Hwf.
  rewrite workers_stopped, joins_marked by exact Hwf. reflexivity.
Qed.

Lemma count_joins_NoDup ws w :
  NoDup (tid <$> ws) -> w ∈ ws ->
  length (filter (fun c => c = Pthread_join (tid w)) (joins ws))
  = if decide (joined w = 0) then 1%nat else 0%nat.
Proof.
  induction ws as [|x ws IH]; intros Hnd Hin.
  - inversion Hin.
  - rewrite fmap_cons in Hnd. apply NoDup_cons in Hnd as [Hx Hnd].
    assert (Hnot : forall v, tid v = tid x -> v ∈ ws -> False).
    { intros v Hv Hvin. apply Hx. rewrite <- Hv.
      apply list_elem_of_fmap. eauto. }
    assert (Hrest : forall v, tid v = tid x ->
              length (filter (fun c => c = Pthread_join (tid v)) (joins ws)) = 0%nat).
    { intros v Hv.
      destruct (filter (fun c => c = Pthread_join (tid v)) (joins ws))
        as [|c cs] eqn:E; [reflexivity|exfalso].
      assert (Hc : c ∈ filter (fun c => c = Pthread_join (tid v)) (joins ws))
        by (rewrite E; left).
      apply list_elem_of_filter in Hc as [-> Hc].
      unfold joins in Hc. apply list_elem_of_fmap in Hc as (u & Hu & Huin).
      apply list_elem_of_filter in Huin as [_ Huin].
      injection Hu as Hu. apply (Hnot u); congruence. }
    apply elem_of_cons in Hin as [-> | Hin].
    + unfold joins. destruct (decide (joined x = 0)) as [Hj|Hj].
      * rewrite (filter_cons_True not_joined) by exact Hj.
        rewrite fmap_cons, filter_cons_True by reflexivity.
        simpl. f_equal. apply (Hrest x eq_refl).
      * rewrite (filter_cons_False not_joined) by exact Hj.
        apply (Hrest x eq_refl).
    + assert (Hne : tid w <> tid x) by (intros E; apply (Hnot w E Hin)).
      rewrite <- (IH Hnd Hin). unfold joins.
      destruct (decide (joined x = 0)) as [Hj|Hj].
      * rewrite (filter_cons_True not_joined) by exact Hj.
        rewrite fmap_cons, filter_cons_False by congruence. reflexivity.
      * rewrite (filter_cons_False not_joined) by exact Hj. reflexivity.
Qed.
End Stop.

(** C9.  Shutdown is idempotent.  On a place that holds a pool with
    its [num] workers allocated, any number [k >= 1] of invocations of
    [dnet_work_pool_stop] in a row succeeds and makes, all together,
    the calls of [pthread_join] that the first one makes: one for each
    worker whose [joined] flag was clear, in the order of the workers.
    After it every worker has its flag set, and the place is the same
    however many invocations follow.  With distinct thread ids, a
    worker that was not joined is joined exactly once, and one that
    was joined is not joined again. *)
Theorem dnet_work_pool_stop_idempotent (place : dnet_work_pool_place)
    (p : dnet_work_pool) (k : nat) :
  pool place = Some p ->
  pool_wf p ->
  (1 <= k)%nat ->
  stop_times k place = Some ({| pool := Some (stopped p) |}, joins (workers p))
  /\ Forall (fun w => joined w <> 0) (workers (stopped p))
  /\ (NoDup (tid <$> workers p) ->
      forall w, w ∈ workers p ->
        length (filter (fun c => c = Pthread_join (tid w)) (joins (workers p)))
        = if decide (joined w = 0) then 1%nat else 0%nat).
Proof.
  intros Hp Hwf Hk. split; [|split].
  - destruct k as [|k]; [lia|]. simpl stop_times.
    rewrite (dnet_work_pool_stop_spec place p Hp Hwf).
    rewrite stop_times_stopped by exact Hwf.
    now rewrite app_nil_r.
  - rewrite workers_stopped by exact Hwf.
    apply Forall_fmap, Forall_forall. intros w _. apply mark_joined_joined.
  - intros Hnd w Hw. now apply count_joins_NoDup.
Qed.

Lemma dnet_work_pool_stop_idempotent_witness :
  stop_times 3 {| pool := Some sample_pool |}
  = Some ({| pool := Some (stopped sample_pool) |}, [Pthread_join 11; Pthread_join 13]).
Proof.
  apply (dnet_work_pool_stop_idempotent {| pool := Some sample_pool |} sample_pool 3).
  - reflexivity.
  - unfold pool_wf. simpl. lia.
  - lia.
Defined.

(** ** Growth of a pool *)

Section Grow.
Variable create : Z -> Z * pthread_t.

(** The workers of a run of the creation loop without error. *)
Lemma grow_loop_ok n : forall i acc,
  (forall j, i <= j < i + Z.of_nat n -> fst (create j) = 0) ->
  grow_loop create n i acc
  = (acc ++ ((fun j => new_work_io j (snd (create j))) <$> seqZ i (Z.of_nat n)), 0).
Proof.
  induction n as [|n IH]; intros i acc Hok.
  - simpl. now rewrite app_nil_r.
  - simpl grow_loop. pose proof (Hok i ltac:(lia)) as Hi.
    destruct (create i) as [err t] eqn:E. simpl in Hi. subst err.
    rewrite Z.eqb_refl.
    rewrite IH by (intros j Hj; apply Hok; lia).
    rewrite (seqZ_cons i (Z.of_nat (S n))) by lia.
    rewrite fmap_cons, E. simpl snd.
    rewrite <- app_assoc. simpl app.
    now replace (Z.pred (Z.of_nat (S n))) with (Z.of_nat n) by lia.
Qed.

(** A successful [dnet_work_pool_grow] leaves [n] workers, all new,
    whatever the pool held before. *)
Lemma dnet_work_pool_grow_ok p n :
  0 <= n ->
  (forall j, 0 <= j < n -> fst (create j) = 0) ->
  let '(err, p', _) := dnet_work_pool_grow true create p n in
  err = 0 /\ num p' = n /\
  wio_list p' = (fun j => new_work_io j (snd (create j))) <$> seqZ 0 n.
Proof.
  intros Hn Hok. unfold dnet_work_pool_grow. simpl negb. cbv iota.
  rewrite grow_loop_ok by (intros j Hj; apply Hok; lia).
  rewrite Z2Nat.id by exact Hn. simpl. auto.
Qed.

(** On a pool without workers, which is what [dnet_work_pool_alloc]
    passes, the count after a successful growth by [n] is [0 + n]. *)
Lemma dnet_work_pool_grow_fresh p n :
  num p = 0 -> 0 <= n ->
  (forall j, 0 <= j < n -> fst (create j) = 0) ->
  let '(err, p', _) := dnet_work_pool_grow true create p n in
  err = 0 /\ num p' = num p + n /\ Z.of_nat (length (wio_list p')) = num p'.
Proof.
  intros Hp Hn Hok.
  pose proof (dnet_work_pool_grow_ok p n Hn Hok) as H.
  destruct (dnet_work_pool_grow true create p n) as [[err p'] cs].
  destruct H as (He & Hnum & Hl). rewrite Hl, Hnum, Hp, length_fmap, length_seqZ.
  repeat split; [exact He | lia ..].
Qed.
End Grow.


(** ** Admission *)

Section Admission.
Lemma wrap64_add_l a b : wrap64 (wrap64 a + b) = wrap64 (a + b).
Proof. unfold wrap64. apply Zplus_mod_idemp_l. Qed.

Lemma wrap64_small a : 0 <= a < 2 ^ 64 -> wrap64 a = a.
Proof. intros H. unfold wrap64. now apply Z.mod_small. Qed.

(** The counters after a visit of [places], up to the wrap-around of
    the additions. *)
Lemma visit_places places : forall q t,
  foldl visit_place (wrap64 q, wrap64 t) places
  = (wrap64 (q + sum_Z (place_queued <$> places)),
     wrap64 (t + sum_Z (place_threads <$> places))).
Proof.
  induction places as [|place places IH]; intros q t.
  - simpl. now rewrite !Z.add_0_r.
  - simpl foldl. unfold visit_place at 2, dnet_check_work_pool_place.
    rewrite !fmap_cons. unfold place_queued at 1, place_threads at 1.
    destruct (pool place) as [p|]; simpl fst; simpl snd.
    + unfold dnet_get_pool_queue_size. rewrite !wrap64_add_l, IH.
      simpl sum_Z. now rewrite !Z.add_assoc.
    + rewrite IH. simpl sum_Z. reflexivity.
Qed.

Lemma dnet_io_pools_check_visit pools : forall c,
  dnet_io_pools_check pools c = foldl visit_place c (pools ≫= io_pool_places).
Proof.
  unfold dnet_io_pools_check.
  induction pools as [|p pools IH]; intros c; [reflexivity|].
  simpl foldl. rewrite IH. reflexivity.
Qed.

(** What [dnet_check_io] compares, for any node. *)
Lemma dnet_check_io_counters io :
  dnet_check_io io
  = if wrap64 (aggregate_queued io) <=? wrap64 (wrap64 (aggregate_threads io) * 1000)
    then 1 else 0.
Proof.
  unfold dnet_check_io, aggregate_queued, aggregate_threads, all_places.
  set (c := match pools_manager io with
            | Some pools => dnet_io_pools_check pools _
            | None => _
            end).
  assert (Hc : c = foldl visit_place (wrap64 0, wrap64 0)
                 (io_pool_places (io_pool io) ++
                  match pools_manager io with
                  | Some pools => pools ≫= io_pool_places
                  | None => []
                  end)).
  { subst c. rewrite foldl_app.
    destruct (pools_manager io) as [pools|].
    - now rewrite dnet_io_pools_check_visit.
    - reflexivity. }
  rewrite Hc, visit_places. simpl fst. simpl snd. now rewrite !Z.add_0_l.
Qed.
End Admission.

(** C1.  Admission is granted exactly when the queued requests of all
    the places together are at most 1000 times their worker threads
    together.  The two aggregates are the plain sums over every place
    of the node and of its backends; the code keeps them in 64-bit
    unsigned counters, so the sums are taken to fit: the aggregate
    queue count, and 1000 times the aggregate thread count, lie below
    2^64. *)
Theorem dnet_check_io_admission (io : dnet_io) :
  0 <= aggregate_queued io < 2 ^ 64 ->
  0 <= aggregate_threads io * 1000 < 2 ^ 64 ->
  (dnet_check_io io = 1 <-> aggregate_queued io <= aggregate_threads io * 1000)
  /\ (dnet_check_io io = 0 <-> ~ aggregate_queued io <= aggregate_threads io * 1000).
Proof.
  intros Hq Ht. rewrite dnet_check_io_counters.
  rewrite (wrap64_small (aggregate_queued io)) by exact Hq.
  rewrite (wrap64_small (aggregate_threads io)) by lia.
  rewrite (wrap64_small (aggregate_threads io * 1000)) by exact Ht.
  destruct (Z.leb_spec (aggregate_queued io) (aggregate_threads io * 1000)) as [H|H].
  - split; split; intros; try lia; try reflexivity; discriminate.
  - split; split; intros; try lia; try reflexivity; discriminate.
Qed.

Lemma dnet_check_io_admission_witness :
  (dnet_check_io sample_io = 1 <-> aggregate_queued sample_io <= aggregate_threads sample_io * 1000)
  /\ (dnet_check_io sample_io = 0 <-> ~ aggregate_queued sample_io <= aggregate_threads sample_io * 1000).
Proof.
  apply (dnet_check_io_admission sample_io); vm_compute; split; congruence.
Defined.

(** ** Dispatcher *)

Section DispatcherFacts.
Variable K : packet_h.
Variable dnet_state_search_backend : dnet_id -> Z.
Variable n2_io_req_get_cmd : dnet_io_req -> dnet_cmd.
Variable n2_io_req_set_request_backend_id : dnet_io_req -> Z -> Z * dnet_io_req.
Variable now : Z.

Lemma dnet_cmd_needs_backend_values command :
  dnet_cmd_needs_backend K command = 0 \/ dnet_cmd_needs_backend K command = 1.
Proof. unfold dnet_cmd_needs_backend. destruct (_ || _); auto. Qed.

(** The [switch] answers 0 on the ten backendless opcodes and on no
    other. *)
Lemma dnet_cmd_needs_backend_spec command :
  dnet_cmd_needs_backend K command = 0 <-> backendless K command.
Proof.
  unfold dnet_cmd_needs_backend, backendless.
  rewrite !elem_of_cons, elem_of_nil.
  destruct (_ || _) eqn:E.
  - split; [intros _|reflexivity].
    repeat (apply orb_prop in E as [E|E]);
      apply Z.eqb_eq in E; tauto.
  - split; [discriminate|]. intros H. exfalso.
    repeat (apply orb_false_elim in E as [E ?]).
    repeat match goal with H : (_ =? _) = false |- _ => apply Z.eqb_neq in H end.
    intuition congruence.
Qed.

(** The backend id that [dnet_schedule_io] resolves does not depend on
    what follows the resolution. *)
Lemma sched_backend_id_eq st r :
  sched_backend_id
    (dnet_schedule_io K dnet_state_search_backend n2_io_req_get_cmd
       n2_io_req_set_request_backend_id now st r)
  = let c := dnet_io_req_get_cmd n2_io_req_get_cmd r in
    if flag_set (flags c) (DNET_FLAGS_DIRECT_BACKEND K) then backend_id c
    else if negb (dnet_cmd_needs_backend K (cmd c) =? 0)
         then dnet_state_search_backend (id c)
         else -1.
Proof.
  unfold dnet_schedule_io. cbv zeta.
  destruct (negb (flag_set _ (DNET_FLAGS_REPLY K))); [|reflexivity].
  destruct (dnet_io_req_set_request_backend_id _ _ _) as [err r1].
  destruct (negb (err =? 0)); reflexivity.
Qed.
End DispatcherFacts.

(** C2.  The backend id the dispatcher resolves for a request with
    command header [c]: the [backend_id] field of [c] if [c] carries
    DIRECT_BACKEND; else -1 if the opcode is one of the ten backendless
    commands; else the result of the routing lookup on the key of
    [c]. *)
Theorem dnet_schedule_io_backend_id (K : packet_h) (search : dnet_id -> Z)
    (n2_get : dnet_io_req -> dnet_cmd) (n2_set : dnet_io_req -> Z -> Z * dnet_io_req)
    (now : Z) (st : dnet_net_state) (r : dnet_io_req) :
  let c := dnet_io_req_get_cmd n2_get r in
  sched_backend_id (dnet_schedule_io K search n2_get n2_set now st r)
  = if flag_set (flags c) (DNET_FLAGS_DIRECT_BACKEND K) then backend_id c
    else if decide (backendless K (cmd c)) then -1
    else search (id c).
Proof.
  intros c. rewrite sched_backend_id_eq. cbv zeta. fold c.
  destruct (flag_set (flags c) (DNET_FLAGS_DIRECT_BACKEND K)); [reflexivity|].
  destruct (decide (backendless K (cmd c))) as [Hb|Hb].
  - apply dnet_cmd_needs_backend_spec in Hb. now rewrite Hb.
  - destruct (dnet_cmd_needs_backend_values K (cmd c)) as [H|H].
    + now apply dnet_cmd_needs_backend_spec in H.
    + now rewrite H.
Qed.

(** C4.  The demultiplexing of a reply, as the code has it.  For a
    request whose header carries REPLY: if the id index of the
    connection holds the transaction, the transaction stays in the id
    index under its id with its timestamp refreshed, every other entry
    of the id index is as before, and the id leaves the timer index; if
    it holds none, the connection is unchanged.  In both cases the
    request is handed to the work pool of its place. *)
Theorem dnet_schedule_io_reply_demux (K : packet_h) (search : dnet_id -> Z)
    (n2_get : dnet_io_req -> dnet_cmd) (n2_set : dnet_io_req -> Z -> Z * dnet_io_req)
    (now : Z) (st : dnet_net_state) (r : dnet_io_req) :
  let c := dnet_io_req_get_cmd n2_get r in
  let res := dnet_schedule_io K search n2_get n2_set now st r in
  flag_set (flags c) (DNET_FLAGS_REPLY K) = true ->
  sched_pushed res = Some r
  /\ match trans_root st !! trans c with
     | Some t =>
         trans_root (sched_state res) !! trans c
           = Some {| t_trans := t_trans t; t_time := now |}
         /\ dom (trans_root (sched_state res)) = dom (trans_root st)
         /\ (forall i, i <> trans c ->
               trans_root (sched_state res) !! i = trans_root st !! i)
         /\ timer_root (sched_state res) = timer_root st ∖ {[ trans c ]}
         /\ (trans c ∉ timer_root (sched_state res))
     | None => sched_state res = st
     end.
Proof.
  intros c res Hreply.
  assert (Hres : res = {| sched_backend_id := sched_backend_id res;
                          sched_nonblocking := sched_nonblocking res;
                          sched_state := dnet_update_trans_timestamp_network
                                           K n2_get now st r;
                          sched_pushed := Some r |}).
  { subst res. unfold dnet_schedule_io. cbv zeta. fold c. rewrite Hreply. reflexivity. }
  rewrite Hres. simpl sched_pushed. simpl sched_state. split; [reflexivity|].
  unfold dnet_update_trans_timestamp_network. cbv zeta. fold c. rewrite Hreply.
  unfold dnet_trans_search.
  destruct (trans_root st !! trans c) as [t|] eqn:Ht; [|reflexivity].
  simpl. unfold dnet_trans_update_timestamp, dnet_trans_remove_timer_nolock.
  repeat split.
  - apply lookup_insert_eq.
  - apply dom_insert_lookup_L. now exists t.
  - intros i Hi. now apply lookup_insert_ne.
  - intros [_ Hin]%elem_of_difference. apply Hin. now apply elem_of_singleton.
Qed.

Lemma dnet_schedule_io_reply_demux_witness :
  let res := dnet_schedule_io sample_packet_h (fun _ => 0) no_n2_get_cmd
               no_n2_set_backend_id 200 sample_state reply_7 in
  sched_pushed res = Some reply_7
  /\ trans_root (sched_state res) !! 7 = Some {| t_trans := 7; t_time := 200 |}
  /\ (7 ∉ timer_root (sched_state res)).
Proof.
  pose proof (dnet_schedule_io_reply_demux sample_packet_h (fun _ => 0) no_n2_get_cmd
                no_n2_set_backend_id 200 sample_state reply_7 eq_refl) as H.
  cbv zeta in H. destruct H as [Hp H].
  change (trans (dnet_io_req_get_cmd no_n2_get_cmd reply_7)) with 7 in H.
  change (trans_root sample_state !! 7)
    with (Some {| t_trans := 7; t_time := 100 |}) in H.
  cbv zeta. destruct H as (H1 & _ & _ & _ & H5). auto.
Defined.

(** A stray reply is dispatched.  The reply of transaction 42 arrives
    on a connection whose id index holds no transaction 42: the
    dispatcher leaves the connection as it is and hands the reply to
    the work pool of the place it resolved. *)
Lemma dnet_schedule_io_stray_reply_pushed :
  let res := dnet_schedule_io sample_packet_h (fun _ => 0) no_n2_get_cmd
               no_n2_set_backend_id 200 sample_state stray_reply in
  flag_set (flags (header stray_reply)) (DNET_FLAGS_REPLY sample_packet_h) = true
  /\ trans_root sample_state !! trans (header stray_reply) = None
  /\ sched_pushed res = Some stray_reply
  /\ sched_state res = sample_state.
Proof. cbv zeta. repeat split; reflexivity. Qed.

(** ** Send loop *)

Section SendFacts.
Variable LOW : Z.
Variable send_limit : Z.
Variable send_request : nat -> dnet_io_req -> Z.

(** One iteration on a queue that is not empty. *)
Lemma send_loop_cons r rest k counter q :
  send_loop LOW send_limit send_request (r :: rest) k counter q
  = if send_request k r =? 0 then
      let here := [Frame_sent r]
                  ++ (if (0 <? q) && (q - 1 =? LOW) then [Send_wait_broadcast] else [])
                  ++ [Io_req_free r] in
      let counter1 := if send_limit =? 0 then counter else wrap32 (counter + 1) in
      if negb (send_limit =? 0) && (send_limit <=? counter1)
      then (0, rest, dec_count q, here)
      else
        let '(e, l', q', cs) := send_loop LOW send_limit send_request rest (S k) counter1 (dec_count q) in
        (e, l', q', here ++ cs)
    else (send_request k r, r :: rest, q, []).
Proof.
  simpl send_loop. unfold atomic_dec, dec_count.
  destruct (send_request k r =? 0); [|reflexivity].
  destruct (0 <? q); [destruct (q - 1 =? LOW)|]; reflexivity.
Qed.

Lemma frames_sent_here r (b : bool) cs :
  frames_sent (([Frame_sent r] ++ (if b then [Send_wait_broadcast] else [])
                ++ [Io_req_free r]) ++ cs)
  = r :: frames_sent cs.
Proof. destruct b; reflexivity. Qed.

Lemma frames_sent_app cs1 cs2 :
  frames_sent (cs1 ++ cs2) = frames_sent cs1 ++ frames_sent cs2.
Proof. apply omap_app. Qed.

Lemma frames_sent_watermark_trace rs : forall q tail,
  frames_sent tail = [] ->
  frames_sent (watermark_trace LOW rs q ++ tail) = rs.
Proof.
  induction rs as [|r rs IH]; intros q tail Htail; [exact Htail|].
  simpl watermark_trace. unfold frames_sent in *.
  destruct ((0 <? q) && (q - 1 =? LOW)); simpl; f_equal; now apply IH.
Qed.

(** The shape of a run of the loop: it sends the first [n] frames of
    the queue and leaves the rest. *)
Lemma send_loop_shape l : forall k counter q,
  exists (n : nat) (tail : list send_call),
    (n <= length l)%nat
    /\ send_loop LOW send_limit send_request l k counter q
       = (fst (fst (fst (send_loop LOW send_limit send_request l k counter q))), drop n l,
          Nat.iter n dec_count q, watermark_trace LOW (take n l) q ++ tail)
    /\ (tail = [] \/ tail = [Unschedule_send])
    /\ (0 < send_limit < 2 ^ 32 -> 0 <= counter < send_limit ->
        Z.of_nat n <= send_limit - counter).
Proof.
  induction l as [|r rest IH]; intros k counter q.
  - exists 0%nat, [Unschedule_send]. simpl. repeat split; auto; lia.
  - rewrite send_loop_cons. cbv zeta.
    destruct (send_request k r =? 0) eqn:Hsend.
    + set (counter1 := if send_limit =? 0 then counter else wrap32 (counter + 1)).
      assert (Hc1 : 0 < send_limit < 2 ^ 32 -> 0 <= counter < send_limit ->
                    counter1 = counter + 1).
      { intros Hl Hc. subst counter1.
        destruct (Z.eqb_spec send_limit 0); [lia|].
        unfold wrap32. apply Z.mod_small. lia. }
      destruct (negb (send_limit =? 0) && (send_limit <=? counter1)) eqn:Hlim.
      * exists 1%nat, []. simpl. rewrite drop_0, app_nil_r.
        repeat split; auto; lia.
      * destruct (IH (S k) counter1 (dec_count q)) as (n & tail & Hn & Heq & Htail & Hbound).
        exists (S n), tail. rewrite Heq, Nat.iter_succ_r. simpl.
        rewrite <- !app_assoc.
        repeat split; auto; [lia|].
        intros Hl Hc. specialize (Hc1 Hl Hc).
        apply andb_false_iff in Hlim as [Hlim|Hlim].
        { apply negb_false_iff, Z.eqb_eq in Hlim. lia. }
        apply Z.leb_gt in Hlim. specialize (Hbound Hl ltac:(lia)). lia.
    + exists 0%nat, []. simpl. repeat split; auto; lia.
Qed.

(** A frame whose write fails is not dequeued: the loop ends with the
    error of the write, and the queue it leaves starts at that
    frame. *)
Lemma send_loop_failure l : forall k counter q (n : nat) r e,
  l !! n = Some r ->
  (forall (i : nat) r', (i < n)%nat -> l !! i = Some r' -> send_request (k + i) r' = 0) ->
  send_request (k + n) r = e -> e <> 0 ->
  0 < send_limit < 2 ^ 32 -> 0 <= counter -> counter + Z.of_nat n < send_limit ->
  exists q' cs, send_loop LOW send_limit send_request l k counter q = (e, drop n l, q', cs)
                /\ frames_sent cs = take n l.
Proof.
  induction l as [|x rest IH]; intros k counter q n r e Hn Hok He Hne Hl Hc Hlim.
  - inversion Hn.
  - rewrite send_loop_cons. cbv zeta. destruct n as [|n].
    + simpl in Hn. injection Hn as ->. rewrite Nat.add_0_r in He.
      rewrite He. apply Z.eqb_neq in Hne. rewrite Hne.
      exists q, []. split; reflexivity.
    + simpl in Hn.
      pose proof (Hok 0%nat x ltac:(lia) eq_refl) as Hx. rewrite Nat.add_0_r in Hx.
      rewrite Hx. simpl (0 =? 0).
      destruct (Z.eqb_spec send_limit 0) as [|_]; [lia|].
      assert (Hw : wrap32 (counter + 1) = counter + 1)
        by (unfold wrap32; apply Z.mod_small; lia).
      rewrite Hw. simpl negb. cbv iota.
      destruct (Z.leb_spec send_limit (counter + 1)) as [|_]; [lia|]. simpl andb. cbv iota.
      destruct (IH (S k) (counter + 1) (dec_count q) n r e Hn) as (q' & cs & Heq & Hcs);
        try lia; try assumption.
      * intros i r' Hi Hr'. replace (S k + i)%nat with (k + S i)%nat by lia.
        apply Hok; [lia|exact Hr'].
      * now replace (S k + n)%nat with (k + S n)%nat by lia.
      * rewrite Heq. eexists _, _. split; [reflexivity|].
        now rewrite frames_sent_here, Hcs.
Qed.

(** When the count comes down from above the low watermark to the
    watermark or below, one of the decrements broadcasts. *)
Lemma watermark_trace_reached rs : forall q,
  0 <= LOW -> LOW < q ->
  Nat.iter (length rs) dec_count q <= LOW ->
  Send_wait_broadcast ∈ watermark_trace LOW rs q.
Proof.
  induction rs as [|r rs IH]; intros q H0 Hq Hend.
  - simpl in Hend. lia.
  - simpl watermark_trace. simpl length in Hend.
    rewrite Nat.iter_succ_r in Hend.
    assert (Hd : dec_count q = q - 1).
    { unfold dec_count. destruct (Z.ltb_spec 0 q); lia. }
    destruct (Z.ltb_spec 0 q) as [_|]; [|lia].
    destruct (Z.eqb_spec (q - 1) LOW) as [E|E]; simpl.
    + right. left.
    + right. right. apply IH; [lia| |exact Hend]. rewrite Hd. lia.
Qed.
End SendFacts.

Section SendSingle.
Variable LOW : Z.
Variable send_limit : Z.
Variable send_request : nat -> dnet_io_req -> Z.

(** One invocation sends the first [n] frames of the queue, with the
    calls of [watermark_trace] for them, and leaves the others. *)
Lemma dnet_process_send_single_shape st :
  exists (n : nat) (tail : list send_call),
    (n <= length (send_list st))%nat
    /\ dnet_process_send_single LOW send_limit send_request st
       = (fst (fst (dnet_process_send_single LOW send_limit send_request st)),
          set_send st (drop n (send_list st)) (Nat.iter n dec_count (send_queue_size st)),
          watermark_trace LOW (take n (send_list st)) (send_queue_size st) ++ tail)
    /\ frames_sent tail = []
    /\ (0 < send_limit < 2 ^ 32 -> Z.of_nat n <= send_limit).
Proof.
  unfold dnet_process_send_single.
  destruct (send_loop_shape LOW send_limit send_request (send_list st) 0 0
              (send_queue_size st)) as (n & tail & Hn & Heq & Htail & Hbound).
  rewrite Heq.
  set (err := fst (fst (fst (send_loop LOW send_limit send_request (send_list st) 0 0
                               (send_queue_size st))))).
  exists n, (tail ++ if (err <? 0) && (0 <? Nat.iter n dec_count (send_queue_size st))
                     then [Send_wait_broadcast] else []).
  split; [exact Hn|]. split; [now rewrite app_assoc|]. split.
  - destruct ((err <? 0) && _); destruct Htail as [-> | ->]; reflexivity.
  - intros Hl. specialize (Hbound Hl ltac:(lia)). lia.
Qed.
End SendSingle.

(** C6.  The low watermark, as the code has it.  In one invocation of
    [dnet_process_send_single] the frames sent are a prefix of the send
    queue; after each of them the send condition is broadcast exactly
    when the count of queued frames was positive and the decrement
    leaves it equal to DNET_SEND_WATERMARK_LOW ([watermark_trace]);
    what follows the last frame sent holds no further frame.  So a
    count that comes down, within the invocation, from above the
    watermark to the watermark or below has the condition
    broadcast. *)
Theorem dnet_process_send_single_low_watermark (LOW send_limit : Z)
    (send_request : nat -> dnet_io_req -> Z) (st : dnet_net_state) :
  exists tail,
    let '(_, st', cs) := dnet_process_send_single LOW send_limit send_request st in
    cs = watermark_trace LOW (frames_sent cs) (send_queue_size st) ++ tail
    /\ frames_sent tail = []
    /\ send_list st = frames_sent cs ++ send_list st'
    /\ send_queue_size st'
       = Nat.iter (length (frames_sent cs)) dec_count (send_queue_size st)
    /\ (0 <= LOW -> LOW < send_queue_size st -> send_queue_size st' <= LOW ->
        Send_wait_broadcast ∈ cs).
Proof.
  destruct (dnet_process_send_single_shape LOW send_limit send_request st)
    as (n & tail & Hn & Heq & Htail & _).
  exists tail. rewrite Heq. clear Heq.
  rewrite frames_sent_watermark_trace by exact Htail.
  simpl send_list. simpl send_queue_size.
  rewrite take_drop, length_take_le by exact Hn.
  repeat split; auto.
  intros H0 Hq Hend. apply elem_of_app. left.
  apply watermark_trace_reached; [exact H0|exact Hq|].
  now rewrite length_take_le by exact Hn.
Qed.

Lemma dnet_process_send_single_low_watermark_witness :
  Send_wait_broadcast
  ∈ snd (dnet_process_send_single 3 0 send_second_blocks sending_state).
Proof.
  destruct (dnet_process_send_single_low_watermark 3 0 send_second_blocks sending_state)
    as (tail & H).
  change (dnet_process_send_single 3 0 send_second_blocks sending_state)
    with (- Errno.EAGAIN, set_send sending_state [frame_2] 3,
          [Frame_sent frame_1; Send_wait_broadcast; Io_req_free frame_1;
           Send_wait_broadcast]) in *.
  destruct H as (_ & _ & _ & _ & H). apply H; simpl; lia.
Defined.

(** The count crosses below the watermark in silence.  With a low
    watermark of 4 and a send limit of 1, on a connection whose count
    of queued frames is 4, one invocation writes the first frame: the
    count goes from 4 to 3, and the send condition is not broadcast. *)
Lemma dnet_process_send_single_crossing_silent :
  dnet_process_send_single 4 1 send_ok sending_state
  = (0, set_send sending_state [frame_2] 3, [Frame_sent frame_1; Io_req_free frame_1])
  /\ crosses_below 4 (send_queue_size sending_state) 3.
Proof. split; [reflexivity|]. unfold crosses_below. simpl. lia. Qed.

(** The same for any positive low watermark: with a send limit of 1, a
    count equal to the watermark goes below it without a broadcast. *)
Lemma dnet_process_send_single_crossing_silent_any (LOW : Z) (st : dnet_net_state)
    (r : dnet_io_req) (rest : list dnet_io_req) :
  0 < LOW ->
  send_list st = r :: rest ->
  send_queue_size st = LOW ->
  dnet_process_send_single LOW 1 send_ok st
  = (0, set_send st rest (LOW - 1), [Frame_sent r; Io_req_free r]).
Proof.
  intros HL Hl Hq. unfold dnet_process_send_single.
  rewrite Hl, Hq, send_loop_cons. unfold send_ok, dec_count. simpl.
  destruct (Z.ltb_spec 0 LOW) as [_|]; [|lia].
  destruct (Z.eqb_spec (LOW - 1) LOW) as [|_]; [lia|].
  reflexivity.
Qed.

(** C7.  The fairness cap.  With a send limit between 1 and 2^32 - 1,
    one invocation of [dnet_process_send_single] writes, dequeues and
    frees at most [send_limit] frames, a prefix of the send queue, and
    leaves the others queued in their order.  When the write of a frame
    fails with EAGAIN, all the frames before it having been written and
    the limit not being reached, the invocation returns -EAGAIN and the
    queue it leaves starts at that frame. *)
Theorem dnet_process_send_single_send_limit (LOW send_limit : Z)
    (send_request : nat -> dnet_io_req -> Z) (st : dnet_net_state) :
  0 < send_limit < 2 ^ 32 ->
  let '(err, st', cs) := dnet_process_send_single LOW send_limit send_request st in
  Z.of_nat (length (frames_sent cs)) <= send_limit
  /\ send_list st = frames_sent cs ++ send_list st'
  /\ (forall (n : nat) r,
        send_list st !! n = Some r ->
        (forall (i : nat) r', (i < n)%nat -> send_list st !! i = Some r' ->
                              send_request i r' = 0) ->
        send_request n r = - Errno.EAGAIN ->
        Z.of_nat n < send_limit ->
        err = - Errno.EAGAIN
        /\ frames_sent cs = take n (send_list st)
        /\ send_list st' = drop n (send_list st)
        /\ head (send_list st') = Some r).
Proof.
  intros Hl.
  destruct (dnet_process_send_single_shape LOW send_limit send_request st)
    as (m & tail & Hm & Heq & Htail & Hbound).
  destruct (dnet_process_send_single LOW send_limit send_request st)
    as [[err st'] cs] eqn:Hrun.
  simpl fst in Heq. injection Heq as Hst' Hcs.
  assert (Hsent : frames_sent cs = take m (send_list st))
    by (rewrite Hcs; now apply frames_sent_watermark_trace).
  rewrite Hsent, Hst'. simpl send_list.
  rewrite take_drop, length_take_le by exact Hm.
  split; [auto|]. split; [reflexivity|].
  intros n r Hn Hok Hfail Hlim.
  destruct (send_loop_failure LOW send_limit send_request (send_list st) 0 0
              (send_queue_size st) n r (- Errno.EAGAIN) Hn)
    as (q' & cs' & Hloop & Hcs'); auto; try lia; try discriminate.
  unfold dnet_process_send_single in Hrun. rewrite Hloop in Hrun.
  injection Hrun as Herr Hst Hcs2.
  assert (Hmn : take m (send_list st) = take n (send_list st)).
  { rewrite <- Hsent, <- Hcs2, frames_sent_app, Hcs'.
    match goal with |- context [if ?b then _ else _] => destruct b end;
      apply app_nil_r. }
  assert (Hd : drop m (send_list st) = drop n (send_list st)).
  { rewrite Hst' in Hst. apply (f_equal send_list) in Hst. simpl in Hst. congruence. }
  rewrite Hmn, Hd. repeat split; auto.
  rewrite head_lookup, lookup_drop, Nat.add_0_r. exact Hn.
Qed.

Lemma dnet_process_send_single_send_limit_witness :
  let '(err, st', cs) := dnet_process_send_single 4 5 send_second_blocks sending_state in
  Z.of_nat (length (frames_sent cs)) <= 5
  /\ err = - Errno.EAGAIN
  /\ head (send_list st') = Some frame_2.
Proof.
  pose proof (dnet_process_send_single_send_limit 4 5 send_second_blocks sending_state
                ltac:(lia)) as H.
  change (dnet_process_send_single 4 5 send_second_blocks sending_state)
    with (- Errno.EAGAIN, set_send sending_state [frame_2] 3,
          [Frame_sent frame_1; Io_req_free frame_1; Send_wait_broadcast]) in *.
  destruct H as (Hle & _ & H). split; [exact Hle|].
  destruct (H 1%nat frame_2 eq_refl) as (He & _ & _ & Hh).
  - intros [|i] r' Hi Hr'; [reflexivity|lia].
  - reflexivity.
  - lia.
  - split; [exact He|exact Hh].
Defined.

(** ** Accepting a connection *)

(** C8.  Errors of [accept] that do not stop the acceptor.  When
    [accept] fails with ECONNABORTED, EMFILE, ENOBUFS or ENOMEM,
    [dnet_state_accept_process] logs one error and returns -EAGAIN;
    when it fails with EAGAIN or EWOULDBLOCK it returns that error,
    which is -EAGAIN, and logs nothing.  In neither case does it end
    the process, and the reactor, on this return of the handler of an
    accept event, resets nothing and goes on to the next event. *)
Theorem dnet_state_accept_process_recoverable (e : accept_env) :
  accept_cs e < 0 ->
  (accept_errno e ∈ [Errno.ECONNABORTED; Errno.EMFILE; Errno.ENOBUFS; Errno.ENOMEM] ->
   dnet_state_accept_process e = (Accept_return (- Errno.EAGAIN), [DNET_LOG_ERROR]))
  /\ (accept_errno e ∈ [Errno.EAGAIN; Errno.EWOULDBLOCK] ->
      dnet_state_accept_process e = (Accept_return (- accept_errno e), [])
      /\ - accept_errno e = - Errno.EAGAIN)
  /\ (accept_errno e ∈ [Errno.ECONNABORTED; Errno.EMFILE; Errno.ENOBUFS; Errno.ENOMEM;
                        Errno.EAGAIN; Errno.EWOULDBLOCK] ->
      forall (W : Type) (node_io : W -> dnet_io) (net_state : W -> conn -> dnet_net_state)
             (accept_handler : conn -> W -> accept_outcome * W)
             (recv_handler send_handler : conn -> W -> Z * W)
             (reset_state : conn -> Z -> W -> W)
             (ev : epoll_event) (w w1 : W) (tmp : Z),
        data_fd ev = accept_s (net_state w (data_st ev)) ->
        accept_handler (data_st ev) w = (fst (dnet_state_accept_process e), w1) ->
        process_event node_io net_state accept_handler recv_handler send_handler
          reset_state ev w tmp
        = (w1, tmp + 1, [Call_accept (data_st ev)], Loop_next)).
Proof.
  intros Hcs. apply Z.ltb_lt in Hcs.
  assert (H1 : accept_errno e ∈ [Errno.ECONNABORTED; Errno.EMFILE; Errno.ENOBUFS; Errno.ENOMEM] ->
               dnet_state_accept_process e
               = (Accept_return (- Errno.EAGAIN), [DNET_LOG_ERROR])).
  { intros Hin. unfold dnet_state_accept_process. rewrite Hcs.
    repeat (apply elem_of_cons in Hin as [-> | Hin]; [reflexivity|]).
    inversion Hin. }
  assert (H2 : accept_errno e ∈ [Errno.EAGAIN; Errno.EWOULDBLOCK] ->
               dnet_state_accept_process e = (Accept_return (- accept_errno e), [])
               /\ - accept_errno e = - Errno.EAGAIN).
  { intros Hin. unfold dnet_state_accept_process. rewrite Hcs.
    repeat (apply elem_of_cons in Hin as [-> | Hin]; [split; reflexivity|]).
    inversion Hin. }
  split; [exact H1|]. split; [exact H2|].
  intros Hin W node_io net_state accept_handler recv_handler send_handler reset_state
         ev w w1 tmp Hfd Hacc.
  assert (Hout : fst (dnet_state_accept_process e) = Accept_return (- Errno.EAGAIN)).
  { unfold dnet_state_accept_process. rewrite Hcs.
    repeat (apply elem_of_cons in Hin as [-> | Hin]; [reflexivity|]).
    inversion Hin. }
  unfold process_event. cbv zeta. apply Z.eqb_eq in Hfd. rewrite Hfd, Hacc, Hout.
  reflexivity.
Qed.

Lemma dnet_state_accept_process_recoverable_witness :
  dnet_state_accept_process accept_emfile
  = (Accept_return (- Errno.EAGAIN), [DNET_LOG_ERROR]).
Proof.
  apply (dnet_state_accept_process_recoverable accept_emfile).
  - reflexivity.
  - right. left.
Defined.

(** ** Shuffle *)

Section ShuffleFacts.
Context {A : Type}.
Variable RAND_MAX : Z.
Variable rand : Z -> Z.
Hypothesis RAND_MAX_nonneg : 0 <= RAND_MAX.
Hypothesis rand_range : forall i, 0 <= rand i <= RAND_MAX.

(** The index drawn in iteration [i] lies between [i] and the last
    index of the array. *)
Lemma shuffle_index_range size i :
  0 <= i -> i + 2 <= size ->
  i <= shuffle_index RAND_MAX rand size i < size.
Proof.
  intros Hi Hsize. unfold shuffle_index.
  set (m := size - i). assert (Hm : 0 < m) by (subst m; lia).
  pose proof (rand_range i) as Hr.
  rewrite (Z.quot_div_nonneg RAND_MAX m) by lia.
  assert (Hd : 0 < RAND_MAX / m + 1).
  { pose proof (Z.div_pos RAND_MAX m RAND_MAX_nonneg Hm). lia. }
  rewrite Z.quot_div_nonneg by lia.
  assert (Hlo : 0 <= rand i / (RAND_MAX / m + 1)) by (apply Z.div_pos; lia).
  assert (Hhi : rand i / (RAND_MAX / m + 1) < m).
  { apply Z.div_lt_upper_bound; [exact Hd|].
    pose proof (Z.mul_succ_div_gt RAND_MAX m Hm). lia. }
  subst m. lia.
Qed.

Lemma shuffle_loop_permutation n : forall i size (evs : list A),
  0 <= i -> i + Z.of_nat n = size - 1 -> size <= Z.of_nat (length evs) ->
  exists evs', shuffle_loop RAND_MAX rand n i size evs = Some evs'
               /\ evs' ≡ₚ evs
               /\ length evs' = length evs
               /\ drop (Z.to_nat size) evs' = drop (Z.to_nat size) evs.
Proof.
  induction n as [|n IH]; intros i size evs Hi Hn Hsize.
  - exists evs. simpl. auto.
  - simpl shuffle_loop.
    destruct (shuffle_index_range size i Hi ltac:(lia)) as [Hj1 Hj2].
    set (j := shuffle_index RAND_MAX rand size i) in *.
    unfold array_get.
    destruct (Z.ltb_spec j 0) as [|_]; [lia|].
    destruct (Z.ltb_spec i 0) as [|_]; [lia|].
    destruct (lookup_lt_is_Some_2 evs (Z.to_nat j)) as [ej Hej]; [lia|].
    destruct (lookup_lt_is_Some_2 evs (Z.to_nat i)) as [ei Hei]; [lia|].
    rewrite Hej, Hei.
    destruct (IH (i + 1) size (<[Z.to_nat i := ej]> (<[Z.to_nat j := ei]> evs)))
      as (evs' & Hrun & Hperm & Hlen & Hdrop); [lia|lia| |].
    { rewrite !length_insert. exact Hsize. }
    exists evs'. split; [exact Hrun|]. split; [|split].
    + rewrite Hperm. now apply Permutation_insert_swap.
    + now rewrite Hlen, !length_insert.
    + rewrite Hdrop, !drop_insert_lt by lia. reflexivity.
Qed.
End ShuffleFacts.

(** C10.  The shuffle is a permutation.  With [rand] returning values
    between 0 and RAND_MAX and [size] no more than the length of the
    array, [dnet_shuffle_epoll_events] ends without reading or writing
    outside the array, and the array after it holds the events it held
    before, each as many times as before; the entries from [size] on
    stay where they are, and a [size] below 1 leaves the whole array as
    it is. *)
Theorem dnet_shuffle_epoll_events_permutation {A : Type} (RAND_MAX : Z)
    (rand : Z -> Z) (evs : list A) (size : Z) :
  0 <= RAND_MAX ->
  (forall i, 0 <= rand i <= RAND_MAX) ->
  size <= Z.of_nat (length evs) ->
  exists evs', dnet_shuffle_epoll_events RAND_MAX rand evs size = Some evs'
               /\ evs' ≡ₚ evs
               /\ drop (Z.to_nat size) evs' = drop (Z.to_nat size) evs
               /\ (size < 1 -> evs' = evs).
Proof.
  intros HR Hrand Hsize. unfold dnet_shuffle_epoll_events.
  destruct (Z.ltb_spec size 1) as [Hlt|Hge].
  - exists evs. auto.
  - destruct (shuffle_loop_permutation RAND_MAX rand HR Hrand
                (Z.to_nat (size - 1)) 0 size evs)
      as (evs' & Hrun & Hperm & _ & Hdrop); [lia|lia|exact Hsize|].
    exists evs'. repeat split; auto. lia.
Qed.

Lemma dnet_shuffle_epoll_events_permutation_witness :
  exists evs',
    dnet_shuffle_epoll_events 2147483647 sample_rand sample_events 5 = Some evs'
    /\ evs' ≡ₚ sample_events.
Proof.
  destruct (dnet_shuffle_epoll_events_permutation 2147483647 sample_rand sample_events 5)
    as (evs' & Hrun & Hperm & _).
  - lia.
  - intros i. unfold sample_rand.
    pose proof (Z.mod_pos_bound (i * 1103515245 + 12345) 2147483648 ltac:(lia)). lia.
  - simpl. lia.
  - exists evs'. split; assumption.
Defined.

(** ** Reactor *)


Section ReactorFacts.
Context {W : Type}.
Variable node_io : W -> dnet_io.
Variable net_state : W -> conn -> dnet_net_state.
Variable accept_handler : conn -> W -> accept_outcome * W.
Variable recv_handler : conn -> W -> Z * W.
Variable send_handler : conn -> W -> Z * W.
Variable reset_state : conn -> Z -> W -> W.

(** The calls of [dnet_state_net_process]. *)
Lemma dnet_state_net_process_calls st ev w :
  snd (dnet_state_net_process recv_handler send_handler st ev w)
  = event_calls false (flag_set (events ev) Epoll.EPOLLIN)
      (flag_set (events ev) Epoll.EPOLLOUT) true
      (fatal (fst (recv_handler st w))) st.
Proof.
  unfold dnet_state_net_process, event_calls.
  destruct (flag_set (events ev) Epoll.EPOLLIN).
  - destruct (recv_handler st w) as [e w']. simpl fst.
    destruct (fatal e); [now destruct (flag_set _ Epoll.EPOLLOUT)|].
    destruct (flag_set (events ev) Epoll.EPOLLOUT).
    + destruct (send_handler st w') as [e2 w2].
      destruct (fatal e2); [reflexivity|].
      now destruct (flag_set _ (Z.lor _ _)).
    + now destruct (flag_set _ (Z.lor _ _)).
  - destruct (flag_set (events ev) Epoll.EPOLLOUT).
    + destruct (send_handler st w) as [e2 w2].
      destruct (fatal e2); [reflexivity|].
      now destruct (flag_set _ (Z.lor _ _)).
    + now destruct (flag_set _ (Z.lor _ _)).
Qed.




Lemma process_events_prefix evs : forall w tmp,
  (er_event <$> snd (fst (process_events node_io net_state accept_handler recv_handler
                            send_handler reset_state evs w tmp))) `prefix_of` evs.
Proof.
  induction evs as [|ev rest IH]; intros w tmp.
  - simpl. reflexivity.
  - simpl process_events.
    destruct (process_event _ _ _ _ _ _ ev w tmp) as [[[w1 tmp1] cs] s].
    destruct s.
    + specialize (IH w1 tmp1).
      destruct (process_events _ _ _ _ _ _ rest w1 tmp1) as [[[w2 tmp2] log] s2].
      simpl in *. now apply prefix_cons.
    + simpl. apply prefix_cons, prefix_nil.
    + simpl. apply prefix_cons, prefix_nil.
Qed.
End ReactorFacts.




(** The events a wake processes are among the [num_events] events that
    the wait returned, in the order the shuffle gave them. *)
Lemma dnet_io_process_network_wake_events {W : Type}
    (node_io : W -> dnet_io) (net_state : W -> conn -> dnet_net_state)
    (accept_handler : conn -> W -> accept_outcome * W)
    (recv_handler send_handler : conn -> W -> Z * W)
    (reset_state : conn -> Z -> W -> W)
    (RAND_MAX : Z) (rand : Z -> Z) (evs : list epoll_event) (num_events : Z) (w : W) :
  0 <= RAND_MAX ->
  (forall i, 0 <= rand i <= RAND_MAX) ->
  num_events <= Z.of_nat (length evs) ->
  exists w1 log s parks,
    dnet_io_process_network_wake node_io net_state accept_handler recv_handler
      send_handler reset_state RAND_MAX rand evs num_events w
    = Some (w1, log, s, parks)
    /\ forall e, e ∈ log -> er_event e ∈ take (Z.to_nat num_events) evs.
Proof.
  intros HR Hrand Hnum. unfold dnet_io_process_network_wake.
  destruct (Z.ltb_spec (Z.of_nat (length evs)) num_events) as [|_]; [lia|].
  assert (Hshuffle : exists evs',
             dnet_shuffle_epoll_events RAND_MAX rand evs num_events = Some evs'
             /\ evs' ≡ₚ evs
             /\ drop (Z.to_nat num_events) evs' = drop (Z.to_nat num_events) evs).
  { unfold dnet_shuffle_epoll_events.
    destruct (Z.ltb_spec num_events 1) as [|Hge]; [exists evs; auto|].
    destruct (shuffle_loop_permutation RAND_MAX rand HR Hrand
                (Z.to_nat (num_events - 1)) 0 num_events evs)
      as (evs' & Hrun & Hperm & _ & Hdrop); [lia|lia|exact Hnum|].
    exists evs'. auto. }
  destruct Hshuffle as (evs' & -> & Hperm & Hdrop).
  pose proof (process_events_prefix node_io net_state accept_handler recv_handler
                send_handler reset_state (take (Z.to_nat num_events) evs') w 0) as Hpre.
  destruct (process_events _ _ _ _ _ _ _ w 0) as [[[w1 tmp] log] s]. simpl in Hpre.
  eexists _, _, _, _. split; [reflexivity|].
  intros e He.
  assert (Hin : er_event e ∈ take (Z.to_nat num_events) evs').
  { destruct Hpre as [rest ->]. apply elem_of_app. left.
    apply list_elem_of_fmap. eauto. }
  assert (Htake : take (Z.to_nat num_events) evs' ≡ₚ take (Z.to_nat num_events) evs).
  { apply (Permutation_app_inv_r (drop (Z.to_nat num_events) evs)).
    rewrite <- Hdrop at 1. now rewrite !take_drop. }
  now rewrite <- Htake.
Qed.


(** * Further properties *)

(** ** Growth of a pool: the error path *)

Section GrowFailure.
Variable create : Z -> Z * pthread_t.

Lemma grow_loop_fail n : forall i acc k,
  i <= k < i + Z.of_nat n ->
  (forall j, i <= j < k -> fst (create j) = 0) ->
  fst (create k) <> 0 ->
  grow_loop create n i acc
  = (acc ++ ((fun j => new_work_io j (snd (create j))) <$> seqZ i (k - i)),
     - fst (create k)).
Proof.
  induction n as [|n IH]; intros i acc k Hk Hok Hfail; [lia|].
  simpl grow_loop. destruct (Z.eq_dec i k) as [->|Hne].
  - destruct (create k) as [err t] eqn:E. simpl in Hfail.
    apply Z.eqb_neq in Hfail. rewrite Hfail.
    rewrite Z.sub_diag. simpl. now rewrite app_nil_r.
  - pose proof (Hok i ltac:(lia)) as Hi.
    destruct (create i) as [err t] eqn:E. simpl in Hi. subst err.
    rewrite Z.eqb_refl.
    rewrite (IH (i + 1) _ k) by (try lia; auto; intros j Hj; apply Hok; lia).
    rewrite (seqZ_cons i (k - i)) by lia.
    rewrite fmap_cons, E. simpl snd. rewrite <- app_assoc. simpl app.
    now replace (Z.pred (k - i)) with (k - (i + 1)) by lia.
Qed.
End GrowFailure.

(** X1.  A failed growth leaves no thread behind.  If the array is
    allocated and [pthread_create] fails first at index [k], below the
    number asked for, [dnet_work_pool_grow] returns the negated error
    of that call; it has created the threads of the indices below [k]
    and joins every one of them, in the order of creation, before it
    returns; the count of workers of the pool is as before. *)
Theorem dnet_work_pool_grow_failure_joins (create : Z -> Z * pthread_t)
    (p : dnet_work_pool) (n k : Z) :
  0 <= k < n ->
  (forall j, 0 <= j < k -> fst (create j) = 0) ->
  fst (create k) <> 0 ->
  exists p',
    dnet_work_pool_grow true create p n
    = (- fst (create k), p',
       ((fun j => Pthread_create j (snd (create j))) <$> seqZ 0 k)
       ++ ((fun j => Pthread_join (snd (create j))) <$> seqZ 0 k))
    /\ num p' = num p.
Proof.
  intros Hk Hok Hfail. unfold dnet_work_pool_grow. simpl negb. cbv iota.
  rewrite (grow_loop_fail create (Z.to_nat n) 0 [] k) by (auto; lia).
  rewrite Z.sub_0_r. simpl app.
  assert (Hne : (- fst (create k) =? 0) = false) by (apply Z.eqb_neq; lia).
  rewrite Hne. exists (set_wio_list p []). split; [|reflexivity].
  rewrite <- !list_fmap_compose. reflexivity.
Qed.

Lemma dnet_work_pool_grow_failure_joins_witness :
  exists p',
    dnet_work_pool_grow true create_fails_at_2 one_worker_pool 4
    = (-11, p', [Pthread_create 0 101; Pthread_create 1 102;
                 Pthread_join 101; Pthread_join 102])
    /\ num p' = 1.
Proof.
  destruct (dnet_work_pool_grow_failure_joins create_fails_at_2 one_worker_pool 4 2)
    as (p' & H & Hn).
  - lia.
  - intros j Hj. unfold create_fails_at_2.
    destruct (Z.eqb_spec j 2); [lia|reflexivity].
  - discriminate.
  - exists p'. split; [exact H|exact Hn].
Defined.

(** ** Dispatcher: the stamp of the backend id *)



(** ** Send loop: without a limit, and the count of queued frames *)

Section SendUnlimited.
Variable LOW : Z.
Variable send_request : nat -> dnet_io_req -> Z.

(** Without a send limit the loop never ends with 0. *)
Lemma send_loop_unlimited_nonzero l : forall k counter q,
  fst (fst (fst (send_loop LOW 0 send_request l k counter q))) <> 0.
Proof.
  induction l as [|r rest IH]; intros k counter q.
  - simpl. discriminate.
  - rewrite send_loop_cons. cbv zeta.
    destruct (Z.eqb_spec (send_request k r) 0) as [E|E]; [|exact E].
    simpl (0 =? 0). simpl andb. cbv iota.
    specialize (IH (S k) counter (dec_count q)).
    destruct (send_loop LOW 0 send_request rest (S k) counter (dec_count q))
      as [[[e l'] q'] cs]. exact IH.
Qed.

(** Without a send limit and with every write succeeding, the loop
    sends the whole queue and removes the write readiness. *)
Lemma send_loop_unlimited_drains l : forall k counter q,
  (forall (i : nat) r, l !! i = Some r -> send_request (k + i) r = 0) ->
  exists cs,
    send_loop LOW 0 send_request l k counter q
    = (- Errno.EAGAIN, [], Nat.iter (length l) dec_count q, cs)
    /\ frames_sent cs = l
    /\ last cs = Some Unschedule_send.
Proof.
  induction l as [|r rest IH]; intros k counter q Hok.
  - exists [Unschedule_send]. simpl. auto.
  - rewrite send_loop_cons. cbv zeta.
    pose proof (Hok 0%nat r eq_refl) as Hr. rewrite Nat.add_0_r in Hr.
    rewrite Hr. simpl (0 =? 0). simpl andb. cbv iota.
    destruct (IH (S k) counter (dec_count q)) as (cs & Heq & Hsent & Hlast).
    { intros i r' Hi. replace (S k + i)%nat with (k + S i)%nat by lia.
      now apply Hok. }
    rewrite Heq. eexists. split; [|split].
    + simpl length. rewrite Nat.iter_succ_r. reflexivity.
    + now rewrite frames_sent_here, Hsent.
    + rewrite <- !app_assoc, !last_app, Hlast. reflexivity.
Qed.
End SendUnlimited.

(** The count after [n] guarded decrements. *)
Lemma iter_dec_count (n : nat) (q : Z) :
  0 <= q -> Nat.iter n dec_count q = Z.max 0 (q - Z.of_nat n).
Proof.
  revert q. induction n as [|n IH]; intros q Hq.
  - simpl. lia.
  - rewrite Nat.iter_succ_r.
    unfold dec_count at 2. destruct (Z.ltb_spec 0 q).
    + rewrite IH by lia. lia.
    + rewrite IH by lia. lia.
Qed.

(** X3.  Sending without a limit.  With [send_limit] 0 an invocation
    of [dnet_process_send_single] never returns 0: it goes on until
    the queue is empty or a write fails.  If every write succeeds it
    sends the whole queue in order, leaves the queue empty, removes
    the write readiness of the connection and returns -EAGAIN. *)
Theorem dnet_process_send_single_unlimited (LOW : Z)
    (send_request : nat -> dnet_io_req -> Z) (st : dnet_net_state) :
  fst (fst (dnet_process_send_single LOW 0 send_request st)) <> 0
  /\ ((forall (i : nat) r, send_list st !! i = Some r -> send_request i r = 0) ->
      let '(err, st', cs) := dnet_process_send_single LOW 0 send_request st in
      err = - Errno.EAGAIN
      /\ send_list st' = []
      /\ frames_sent cs = send_list st
      /\ Unschedule_send ∈ cs).
Proof.
  split.
  - unfold dnet_process_send_single.
    pose proof (send_loop_unlimited_nonzero LOW send_request (send_list st) 0 0
                  (send_queue_size st)) as H.
    destruct (send_loop LOW 0 send_request (send_list st) 0 0 (send_queue_size st))
      as [[[e l'] q'] cs]. exact H.
  - intros Hok. unfold dnet_process_send_single.
    destruct (send_loop_unlimited_drains LOW send_request (send_list st) 0 0
                (send_queue_size st) Hok) as (cs & Heq & Hsent & Hlast).
    rewrite Heq. simpl send_list. repeat split.
    + rewrite frames_sent_app, Hsent.
      match goal with |- context [if ?b then _ else _] => destruct b end;
        apply app_nil_r.
    + apply elem_of_app. left.
      destruct cs as [|c cs] using rev_ind; [discriminate|].
      rewrite last_snoc in Hlast. injection Hlast as ->.
      apply elem_of_app. right. left.
Qed.

Lemma dnet_process_send_single_unlimited_witness :
  let '(err, st', cs) := dnet_process_send_single 4 0 send_ok sending_state in
  err = - Errno.EAGAIN /\ send_list st' = []
  /\ frames_sent cs = [frame_1; frame_2] /\ Unschedule_send ∈ cs.
Proof.
  apply (dnet_process_send_single_unlimited 4 send_ok sending_state).
  intros i r _. reflexivity.
Defined.

(** X4.  The count of queued frames.  From a count that is not
    negative, one invocation of [dnet_process_send_single] takes one
    off the count for each frame it sends and stops taking at zero:
    the count never becomes negative. *)
Theorem dnet_process_send_single_queue_count (LOW send_limit : Z)
    (send_request : nat -> dnet_io_req -> Z) (st : dnet_net_state) :
  0 <= send_queue_size st ->
  let '(_, st', cs) := dnet_process_send_single LOW send_limit send_request st in
  send_queue_size st'
  = Z.max 0 (send_queue_size st - Z.of_nat (length (frames_sent cs))).
Proof.
  intros Hq.
  destruct (dnet_process_send_single_shape LOW send_limit send_request st)
    as (n & tail & Hn & Heq & Htail & _).
  rewrite Heq. rewrite frames_sent_watermark_trace by exact Htail.
  simpl send_queue_size. rewrite length_take_le by exact Hn.
  now apply iter_dec_count.
Qed.

Lemma dnet_process_send_single_queue_count_witness :
  send_queue_size (snd (fst (dnet_process_send_single 4 0 send_ok
                               (set_send sending_state [frame_1; frame_2] 1))))
  = 0.
Proof.
  pose proof (dnet_process_send_single_queue_count 4 0 send_ok
                (set_send sending_state [frame_1; frame_2] 1) ltac:(simpl; lia)) as H.
  exact H.
Defined.

(** ** Accepting a connection: the outcomes *)

(** X5.  The outcomes of [dnet_state_accept_process].  It returns 0
    exactly when [accept] yields a descriptor, the local address of
    the socket resolves and the state of the connection is created.
    It ends the process exactly when [accept] fails with an error
    other than EAGAIN, EWOULDBLOCK, ECONNABORTED, EMFILE, ENOBUFS and
    ENOMEM, and the exit code is then the negated error. *)
Theorem dnet_state_accept_process_outcomes (e : accept_env) :
  (fst (dnet_state_accept_process e) = Accept_return 0
   <-> 0 <= accept_cs e /\ local_addr_err e = 0 /\ state_created e = true)
  /\ (forall code,
        fst (dnet_state_accept_process e) = Accept_exit code
        <-> accept_cs e < 0 /\ code = - accept_errno e
            /\ (accept_errno e
                ∉ [Errno.EAGAIN; Errno.EWOULDBLOCK; Errno.ECONNABORTED;
                   Errno.EMFILE; Errno.ENOBUFS; Errno.ENOMEM])).
Proof.
  split.
  - unfold dnet_state_accept_process. cbv zeta.
    destruct (Z.ltb_spec (accept_cs e) 0) as [Hcs|Hcs].
    + destruct ((- accept_errno e =? - Errno.EAGAIN)
                || (- accept_errno e =? - Errno.EWOULDBLOCK)) eqn:E1.
      * simpl. split; [|lia]. intros H. inversion H as [H0].
        rewrite H0 in E1. discriminate E1.
      * clear E1. destruct (_ || _); simpl; (split; [|lia]); intros H;
          [vm_compute in H|]; discriminate H.
    + destruct (Z.eqb_spec (local_addr_err e) 0) as [E|E]; simpl.
      * destruct (state_created e); simpl.
        -- split; [intros _; repeat split; auto; lia | reflexivity].
        -- split; [intros H; discriminate H | intros (_ & _ & H); discriminate H].
      * split; [intros H; inversion H; lia | intros (_ & H & _); lia].
  - intros code. rewrite !not_elem_of_cons.
    unfold dnet_state_accept_process, Errno.EAGAIN, Errno.EWOULDBLOCK,
      Errno.ECONNABORTED, Errno.EMFILE, Errno.ENOBUFS, Errno.ENOMEM.
    cbv zeta.
    destruct (Z.ltb_spec (accept_cs e) 0) as [Hcs|Hcs].
    + assert (Hcase : forall v, accept_errno e <> v ->
                                 (- accept_errno e =? - v) = false)
        by (intros v Hv; apply Z.eqb_neq; lia).
      destruct (Z.eq_dec (accept_errno e) 11) as [E|E];
        [rewrite E; simpl; split; [intros H; discriminate H|lia]|].
      rewrite (Hcase 11 E). simpl orb.
      destruct (Z.eq_dec (accept_errno e) 103) as [E2|E2];
        [rewrite E2; simpl; split; [intros H; discriminate H|lia]|].
      rewrite (Hcase 103 E2).
      destruct (Z.eq_dec (accept_errno e) 24) as [E3|E3];
        [rewrite E3; simpl; split; [intros H; discriminate H|lia]|].
      rewrite (Hcase 24 E3).
      destruct (Z.eq_dec (accept_errno e) 105) as [E4|E4];
        [rewrite E4; simpl; split; [intros H; discriminate H|lia]|].
      rewrite (Hcase 105 E4).
      destruct (Z.eq_dec (accept_errno e) 12) as [E5|E5];
        [rewrite E5; simpl; split; [intros H; discriminate H|lia]|].
      rewrite (Hcase 12 E5).
      simpl. split.
      * intros H. injection H as <-.
        repeat split; try lia. apply not_elem_of_nil.
      * intros (_ & -> & _). reflexivity.
    + destruct (negb (local_addr_err e =? 0)); [split; [intros H; discriminate H|lia]|].
      destruct (negb (state_created e)); (split; [intros H; discriminate H|lia]).
Qed.

(** ** Reactor: error events, resets and parking *)

Section ReactorMore.
Context {W : Type}.
Variable node_io : W -> dnet_io.
Variable net_state : W -> conn -> dnet_net_state.
Variable accept_handler : conn -> W -> accept_outcome * W.
Variable recv_handler : conn -> W -> Z * W.
Variable send_handler : conn -> W -> Z * W.
Variable reset_state : conn -> Z -> W -> W.

(** An event without EPOLLIN and EPOLLOUT invokes no handler and is
    answered with -ECONNRESET. *)
Lemma dnet_state_net_process_no_io st ev w :
  flag_set (events ev) Epoll.EPOLLIN = false ->
  flag_set (events ev) Epoll.EPOLLOUT = false ->
  dnet_state_net_process recv_handler send_handler st ev w
  = (- Errno.ECONNRESET, w, []).
Proof.
  intros Hi Ho. unfold dnet_state_net_process. rewrite Hi, Ho.
  now destruct (flag_set _ (Z.lor _ _)).
Qed.

Lemma dnet_state_net_process_hup st ev w :
  flag_set (events ev) (Z.lor Epoll.EPOLLHUP Epoll.EPOLLERR) = true ->
  (forall w', fatal (fst (recv_handler st w')) = false) ->
  (forall w', fatal (fst (send_handler st w')) = false) ->
  fst (fst (dnet_state_net_process recv_handler send_handler st ev w))
  = - Errno.ECONNRESET.
Proof.
  intros Hh Hr Hs. unfold dnet_state_net_process. rewrite Hh.
  destruct (flag_set (events ev) Epoll.EPOLLIN).
  - pose proof (Hr w) as Hr1. destruct (recv_handler st w) as [e w1]. simpl in Hr1.
    rewrite Hr1. destruct (flag_set (events ev) Epoll.EPOLLOUT); [|reflexivity].
    pose proof (Hs w1) as Hs1. destruct (send_handler st w1) as [e2 w2]. simpl in Hs1.
    now rewrite Hs1.
  - destruct (flag_set (events ev) Epoll.EPOLLOUT); [|reflexivity].
    pose proof (Hs w) as Hs1. destruct (send_handler st w) as [e2 w2]. simpl in Hs1.
    now rewrite Hs1.
Qed.

(** [dnet_state_net_process] resets nothing by itself. *)
Lemma dnet_state_net_process_no_reset st ev w st' err :
  Call_reset st' err ∉ snd (dnet_state_net_process recv_handler send_handler st ev w).
Proof.
  rewrite dnet_state_net_process_calls. unfold event_calls.
  rewrite orb_true_r. intros H. apply elem_of_app in H as [H|H].
  - destruct (flag_set _ Epoll.EPOLLIN); [|inversion H].
    apply list_elem_of_singleton in H. discriminate H.
  - destruct (_ && _); [|inversion H].
    apply list_elem_of_singleton in H. discriminate H.
Qed.

(** The reset and the step of the loop go together. *)
Lemma after_handler_reset st err w cs :
  (forall st' e, Call_reset st' e ∉ cs) ->
  let '(_, cs', s) := after_handler reset_state st err w cs in
  (forall st' e, Call_reset st' e ∈ cs' ->
     s = Loop_break /\ st' = st /\ e = err /\ resets_state e = true)
  /\ (s = Loop_break -> Call_reset st err ∈ cs')
  /\ s <> Loop_exit err.
Proof.
  intros Hcs. unfold after_handler. destruct (resets_state err) eqn:Hr.
  - split; [|split; [|discriminate]].
    + intros st' e H. apply elem_of_app in H as [H|H]; [now apply Hcs in H|].
      apply list_elem_of_singleton in H. injection H as -> ->. auto.
    + intros _. apply elem_of_app. right. left.
  - split; [|split; [discriminate|discriminate]].
    intros st' e H. now apply Hcs in H.
Qed.

Lemma process_event_reset ev w tmp :
  let '(_, _, cs, s) := process_event node_io net_state accept_handler recv_handler
                          send_handler reset_state ev w tmp in
  (forall st e, Call_reset st e ∈ cs ->
     s = Loop_break /\ st = data_st ev /\ resets_state e = true)
  /\ (s = Loop_break -> exists e, Call_reset (data_st ev) e ∈ cs).
Proof.
  unfold process_event. cbv zeta.
  destruct (data_fd ev =? accept_s (net_state w (data_st ev))).
  - destruct (accept_handler (data_st ev) w) as [[err|code] w1].
    + pose proof (after_handler_reset (data_st ev) err w1 [Call_accept (data_st ev)]) as H.
      destruct (after_handler reset_state (data_st ev) err w1 [Call_accept (data_st ev)])
        as [[w2 cs] s].
      destruct H as (H1 & H2 & _).
      { intros st' e H. apply list_elem_of_singleton in H. discriminate H. }
      split; [intros st e H; destruct (H1 st e H) as (? & ? & ? & ?); auto|].
      intros Hs. eauto.
    + split; [|discriminate].
      intros st e H. apply list_elem_of_singleton in H. discriminate H.
  - destruct (flag_set (events ev) Epoll.EPOLLOUT || negb (dnet_check_io (node_io w) =? 0)).
    + pose proof (fun st' e => dnet_state_net_process_no_reset (data_st ev) ev w st' e) as Hno.
      destruct (dnet_state_net_process recv_handler send_handler (data_st ev) ev w)
        as [[err w1] cs1]. simpl in Hno.
      pose proof (after_handler_reset (data_st ev) err w1 cs1 Hno) as H.
      destruct (after_handler reset_state (data_st ev) err w1 cs1) as [[w2 cs] s].
      destruct H as (H1 & H2 & _).
      split; [intros st e H; destruct (H1 st e H) as (? & ? & ? & ?); auto|].
      intros Hs. eauto.
    + split; [|discriminate]. intros st e H. inversion H.
Qed.

(** An event is skipped, with the node and the counter as they were,
    or it is serviced, with some call made and the counter one up. *)
Lemma process_event_serviced ev w tmp :
  let '(w1, tmp1, cs, s) := process_event node_io net_state accept_handler recv_handler
                              send_handler reset_state ev w tmp in
  (cs = [] /\ tmp1 = tmp /\ w1 = w /\ s = Loop_next)
  \/ (cs <> [] /\ tmp1 = tmp + 1).
Proof.
  unfold process_event. cbv zeta.
  destruct (data_fd ev =? accept_s (net_state w (data_st ev))).
  - destruct (accept_handler (data_st ev) w) as [[err|code] w1].
    + unfold after_handler. destruct (resets_state err); right;
        (split; [simpl; intros H; discriminate H | reflexivity]).
    + right. split; auto; discriminate.
  - destruct (flag_set (events ev) Epoll.EPOLLOUT || negb (dnet_check_io (node_io w) =? 0));
      [|left; auto].
    pose proof (dnet_state_net_process_calls recv_handler send_handler (data_st ev) ev w)
      as Hcalls.
    pose proof (dnet_state_net_process_no_io (data_st ev) ev w) as Hno.
    destruct (dnet_state_net_process recv_handler send_handler (data_st ev) ev w)
      as [[err w1] cs1]. simpl in Hcalls.
    unfold event_calls in Hcalls. rewrite orb_true_r in Hcalls.
    unfold after_handler.
    destruct (flag_set (events ev) Epoll.EPOLLIN) eqn:Hi.
    + simpl in Hcalls. rewrite Hcalls.
      destruct (resets_state err); right;
        (split; [simpl; intros H; discriminate H | reflexivity]).
    + destruct (flag_set (events ev) Epoll.EPOLLOUT) eqn:Ho.
      * simpl in Hcalls. rewrite Hcalls.
        destruct (resets_state err); right;
        (split; [simpl; intros H; discriminate H | reflexivity]).
      * specialize (Hno eq_refl eq_refl). injection Hno as -> -> ->.
        simpl. right. split; [intros H; discriminate H | reflexivity].
Qed.

Lemma process_events_reset evs : forall w tmp,
  let '(_, _, log, s) := process_events node_io net_state accept_handler recv_handler
                           send_handler reset_state evs w tmp in
  (forall (i : nat) e st err,
     log !! i = Some e -> Call_reset st err ∈ er_calls e ->
     S i = length log /\ s = Loop_break /\ st = data_st (er_event e)
     /\ resets_state err = true)
  /\ (s = Loop_break ->
      exists e err, last log = Some e /\ Call_reset (data_st (er_event e)) err ∈ er_calls e).
Proof.
  induction evs as [|ev rest IH]; intros w tmp.
  - simpl. split; [intros i e st err H; destruct i; discriminate H|discriminate].
  - simpl process_events.
    pose proof (process_event_reset ev w tmp) as Hev.
    destruct (process_event _ _ _ _ _ _ ev w tmp) as [[[w1 tmp1] cs] s].
    destruct Hev as [Hev1 Hev2].
    destruct s.
    + specialize (IH w1 tmp1).
      destruct (process_events _ _ _ _ _ _ rest w1 tmp1) as [[[w2 tmp2] log] s2].
      destruct IH as [IH1 IH2]. split.
      * intros [|i] e st err Hi Hin.
        -- simpl in Hi. injection Hi as <-. simpl in Hin.
           destruct (Hev1 st err Hin) as (H & _). discriminate H.
        -- simpl in Hi. destruct (IH1 i e st err Hi Hin) as (Hl & Hs & Hst & Hr).
           simpl. repeat split; auto.
      * intros Hs. destruct (IH2 Hs) as (e & err & Hlast & Hin).
        exists e, err. split; [|exact Hin].
        destruct log as [|x log]; [discriminate Hlast|]. exact Hlast.
    + split.
      * intros [|i] e st err Hi Hin; [|destruct i; discriminate Hi].
        simpl in Hi. injection Hi as <-. simpl in Hin.
        destruct (Hev1 st err Hin) as (_ & Hst & Hr). auto.
      * intros _. destruct (Hev2 eq_refl) as [err Hin].
        eexists _, err. split; [reflexivity|exact Hin].
    + split; [|discriminate].
      intros [|i] e st err Hi Hin; [|destruct i; discriminate Hi].
      simpl in Hi. injection Hi as <-. simpl in Hin.
      destruct (Hev1 st err Hin) as (H & _). discriminate H.
Qed.

Lemma process_events_serviced evs : forall w tmp,
  let '(w', tmp', log, s) := process_events node_io net_state accept_handler recv_handler
                               send_handler reset_state evs w tmp in
  tmp <= tmp'
  /\ (tmp' = tmp -> w' = w /\ s = Loop_next /\ forall e, e ∈ log -> er_calls e = []).
Proof.
  induction evs as [|ev rest IH]; intros w tmp.
  - simpl. split; [lia|]. intros _. repeat split. intros e H. inversion H.
  - simpl process_events.
    pose proof (process_event_serviced ev w tmp) as Hev.
    destruct (process_event _ _ _ _ _ _ ev w tmp) as [[[w1 tmp1] cs] s].
    destruct s.
    + specialize (IH w1 tmp1).
      destruct (process_events _ _ _ _ _ _ rest w1 tmp1) as [[[w2 tmp2] log] s2].
      destruct IH as [IH1 IH2].
      destruct Hev as [(-> & -> & -> & _)|[Hne ->]].
      * split; [exact IH1|]. intros Heq. destruct (IH2 Heq) as (-> & -> & Hall).
        repeat split. intros e He. apply elem_of_cons in He as [->|He]; auto.
      * split; [lia|]. intros Heq. lia.
    + destruct Hev as [(_ & _ & _ & Hs)|[Hne ->]]; [discriminate Hs|].
      split; [lia|]. intros Heq. lia.
    + destruct Hev as [(_ & _ & _ & Hs)|[Hne ->]]; [discriminate Hs|].
      split; [lia|]. intros Heq. lia.
Qed.
End ReactorMore.

(** X6.  Error events.  For an event that carries EPOLLHUP or
    EPOLLERR, or carries neither EPOLLIN nor EPOLLOUT, and handlers
    that return 0 or -EAGAIN, [dnet_state_net_process] returns
    -ECONNRESET, an error on which the reactor resets the connection;
    in the second case it invokes no handler at all. *)
Theorem dnet_state_net_process_connreset {W : Type}
    (recv_handler send_handler : conn -> W -> Z * W)
    (st : conn) (ev : epoll_event) (w : W) :
  (forall w', fatal (fst (recv_handler st w')) = false) ->
  (forall w', fatal (fst (send_handler st w')) = false) ->
  (flag_set (events ev) (Z.lor Epoll.EPOLLHUP Epoll.EPOLLERR) = true ->
   fst (fst (dnet_state_net_process recv_handler send_handler st ev w))
   = - Errno.ECONNRESET)
  /\ (flag_set (events ev) Epoll.EPOLLIN = false ->
      flag_set (events ev) Epoll.EPOLLOUT = false ->
      dnet_state_net_process recv_handler send_handler st ev w
      = (- Errno.ECONNRESET, w, []))
  /\ resets_state (- Errno.ECONNRESET) = true.
Proof.
  intros Hr Hs. split; [|split; [|reflexivity]].
  - intros Hh. now apply dnet_state_net_process_hup.
  - apply dnet_state_net_process_no_io.
Qed.

Lemma dnet_state_net_process_connreset_witness :
  dnet_state_net_process sample_handler sample_handler 1%nat hangup_event overloaded_io
  = (- Errno.ECONNRESET, overloaded_io, []).
Proof.
  apply (dnet_state_net_process_connreset sample_handler sample_handler 1%nat
           hangup_event overloaded_io); reflexivity.
Defined.

(** X7.  A reset ends the batch.  In the loop over the events of a
    wake, a connection is reset only for the last event the loop
    reaches, only on the connection of that event and only on a
    negative error other than -EAGAIN; the loop then breaks, and it
    breaks for no other reason. *)
Theorem process_events_reset_is_last {W : Type}
    (node_io : W -> dnet_io) (net_state : W -> conn -> dnet_net_state)
    (accept_handler : conn -> W -> accept_outcome * W)
    (recv_handler send_handler : conn -> W -> Z * W)
    (reset_state : conn -> Z -> W -> W)
    (evs : list epoll_event) (w : W) (tmp : Z) :
  let '(_, _, log, s) := process_events node_io net_state accept_handler recv_handler
                           send_handler reset_state evs w tmp in
  (forall (i : nat) e st err,
     log !! i = Some e -> Call_reset st err ∈ er_calls e ->
     S i = length log /\ s = Loop_break /\ st = data_st (er_event e)
     /\ err < 0 /\ err <> - Errno.EAGAIN)
  /\ (s = Loop_break ->
      exists e err, last log = Some e /\ Call_reset (data_st (er_event e)) err ∈ er_calls e).
Proof.
  pose proof (process_events_reset node_io net_state accept_handler recv_handler
                send_handler reset_state evs w tmp) as H.
  destruct (process_events _ _ _ _ _ _ evs w tmp) as [[[w' tmp'] log] s].
  destruct H as [H1 H2]. split; [|exact H2].
  intros i e st err Hi Hin. destruct (H1 i e st err Hi Hin) as (Hl & Hs & Hst & Hr).
  repeat split; auto.
  - unfold resets_state in Hr. apply andb_prop in Hr as [Hr _].
    apply andb_prop in Hr as [_ Hr]. now apply Z.ltb_lt.
  - unfold resets_state in Hr. apply andb_prop in Hr as [_ Hr].
    apply negb_true_iff, Z.eqb_neq in Hr. exact Hr.
Qed.

Lemma process_events_reset_is_last_witness :
  let '(_, _, log, s) := process_events sample_node_io sample_net_state sample_accept
                           failing_handler sample_handler sample_reset
                           recv_only_events sample_io 0 in
  er_calls <$> log = [[Call_recv 0%nat; Call_reset 0%nat (- Errno.ECONNRESET)]]
  /\ s = Loop_break.
Proof.
  pose proof (process_events_reset_is_last sample_node_io sample_net_state sample_accept
                failing_handler sample_handler sample_reset recv_only_events sample_io 0)
    as H.
  destruct (process_events sample_node_io sample_net_state sample_accept failing_handler
              sample_handler sample_reset recv_only_events sample_io 0)
    as [[[w' tmp'] log] s] eqn:E.
  vm_compute in E. injection E as _ _ <- <-.
  destruct H as [H _]. split; [reflexivity|].
  destruct (H 0%nat _ 0%nat (- Errno.ECONNRESET) eq_refl) as (_ & Hs & _).
  - simpl. right. left.
  - exact Hs.
Defined.

(** X8.  Parking.  A wake ends with the thread parking on the
    admission condition only if it serviced no event: no handler was
    invoked for any event of the batch, the state of the node is as it
    was before the wake, the loop ran to its end, and the admission
    check denies. *)
Theorem dnet_io_process_network_wake_parks {W : Type}
    (node_io : W -> dnet_io) (net_state : W -> conn -> dnet_net_state)
    (accept_handler : conn -> W -> accept_outcome * W)
    (recv_handler send_handler : conn -> W -> Z * W)
    (reset_state : conn -> Z -> W -> W)
    (RAND_MAX : Z) (rand : Z -> Z) (evs : list epoll_event) (num_events : Z)
    (w w1 : W) (log : list event_record) (s : loop_step) :
  dnet_io_process_network_wake node_io net_state accept_handler recv_handler
    send_handler reset_state RAND_MAX rand evs num_events w
  = Some (w1, log, s, true) ->
  w1 = w /\ s = Loop_next
  /\ (forall e, e ∈ log -> er_calls e = [])
  /\ dnet_check_io (node_io w) = 0.
Proof.
  unfold dnet_io_process_network_wake.
  destruct (Z.of_nat (length evs) <? num_events); [discriminate|].
  destruct (dnet_shuffle_epoll_events RAND_MAX rand evs num_events) as [evs'|];
    [|discriminate].
  pose proof (process_events_serviced node_io net_state accept_handler recv_handler
                send_handler reset_state (take (Z.to_nat num_events) evs') w 0) as H.
  destruct (process_events _ _ _ _ _ _ _ w 0) as [[[w2 tmp] l] s2].
  intros Heq. injection Heq as -> -> -> Hpark.
  apply andb_prop in Hpark as [Htmp Hio].
  apply Z.eqb_eq in Htmp. apply Z.eqb_eq in Hio.
  destruct H as [_ H]. destruct (H Htmp) as (-> & -> & Hall).
  repeat split; auto.
Qed.

Lemma dnet_io_process_network_wake_parks_witness :
  dnet_check_io (sample_node_io overloaded_io) = 0.
Proof.
  destruct (dnet_io_process_network_wake sample_node_io sample_net_state sample_accept
              sample_handler sample_handler sample_reset 2147483647 sample_rand
              recv_only_events 2 overloaded_io) as [[[[w1 log] s] parks]|] eqn:E;
    [|discriminate E].
  assert (Hp : parks = true) by (vm_compute in E; congruence).
  subst parks.
  apply (dnet_io_process_network_wake_parks sample_node_io sample_net_state sample_accept
           sample_handler sample_handler sample_reset 2147483647 sample_rand
           recv_only_events 2 overloaded_io w1 log s E).
Defined.

(** ** Work pools: allocation, shutdown and cleanup *)

Lemma threads_created_creates (ws : list dnet_work_io) :
  threads_created ((fun w => Pthread_create (thread_index w) (tid w)) <$> ws) = tid <$> ws.
Proof. induction ws as [|w ws IH]; [reflexivity|]. simpl. f_equal. exact IH. Qed.

Lemma threads_created_joins (ws : list dnet_work_io) :
  threads_created ((fun w => Pthread_join (tid w)) <$> ws) = [].
Proof. induction ws as [|w ws IH]; [reflexivity|]. exact IH. Qed.

Lemma threads_joined_creates (ws : list dnet_work_io) :
  threads_joined ((fun w => Pthread_create (thread_index w) (tid w)) <$> ws) = [].
Proof. induction ws as [|w ws IH]; [reflexivity|]. exact IH. Qed.

Lemma threads_joined_joins (ws : list dnet_work_io) :
  threads_joined ((fun w => Pthread_join (tid w)) <$> ws) = tid <$> ws.
Proof. induction ws as [|w ws IH]; [reflexivity|]. simpl. f_equal. exact IH. Qed.

Lemma pool_threads_fmap (cs : list thread_call) : pool_threads (Pool_thread <$> cs) = cs.
Proof. induction cs as [|c cs IH]; [reflexivity|]. simpl. f_equal. exact IH. Qed.

(** Whatever the environment answers, a growth that fails has joined
    the threads it created, and one that succeeds has joined none. *)
Lemma dnet_work_pool_grow_balanced malloc_ok create p n :
  let '(err, p', cs) := dnet_work_pool_grow malloc_ok create p n in
  (err = 0 -> threads_joined cs = [] /\ threads_created cs = tid <$> wio_list p')
  /\ (err <> 0 -> threads_joined cs = threads_created cs).
Proof.
  unfold dnet_work_pool_grow. destruct malloc_ok; simpl negb; cbv iota.
  - destruct (grow_loop create (Z.to_nat n) 0 []) as [ws err].
    destruct (Z.eqb_spec err 0) as [->|Hne].
    + split; [|congruence]. intros _. simpl wio_list.
      now rewrite threads_joined_creates, threads_created_creates.
    + split; [congruence|]. intros _.
      unfold threads_joined, threads_created. rewrite !omap_app.
      fold (threads_joined ((fun w => Pthread_create (thread_index w) (tid w)) <$> ws)).
      fold (threads_joined ((fun w => Pthread_join (tid w)) <$> ws)).
      fold (threads_created ((fun w => Pthread_create (thread_index w) (tid w)) <$> ws)).
      fold (threads_created ((fun w => Pthread_join (tid w)) <$> ws)).
      rewrite threads_joined_creates, threads_joined_joins,
        threads_created_creates, threads_created_joins.
      now rewrite app_nil_r.
  - split; [discriminate|reflexivity].
Qed.

Lemma joins_all_unjoined (ws : list dnet_work_io) :
  Forall (fun w => joined w = 0) ws ->
  joins ws = (fun t => Pthread_join t) <$> (tid <$> ws).
Proof.
  induction 1 as [|w ws Hw _ IH]; [reflexivity|].
  unfold joins in *. rewrite filter_cons_True by exact Hw.
  rewrite !fmap_cons. now rewrite IH.
Qed.

(** X9.  Allocation, then shutdown.  When every step of
    [dnet_work_pool_alloc] succeeds, it returns 0 and leaves in the
    place a pool of [n] workers, none of them joined, one for each
    thread it has created.  A shutdown of that place by
    [dnet_work_pool_stop] then joins exactly the threads the
    allocation has created, each once, in the order of creation. *)
Theorem dnet_work_pool_alloc_then_stop (e : alloc_env) (place : dnet_work_pool_place)
    (n pool_mode : Z) :
  0 <= n ->
  calloc_ok e = true -> mutex_init_err e = 0 -> queue_ok e = true ->
  wio_malloc_ok e = true ->
  (forall j, 0 <= j < n -> fst (thread_create e j) = 0) ->
  exists p cs,
    dnet_work_pool_alloc e place n pool_mode = (0, Some {| pool := Some p |}, cs)
    /\ num p = n
    /\ Z.of_nat (length (wio_list p)) = n
    /\ Forall (fun w => joined w = 0) (wio_list p)
    /\ dnet_work_pool_stop {| pool := Some p |}
       = Some ({| pool := Some (stopped p) |},
               (fun t => Pthread_join t) <$> threads_created (pool_threads cs)).
Proof.
  intros Hn Hc Hm Hq Hw Hok. unfold dnet_work_pool_alloc.
  rewrite Hc, Hm, Hq, Hw. simpl negb. cbv iota.
  set (p0 := {| num := 0; mode := pool_mode; wio_list := []; queue_size := 0 |}).
  pose proof (dnet_work_pool_grow_ok (thread_create e) p0 n Hn Hok) as Hg.
  pose proof (dnet_work_pool_grow_balanced true (thread_create e) p0 n) as Hb.
  destruct (dnet_work_pool_grow true (thread_create e) p0 n) as [[err p1] cs].
  destruct Hg as (-> & Hnum & Hl). destruct Hb as [Hb _].
  destruct (Hb eq_refl) as [_ Hcreated]. simpl negb. cbv iota.
  eexists p1, _. split; [reflexivity|].
  assert (Hlen : Z.of_nat (length (wio_list p1)) = n)
    by (rewrite Hl, length_fmap, length_seqZ; lia).
  assert (Hall : Forall (fun w => joined w = 0) (wio_list p1)).
  { rewrite Hl. apply Forall_fmap, Forall_forall. intros j _. reflexivity. }
  split; [exact Hnum|]. split; [exact Hlen|]. split; [exact Hall|].
  rewrite (dnet_work_pool_stop_spec {| pool := Some p1 |} p1 eq_refl)
    by (unfold pool_wf; lia).
  f_equal. f_equal.
  assert (Hpt : pool_threads ([Pool_calloc; Pool_mutex_init; Pool_queue_create]
                              ++ (Pool_thread <$> cs)) = cs).
  { unfold pool_threads. rewrite omap_app.
    fold (pool_threads (Pool_thread <$> cs)). now rewrite pool_threads_fmap. }
  rewrite Hpt, Hcreated.
  assert (Hworkers : workers p1 = wio_list p1).
  { unfold workers. apply take_ge. lia. }
  rewrite Hworkers. now apply joins_all_unjoined.
Qed.

Lemma dnet_work_pool_alloc_then_stop_witness :
  exists p cs,
    dnet_work_pool_alloc alloc_fine {| pool := None |} 2 0
    = (0, Some {| pool := Some p |}, cs)
    /\ dnet_work_pool_stop {| pool := Some p |}
       = Some ({| pool := Some (stopped p) |}, [Pthread_join 101; Pthread_join 102]).
Proof.
  destruct (dnet_work_pool_alloc_then_stop alloc_fine {| pool := None |} 2 0)
    as (p & cs & Halloc & _ & _ & _ & Hstop); try reflexivity; try lia.
  exists p, cs. split; [exact Halloc|].
  rewrite Hstop. vm_compute in Halloc. injection Halloc as <- <-. reflexivity.
Defined.

(** X10.  A failed allocation.  Whatever the environment answers,
    [dnet_work_pool_alloc] returns 0 exactly when it leaves a pool in
    the place.  When it fails, every thread it has created is joined,
    a pool that was allocated is freed and a mutex that was
    initialised is destroyed; the request queue, if it was created, is
    not destroyed on this path, by no call of the function. *)
Theorem dnet_work_pool_alloc_failure (e : alloc_env) (place : dnet_work_pool_place)
    (n pool_mode : Z) :
  let '(err, place', cs) := dnet_work_pool_alloc e place n pool_mode in
  (err = 0 <-> exists p, place' = Some {| pool := Some p |})
  /\ (err <> 0 ->
      threads_joined (pool_threads cs) = threads_created (pool_threads cs)
      /\ (Pool_calloc ∈ cs -> Pool_free ∈ cs)
      /\ (Pool_mutex_init ∈ cs -> Pool_mutex_destroy ∈ cs))
  /\ (Pool_queue_destroy ∉ cs).
Proof.
  unfold dnet_work_pool_alloc.
  destruct (calloc_ok e); simpl negb; cbv iota.
  2:{ split; [split; [discriminate|intros [p H]; discriminate H]|].
      split; [intros _; repeat split; intros H; inversion H|].
      intros H; inversion H. }
  destruct (Z.eqb_spec (mutex_init_err e) 0) as [Hm|Hm]; simpl negb; cbv iota.
  2:{ split; [split; [lia|intros [p H]; discriminate H]|].
      split.
      - intros _. split; [reflexivity|]. split.
        + intros _. right. left.
        + intros H. repeat (apply elem_of_cons in H as [H|H]; [discriminate H|]).
          inversion H.
      - intros H. repeat (apply elem_of_cons in H as [H|H]; [discriminate H|]).
        inversion H. }
  destruct (queue_ok e); simpl negb; cbv iota.
  2:{ split; [split; [discriminate|intros [p H]; discriminate H]|].
      split.
      - intros _. split; [reflexivity|]. split.
        + intros _. do 3 right. left.
        + intros _. do 2 right. left.
      - intros H. repeat (apply elem_of_cons in H as [H|H]; [discriminate H|]).
        inversion H. }
  pose proof (dnet_work_pool_grow_balanced (wio_malloc_ok e) (thread_create e)
                {| num := 0; mode := pool_mode; wio_list := []; queue_size := 0 |} n) as Hb.
  destruct (dnet_work_pool_grow _ _ _ n) as [[err p1] cs]. destruct Hb as [_ Hb].
  assert (Hthreads : forall tail, pool_threads tail = [] ->
            pool_threads (([Pool_calloc; Pool_mutex_init; Pool_queue_create]
                           ++ (Pool_thread <$> cs)) ++ tail) = cs).
  { intros tail Ht. unfold pool_threads in *. rewrite !omap_app, Ht.
    fold (pool_threads (Pool_thread <$> cs)).
    rewrite pool_threads_fmap. simpl. apply app_nil_r. }
  assert (Hnoq : forall tail, Pool_queue_destroy ∉ tail ->
            Pool_queue_destroy ∉ ([Pool_calloc; Pool_mutex_init; Pool_queue_create]
                                  ++ (Pool_thread <$> cs)) ++ tail).
  { intros tail Ht H. apply elem_of_app in H as [H|H]; [|now apply Ht].
    apply elem_of_app in H as [H|H].
    - repeat (apply elem_of_cons in H as [H|H]; [discriminate H|]). inversion H.
    - apply list_elem_of_fmap in H as (c & Hc & _). discriminate Hc. }
  destruct (Z.eqb_spec err 0) as [->|Hne]; simpl negb; cbv iota.
  - split; [split; [eauto|reflexivity]|]. split; [congruence|].
    rewrite <- (app_nil_r (_ ++ _)). apply Hnoq. intros H. inversion H.
  - split; [split; [congruence|intros [p H]; discriminate H]|]. split.
    + intros _. rewrite Hthreads by reflexivity. split; [now apply Hb|]. split.
      * intros _. apply elem_of_app. right. right. left.
      * intros _. apply elem_of_app. right. left.
    + apply Hnoq. intros H.
      repeat (apply elem_of_cons in H as [H|H]; [discriminate H|]). inversion H.
Qed.

Lemma dnet_work_pool_alloc_failure_witness :
  let '(err, place', cs) := dnet_work_pool_alloc alloc_thread_fails {| pool := None |} 4 0 in
  err = -11 /\ place' = None
  /\ threads_joined (pool_threads cs) = [101; 102]
  /\ threads_created (pool_threads cs) = [101; 102].
Proof.
  pose proof (dnet_work_pool_alloc_failure alloc_thread_fails {| pool := None |} 4 0) as H.
  destruct (dnet_work_pool_alloc alloc_thread_fails {| pool := None |} 4 0)
    as [[err place'] cs] eqn:E.
  vm_compute in E. injection E as <- <- <-.
  destruct H as (_ & H & _). destruct (H ltac:(discriminate)) as (Hj & _).
  repeat split; try reflexivity.
Defined.

Lemma dnet_work_pool_cleanup_spec place p :
  pool place = Some p -> pool_wf p ->
  dnet_work_pool_cleanup place
  = Some ({| pool := None |},
          [Pool_mutex_destroy; Pool_queue_destroy; Pool_free_wio_list; Pool_free]).
Proof.
  intros Hp Hwf. unfold dnet_work_pool_cleanup. rewrite Hp.
  destruct (Z.ltb_spec (Z.of_nat (length (wio_list p))) (num p)) as [H|_];
    [unfold pool_wf in Hwf; lia|reflexivity].
Qed.

(** X11.  Exit of a pool.  On a place that holds a pool with its
    workers allocated, [dnet_work_pool_exit] joins the workers that
    were not joined, then destroys the mutex and the request queue and
    frees the worker array and the pool, and leaves the place empty.
    On the empty place it leaves, a further [dnet_work_pool_stop],
    [dnet_work_pool_cleanup] or [dnet_work_pool_exit] dereferences the
    NULL pool. *)
Theorem dnet_work_pool_exit_empties (place : dnet_work_pool_place) (p : dnet_work_pool) :
  pool place = Some p ->
  pool_wf p ->
  dnet_work_pool_exit place
  = Some ({| pool := None |},
          (Pool_thread <$> joins (workers p))
          ++ [Pool_mutex_destroy; Pool_queue_destroy; Pool_free_wio_list; Pool_free])
  /\ dnet_work_pool_stop {| pool := None |} = None
  /\ dnet_work_pool_cleanup {| pool := None |} = None
  /\ dnet_work_pool_exit {| pool := None |} = None.
Proof.
  intros Hp Hwf. split; [|auto].
  unfold dnet_work_pool_exit.
  rewrite (dnet_work_pool_stop_spec place p Hp Hwf).
  rewrite (dnet_work_pool_cleanup_spec {| pool := Some (stopped p) |} (stopped p) eq_refl
             (stopped_wf p Hwf)).
  reflexivity.
Qed.

Lemma dnet_work_pool_exit_empties_witness :
  dnet_work_pool_exit {| pool := Some sample_pool |}
  = Some ({| pool := None |},
          [Pool_thread (Pthread_join 11); Pool_thread (Pthread_join 13);
           Pool_mutex_destroy; Pool_queue_destroy; Pool_free_wio_list; Pool_free]).
Proof.
  apply (dnet_work_pool_exit_empties {| pool := Some sample_pool |} sample_pool).
  - reflexivity.
  - unfold pool_wf. simpl. lia.
Defined.



(** ** Initialisation of the I/O core *)






Section NetInit.
Variable step_err : io_resource -> Z.

End NetInit.



(** ** Comparisons of times and ids *)

(** X14.  [dnet_time_cmp] is the comparison of a total order.  It
    returns -1, 0 or 1; 0 exactly for equal times; exchanging the
    arguments negates the result; and the order it gives is
    transitive. *)
Theorem dnet_time_cmp_total_order (t1 t2 t3 : dnet_time) :
  (dnet_time_cmp t1 t2 = -1 \/ dnet_time_cmp t1 t2 = 0 \/ dnet_time_cmp t1 t2 = 1)
  /\ (dnet_time_cmp t1 t2 = 0 <-> t1 = t2)
  /\ dnet_time_cmp t2 t1 = - dnet_time_cmp t1 t2
  /\ (dnet_time_cmp t1 t2 <= 0 -> dnet_time_cmp t2 t3 <= 0 -> dnet_time_cmp t1 t3 <= 0).
Proof.
  destruct t1 as [s1 n1], t2 as [s2 n2], t3 as [s3 n3].
  unfold dnet_time_cmp. simpl.
  repeat split.
  - repeat match goal with |- context [?a <? ?b] => destruct (Z.ltb_spec a b) end; auto.
  - repeat match goal with |- context [?a <? ?b] => destruct (Z.ltb_spec a b) end;
      intros Hc; try discriminate Hc; f_equal; lia.
  - intros Hc. injection Hc as -> ->. now rewrite !Z.ltb_irrefl.
  - repeat match goal with |- context [?a <? ?b] => destruct (Z.ltb_spec a b) end; lia.
  - repeat match goal with |- context [?a <? ?b] => destruct (Z.ltb_spec a b) end; lia.
Qed.

Lemma dnet_time_cmp_total_order_witness : dnet_time_cmp time_a time_c <= 0.
Proof.
  apply (dnet_time_cmp_total_order time_a time_b time_c); vm_compute; discriminate.
Defined.








(** ** The hexadecimal dump of an id *)

Lemma hex_digit (d : Z) :
  0 <= d < 16 ->
  exists h, hex !! Z.to_nat d = Some h /\ is_hex_digit h /\ unhex_digit h = d.
Proof.
  intros Hd.
  assert (Hcases : d = 0 \/ d = 1 \/ d = 2 \/ d = 3 \/ d = 4 \/ d = 5 \/ d = 6
                   \/ d = 7 \/ d = 8 \/ d = 9 \/ d = 10 \/ d = 11 \/ d = 12
                   \/ d = 13 \/ d = 14 \/ d = 15) by lia.
  repeat (destruct Hcases as [->|Hcases]); try subst d;
    (eexists; split; [reflexivity|split; [unfold is_hex_digit; lia|reflexivity]]).
Qed.

Lemma byte_nibbles (b : Z) :
  0 <= b < 256 ->
  0 <= Z.shiftr b 4 < 16 /\ 0 <= Z.land b 15 < 16
  /\ 16 * Z.shiftr b 4 + Z.land b 15 = b.
Proof.
  intros Hb. rewrite Z.shiftr_div_pow2 by lia.
  change 15 with (Z.ones 4). rewrite Z.land_ones by lia.
  change (2 ^ 4) with 16.
  pose proof (Z.div_mod b 16 ltac:(lia)).
  pose proof (Z.mod_pos_bound b 16 ltac:(lia)).
  assert (0 <= b / 16) by (apply Z.div_pos; lia).
  assert (b / 16 < 16) by (apply Z.div_lt_upper_bound; lia).
  lia.
Qed.

Lemma dump_loop_spec n : forall i bytes dst,
  Forall (fun b => 0 <= b < 256) bytes ->
  (i + n <= length bytes)%nat ->
  exists s, dump_loop n i bytes dst = Some (dst ++ s)
    /\ length s = (2 * n)%nat
    /\ Forall is_hex_digit s
    /\ unhex s = take n (drop i bytes).
Proof.
  induction n as [|n IH]; intros i bytes dst Hb Hlen.
  - exists []. simpl. rewrite app_nil_r. repeat split; auto.
  - destruct (lookup_lt_is_Some_2 bytes i) as [b Hi]; [lia|].
    assert (Hrange : 0 <= b < 256).
    { rewrite Forall_forall in Hb. apply Hb. eapply list_elem_of_lookup_2; eauto. }
    destruct (byte_nibbles b Hrange) as (Hhi & Hlo & Hsum).
    destruct (hex_digit _ Hhi) as (hi & Ehi & Dhi & Uhi).
    destruct (hex_digit _ Hlo) as (lo & Elo & Dlo & Ulo).
    destruct (IH (S i) bytes (dst ++ [hi; lo]) Hb ltac:(lia))
      as (s & Es & Ls & Ds & Us).
    exists (hi :: lo :: s).
    cbn [dump_loop]. rewrite Hi, Ehi, Elo, Es.
    split; [now rewrite <- app_assoc|].
    split; [simpl; lia|].
    split; [constructor; [exact Dhi|constructor; [exact Dlo|exact Ds]]|].
    rewrite (drop_S bytes b i Hi).
    cbn [unhex take]. rewrite Us, Uhi, Ulo, Hsum. reflexivity.
Qed.

(** X16.  [dnet_dump_id_len_raw] writes two hexadecimal digits for each
    of the first min(len, DNET_ID_SIZE) bytes of the id, and nothing
    else: the string has twice that many characters, all of them in
    0-9 or a-f, and reading the digits back gives the bytes that were
    dumped. *)
Theorem dnet_dump_id_len_raw_round_trip (DNET_ID_SIZE : Z) (bytes : list Z) (len : Z) :
  0 <= len ->
  Forall (fun b => 0 <= b < 256) bytes ->
  Z.min len DNET_ID_SIZE <= Z.of_nat (length bytes) ->
  exists s,
    dnet_dump_id_len_raw DNET_ID_SIZE bytes len = Some s
    /\ Z.of_nat (length s) = 2 * Z.max 0 (Z.min len DNET_ID_SIZE)
    /\ Forall is_hex_digit s
    /\ unhex s = take (Z.to_nat (Z.min len DNET_ID_SIZE)) bytes.
Proof.
  intros Hlen Hb Hfit. unfold dnet_dump_id_len_raw.
  assert (Hmin : (if DNET_ID_SIZE <? len then DNET_ID_SIZE else len)
                 = Z.min len DNET_ID_SIZE).
  { destruct (Z.ltb_spec DNET_ID_SIZE len); lia. }
  rewrite Hmin.
  destruct (dump_loop_spec (Z.to_nat (Z.min len DNET_ID_SIZE)) 0 bytes [] Hb
              ltac:(lia)) as (s & Es & Ls & Ds & Us).
  exists s. rewrite Es, drop_0 in *. repeat split; auto. lia.
Qed.

Lemma dnet_dump_id_len_raw_round_trip_witness :
  exists s, dnet_dump_id_len_raw 4 [1; 171; 255; 16] 3 = Some s
    /\ unhex s = [1; 171; 255].
Proof.
  destruct (dnet_dump_id_len_raw_round_trip 4 [1; 171; 255; 16] 3)
    as (s & Es & _ & _ & Us).
  - lia.
  - repeat constructor; lia.
  - simpl; lia.
  - exists s. split; [exact Es|exact Us].
Defined.

(** ** Registration with epoll *)

Lemma epoll_ctl_add_fresh add_errno ep fd r :
  add_errno fd = 0 -> ep !! fd = None ->
  epoll_ctl_add add_errno ep fd r = (0, 0, <[fd := r]> ep).
Proof. intros H0 Hn. unfold epoll_ctl_add. now rewrite H0, Hn. Qed.

Lemma epoll_ctl_add_exists add_errno ep fd r r0 :
  add_errno fd = 0 -> ep !! fd = Some r0 ->
  epoll_ctl_add add_errno ep fd r = (-1, EEXIST, ep).
Proof. intros H0 Hs. unfold epoll_ctl_add. now rewrite H0, Hs. Qed.

(** X17.  On a connection that is not marked for exit and has a write
    socket, with no failure of epoll other than EEXIST,
    [dnet_schedule_send] returns 0, broadcasts [full_wait] and leaves
    the write socket registered and every other registration as it
    was.  A registration the descriptor already had is kept unchanged,
    so a second call changes nothing.  On a connection marked for exit
    the call returns the mark, registers nothing and does not
    broadcast. *)
Theorem dnet_schedule_send_idempotent (add_errno : Z -> Z) (c : conn)
    (st : dnet_net_state) (ep : gmap Z epoll_reg) :
  0 <= write_s st -> add_errno (write_s st) = 0 ->
  (exists ep1,
     dnet_schedule_send add_errno 0 c st ep = (0, ep1, true)
     /\ is_Some (ep1 !! write_s st)
     /\ (is_Some (ep !! write_s st) -> ep1 = ep)
     /\ (forall fd, fd <> write_s st -> ep1 !! fd = ep !! fd)
     /\ dnet_schedule_send add_errno 0 c st ep1 = (0, ep1, true))
  /\ (forall need_exit, need_exit <> 0 ->
        dnet_schedule_send add_errno need_exit c st ep = (need_exit, ep, false)).
Proof.
  intros Hfd Herr. split.
  - assert (Hkeep : forall ep' r0, ep' !! write_s st = Some r0 ->
              dnet_schedule_send add_errno 0 c st ep' = (0, ep', true)).
    { intros ep' r0 Hr. unfold dnet_schedule_send, dnet_schedule_network_io.
      simpl. destruct (Z.leb_spec 0 (write_s st)); [|lia].
      rewrite (epoll_ctl_add_exists _ _ _ _ r0 Herr Hr). reflexivity. }
    destruct (ep !! write_s st) as [r0|] eqn:Hreg.
    + exists ep. rewrite (Hkeep ep r0 Hreg). repeat split; eauto.
    + eexists (<[write_s st := _]> ep).
      split.
      { unfold dnet_schedule_send, dnet_schedule_network_io.
        simpl. destruct (Z.leb_spec 0 (write_s st)); [|lia].
        rewrite (epoll_ctl_add_fresh _ _ _ _ Herr Hreg). reflexivity. }
      split; [rewrite lookup_insert_eq; eauto|].
      split; [intros [r Hr]; discriminate Hr|].
      split; [intros fd Hne; now rewrite lookup_insert_ne by congruence|].
      eapply Hkeep. apply lookup_insert_eq.
  - intros need_exit Hne. unfold dnet_schedule_send, dnet_schedule_network_io.
    destruct (Z.eqb_spec need_exit 0); [contradiction|reflexivity].
Qed.

Lemma dnet_schedule_send_idempotent_witness :
  exists ep1, dnet_schedule_send no_add_errno 0 1%nat connected_state other_regs
              = (0, ep1, true)
    /\ dnet_schedule_send no_add_errno 0 1%nat connected_state ep1 = (0, ep1, true).
Proof.
  destruct (dnet_schedule_send_idempotent no_add_errno 1%nat connected_state other_regs)
    as [(ep1 & H1 & _ & _ & _ & H2) _].
  - simpl; lia.
  - reflexivity.
  - exists ep1. split; [exact H1|exact H2].
Defined.

(** X18.  [dnet_schedule_recv], with no failure of epoll other than
    EEXIST, on a connection not marked for exit whose descriptors are
    not registered yet: it returns 0 and registers for EPOLLIN the read
    socket with the read data and the accept socket with the accept
    data, each if the connection has it, and nothing else.  A second
    call leaves the registrations as they are; it returns 0 on a
    connection with a read socket, where EEXIST is swallowed, but
    -EEXIST on a listening connection, which has only the accept
    socket. *)
Theorem dnet_schedule_recv_twice (add_errno : Z -> Z) (c : conn)
    (st : dnet_net_state) (ep : gmap Z epoll_reg) :
  (forall fd, add_errno fd = 0) ->
  ep !! read_s st = None -> ep !! accept_s st = None ->
  read_s st <> accept_s st ->
  exists ep1,
    dnet_schedule_recv add_errno 0 c st ep = (0, ep1, false)
    /\ (0 <= read_s st ->
        ep1 !! read_s st
        = Some {| reg_events := Epoll.EPOLLIN; reg_st := c; reg_data := Read_data |})
    /\ (0 <= accept_s st ->
        ep1 !! accept_s st
        = Some {| reg_events := Epoll.EPOLLIN; reg_st := c; reg_data := Accept_data |})
    /\ (forall fd, ~ (0 <= fd /\ (fd = read_s st \/ fd = accept_s st)) ->
        ep1 !! fd = ep !! fd)
    /\ dnet_schedule_recv add_errno 0 c st ep1
       = (if (read_s st <? 0) && (0 <=? accept_s st) then - EEXIST else 0, ep1, false).
Proof.
  intros Herr Hr Ha Hne.
  unfold dnet_schedule_recv, dnet_schedule_network_io. simpl.
  destruct (Z.leb_spec 0 (read_s st)) as [Hrs|Hrs];
    destruct (Z.leb_spec 0 (accept_s st)) as [Has|Has];
    destruct (Z.ltb_spec (read_s st) 0) as [Hlt|Hlt]; try lia; simpl.
  - rewrite (epoll_ctl_add_fresh _ _ _ _ (Herr _) Hr). simpl.
    rewrite epoll_ctl_add_fresh; [|apply Herr|now rewrite lookup_insert_ne].
    simpl. eexists. split; [reflexivity|].
    split; [intros _; rewrite lookup_insert_ne by congruence; apply lookup_insert_eq|].
    split; [intros _; apply lookup_insert_eq|].
    split.
    + intros fd Hfd. rewrite !lookup_insert_ne; [reflexivity|intros Heq; lia|intros Heq; lia].
    + erewrite epoll_ctl_add_exists; [reflexivity|apply Herr|].
      rewrite lookup_insert_ne by congruence. apply lookup_insert_eq.
  - rewrite (epoll_ctl_add_fresh _ _ _ _ (Herr _) Hr). simpl.
    eexists. split; [reflexivity|].
    split; [intros _; apply lookup_insert_eq|].
    split; [lia|].
    split.
    + intros fd Hfd. rewrite lookup_insert_ne; [reflexivity|intros Heq; lia].
    + erewrite epoll_ctl_add_exists; [reflexivity|apply Herr|apply lookup_insert_eq].
  - rewrite (epoll_ctl_add_fresh _ _ _ _ (Herr _) Ha). simpl.
    eexists. split; [reflexivity|].
    split; [lia|].
    split; [intros _; apply lookup_insert_eq|].
    split.
    + intros fd Hfd. rewrite lookup_insert_ne; [reflexivity|intros Heq; lia].
    + erewrite epoll_ctl_add_exists; [reflexivity|apply Herr|apply lookup_insert_eq].
  - exists ep. repeat split; try lia. 
Qed.

Lemma dnet_schedule_recv_twice_witness :
  exists ep1, dnet_schedule_recv no_add_errno 0 2%nat listening_state other_regs
              = (0, ep1, false)
    /\ dnet_schedule_recv no_add_errno 0 2%nat listening_state ep1
       = (- EEXIST, ep1, false).
Proof.
  destruct (dnet_schedule_recv_twice no_add_errno 2%nat listening_state other_regs)
    as (ep1 & H1 & _ & _ & _ & H2).
  - reflexivity.
  - reflexivity.
  - reflexivity.
  - discriminate.
  - exists ep1. split; [exact H1|exact H2].
Defined.

Lemma state_fds_spec st fd :
  fd ∈ state_fds st
  <-> 0 <= fd /\ (fd = read_s st \/ fd = write_s st \/ fd = accept_s st).
Proof.
  unfold state_fds. rewrite list_elem_of_filter, !elem_of_cons, elem_of_nil.
  intuition.
Qed.

Lemma dnet_unschedule_all_lookup st ep fd :
  dnet_unschedule_all st ep !! fd
  = if bool_decide (fd ∈ state_fds st) then None else ep !! fd.
Proof.
  unfold dnet_unschedule_all, epoll_ctl_del.
  case_bool_decide as Hin; rewrite state_fds_spec in Hin.
  - destruct Hin as [Hpos Hin].
    destruct (Z.leb_spec 0 (accept_s st)).
    { destruct (decide (fd = accept_s st)) as [->|Hna];
        [now rewrite lookup_delete_eq|rewrite lookup_delete_ne by congruence].
      destruct (Z.leb_spec 0 (write_s st)).
      { destruct (decide (fd = write_s st)) as [->|Hnw];
          [now rewrite lookup_delete_eq|rewrite lookup_delete_ne by congruence].
        destruct (Z.leb_spec 0 (read_s st));
          [|lia].
        destruct (decide (fd = read_s st)) as [->|Hnr];
          [now rewrite lookup_delete_eq|lia]. }
      destruct (Z.leb_spec 0 (read_s st)); [|lia].
      destruct (decide (fd = read_s st)) as [->|Hnr];
        [now rewrite lookup_delete_eq|lia]. }
    destruct (Z.leb_spec 0 (write_s st)).
    { destruct (decide (fd = write_s st)) as [->|Hnw];
        [now rewrite lookup_delete_eq|rewrite lookup_delete_ne by congruence].
      destruct (Z.leb_spec 0 (read_s st)); [|lia].
      destruct (decide (fd = read_s st)) as [->|Hnr];
        [now rewrite lookup_delete_eq|lia]. }
    destruct (Z.leb_spec 0 (read_s st)); [|lia].
    destruct (decide (fd = read_s st)) as [->|Hnr];
      [now rewrite lookup_delete_eq|lia].
  - destruct (Z.leb_spec 0 (accept_s st)), (Z.leb_spec 0 (write_s st)),
      (Z.leb_spec 0 (read_s st));
      rewrite ?lookup_delete_ne; try reflexivity;
      intros Heq; apply Hin; lia.
Qed.

(** X19.  [dnet_unschedule_all] removes the registrations of the
    connection's descriptors and no other.  If none of them was
    registered and epoll fails for no reason other than EEXIST,
    scheduling the connection for receiving and for sending and then
    unscheduling it gives back the interest list as it was. *)
Theorem dnet_unschedule_all_round_trip (add_errno : Z -> Z) (c : conn)
    (st : dnet_net_state) (ep : gmap Z epoll_reg) :
  (forall fd, fd ∈ state_fds st -> dnet_unschedule_all st ep !! fd = None)
  /\ (forall fd, fd ∉ state_fds st -> dnet_unschedule_all st ep !! fd = ep !! fd)
  /\ ((forall fd, fd ∈ state_fds st -> ep !! fd = None) ->
      forall e1 ep1 b1 e2 ep2 b2,
        dnet_schedule_recv add_errno 0 c st ep = (e1, ep1, b1) ->
        dnet_schedule_send add_errno 0 c st ep1 = (e2, ep2, b2) ->
        (forall fd, fd ∉ state_fds st -> ep2 !! fd = ep !! fd)
        /\ dnet_unschedule_all st ep2 = ep).
Proof.
  split; [|split].
  - intros fd Hin. rewrite dnet_unschedule_all_lookup. now rewrite bool_decide_eq_true_2.
  - intros fd Hin. rewrite dnet_unschedule_all_lookup. now rewrite bool_decide_eq_false_2.
  - intros Hfree e1 ep1 b1 e2 ep2 b2 H1 H2.
    assert (Hadd : forall ep' fd r e errno ep'',
               epoll_ctl_add add_errno ep' fd r = (e, errno, ep'') ->
               forall fd', fd' <> fd -> ep'' !! fd' = ep' !! fd').
    { intros ep' fd r e errno ep'' Hc fd' Hne. unfold epoll_ctl_add in Hc.
      destruct (negb (add_errno fd =? 0)); [now inversion Hc|].
      destruct (ep' !! fd); inversion Hc; subst; [reflexivity|].
      now rewrite lookup_insert_ne by congruence. }
    assert (Hsame : forall fd, fd ∉ state_fds st -> ep2 !! fd = ep !! fd).
    { intros fd Hout. rewrite state_fds_spec in Hout.
      transitivity (ep1 !! fd).
      - unfold dnet_schedule_send, dnet_schedule_network_io in H2. simpl in H2.
        destruct (Z.leb_spec 0 (write_s st)) as [Hw|Hw].
        + destruct (epoll_ctl_add add_errno ep1 (write_s st) _)
            as [[e errno] ep'] eqn:Hc.
          assert (ep' !! fd = ep1 !! fd) as <-.
          { eapply Hadd; [exact Hc|]. intros ->. apply Hout. auto. }
          destruct (e <? 0); [destruct (_ =? _)|]; inversion H2; reflexivity.
        + simpl in H2. inversion H2. reflexivity.
      - unfold dnet_schedule_recv, dnet_schedule_network_io in H1. simpl in H1.
        assert (Hacc : forall e0 ep0 e' ep',
                   (if 0 <=? accept_s st
                    then let '(err, errno, ep2) :=
                           epoll_ctl_add add_errno ep0 (accept_s st)
                             {| reg_events := Epoll.EPOLLIN; reg_st := c;
                                reg_data := Accept_data |} in
                         if err <? 0 then (- errno, ep2) else (err, ep2)
                    else (e0, ep0)) = (e', ep') ->
                   ep' !! fd = ep0 !! fd).
        { intros e0 ep0 e' ep' Hq.
          destruct (Z.leb_spec 0 (accept_s st)) as [Has|Has].
          - destruct (epoll_ctl_add add_errno ep0 (accept_s st) _)
              as [[e errno] ep''] eqn:Hc.
            assert (ep'' !! fd = ep0 !! fd) as <-.
            { eapply Hadd; [exact Hc|]. intros ->. apply Hout. auto. }
            destruct (e <? 0); inversion Hq; reflexivity.
          - inversion Hq. reflexivity. }
        destruct (Z.leb_spec 0 (read_s st)) as [Hr|Hr].
        + destruct (epoll_ctl_add add_errno ep (read_s st) _)
            as [[e errno] ep'] eqn:Hc.
          assert (ep' !! fd = ep !! fd) as <-.
          { eapply Hadd; [exact Hc|]. intros ->. apply Hout. auto. }
          destruct (e <? 0).
          * destruct (_ =? _); inversion H1; reflexivity.
          * simpl in H1.
            destruct (if 0 <=? accept_s st then _ else _) as [e' ep''] eqn:Hq.
            inversion H1; subst. eapply Hacc. exact Hq.
        + simpl in H1.
          destruct (if 0 <=? accept_s st then _ else _) as [e' ep''] eqn:Hq.
          inversion H1; subst. eapply Hacc. exact Hq. }
    split; [exact Hsame|].
    apply map_eq. intros fd. rewrite dnet_unschedule_all_lookup.
    case_bool_decide as Hin.
    + symmetry. now apply Hfree.
    + now apply Hsame.
Qed.

Lemma dnet_unschedule_all_round_trip_witness :
  exists ep1 ep2,
    dnet_schedule_recv no_add_errno 0 1%nat connected_state other_regs = (0, ep1, false)
    /\ dnet_schedule_send no_add_errno 0 1%nat connected_state ep1 = (0, ep2, true)
    /\ dnet_unschedule_all connected_state ep2 = other_regs.
Proof.
  destruct (dnet_schedule_network_io no_add_errno 0 1%nat connected_state false other_regs)
    as [[e1 ep1] b1] eqn:H1.
  destruct (dnet_schedule_network_io no_add_errno 0 1%nat connected_state true ep1)
    as [[e2 ep2] b2] eqn:H2.
  destruct (dnet_unschedule_all_round_trip no_add_errno 1%nat connected_state other_regs)
    as (_ & _ & Hrt).
  assert (Hfree : forall fd, fd ∈ state_fds connected_state -> other_regs !! fd = None).
  { intros fd Hin. apply state_fds_spec in Hin. simpl in Hin.
    destruct Hin as [_ [Hfd|[Hfd|Hfd]]]; subst fd; reflexivity. }
  destruct (Hrt Hfree e1 ep1 b1 e2 ep2 b2 H1 H2) as [_ Hback].
  exists ep1, ep2.
  assert (He1 : e1 = 0 /\ b1 = false).
  { revert H1. unfold dnet_schedule_network_io. simpl.
    rewrite !epoll_ctl_add_fresh by reflexivity. simpl.
    intros Heq; inversion Heq; auto. }
  destruct He1 as [-> ->].
  assert (He2 : e2 = 0 /\ b2 = true).
  { revert H2. unfold dnet_schedule_network_io. simpl.
    destruct (epoll_ctl_add _ _ _ _) as [[e errno] ep'] eqn:Hc.
    unfold epoll_ctl_add in Hc. simpl in Hc.
    destruct (ep1 !! 8); inversion Hc; subst; simpl;
      intros Heq; inversion Heq; auto. }
  destruct He2 as [-> ->].
  unfold dnet_schedule_recv, dnet_schedule_send.
  split; [exact H1|]. split; [exact H2|exact Hback].
Defined.

(** ** Receiving a frame *)

Lemma sock_recv_bytes sock size l sock' :
  0 < size -> sock_recv sock size = (Ret_bytes l, sock') ->
  (0 < length l)%nat /\ Z.of_nat (length l) <= size
  /\ sock_bytes sock = (length l + sock_bytes sock')%nat
  /\ sock_data sock = l ++ sock_data sock'
  /\ sock_rest sock' = sock_rest sock.
Proof.
  intros Hsize Hrecv. destruct sock as [|[b l0| |e] sock0]; simpl in Hrecv;
    try discriminate Hrecv.
  injection Hrecv as Hl Hs.
  assert (Hn : exists n, Z.to_nat size = S n) by (exists (Z.to_nat size - 1)%nat; lia).
  destruct Hn as [n Hn]. rewrite Hn in *.
  pose proof (take_drop (S n) (b :: l0)) as Htd.
  pose proof (length_take (b :: l0) (S n)) as Hlen.
  rewrite Hl in Htd, Hlen.
  assert (Hpos : (0 < length l)%nat) by (rewrite Hlen; simpl; lia).
  assert (Hle : Z.of_nat (length l) <= size) by lia.
  assert (Hall : (length l + length (drop (S n) (b :: l0)) = S (length l0))%nat).
  { rewrite <- (length_app l), Htd. reflexivity. }
  split; [exact Hpos|]. split; [exact Hle|].
  destruct (drop (S n) (b :: l0)) as [|b' l'] eqn:Hd; subst sock'.
  - rewrite app_nil_r in Htd. simpl in Hall.
    repeat split.
    + simpl. lia.
    + cbn [sock_data]. rewrite Htd. reflexivity.
  - simpl in Hall. repeat split.
    + simpl. lia.
    + cbn [sock_data]. change (b :: l0 ++ sock_data sock0) with ((b :: l0) ++ sock_data sock0).
      rewrite <- Htd, <- app_assoc. reflexivity.
Qed.

Lemma sock_recv_other sock size r sock' :
  sock_recv sock size = (r, sock') ->
  (forall l, r <> Ret_bytes l) ->
  (sock_bytes sock' <= sock_bytes sock)%nat /\ sock_data sock = []
  /\ (sock = [] /\ r = Ret_errno Errno.EAGAIN /\ sock' = []
      \/ sock = Recv_eof :: sock' /\ r = Ret_eof
      \/ exists e, sock = Recv_errno e :: sock' /\ r = Ret_errno e).
Proof.
  intros Hrecv Hr. destruct sock as [|[b l0| |e] sock0]; simpl in Hrecv;
    injection Hrecv as <- <-.
  - split; [reflexivity|]. split; [reflexivity|]. left. auto.
  - exfalso. eapply Hr. reflexivity.
  - split; [reflexivity|]. split; [reflexivity|]. right. left. auto.
  - split; [reflexivity|]. split; [reflexivity|]. right. right. eauto.
Qed.

Lemma sock_data_nil sock : sock_data sock = [] -> sock_rest sock = sock.
Proof. destruct sock as [|[b l| |e] sock]; simpl; intros H0; congruence. Qed.

Section RecvFacts.
Variable DNET_IO_CMD : Z.
Variable CMD_SIZE : Z.
Variable REQ_SIZE : Z.
Variable dnet_convert_cmd : list Z -> list Z.
Variable cmd_size : list Z -> Z.
Variable n2_prepare : list Z -> Z.
Variable n2_schedule : list Z -> Z.
Variable malloc_ok : Z -> bool.

Hypothesis sizes_in_range : 0 <= REQ_SIZE + CMD_SIZE < 2 ^ 64.

Lemma recv_out_not_fuel err st sock :
  recv_out DNET_IO_CMD CMD_SIZE err st sock <> Recv_fuel.
Proof. unfold recv_out. destruct (_ && _); discriminate. Qed.

Lemma recv_schedule_not_fuel st sock :
  recv_schedule DNET_IO_CMD CMD_SIZE n2_schedule st sock <> Recv_fuel.
Proof.
  unfold recv_schedule. destruct (negb _); [discriminate|].
  destruct (rcv_data st); discriminate.
Qed.

Lemma flag_cleared x : flag_set (Z.land x (Z.lnot DNET_IO_CMD)) DNET_IO_CMD = false.
Proof.
  unfold flag_set. rewrite <- Z.land_assoc, (Z.land_comm (Z.lnot _)).
  rewrite Z.land_lnot_diag, Z.land_0_r. reflexivity.
Qed.

Lemma recv_store_spec st l st' :
  recv_store DNET_IO_CMD REQ_SIZE st l = Some st' ->
  rcv_flags st' = rcv_flags st /\ rcv_end st' = rcv_end st
  /\ rcv_offset st' = wrap64 (rcv_offset st + Z.of_nat (length l)).
Proof.
  unfold recv_store. intros Hs.
  destruct (flag_set _ _).
  - destruct (write_at _ _ _); inversion Hs; subst; auto.
  - destruct (rcv_data st); [|discriminate Hs].
    destruct (write_at _ _ _); inversion Hs; subst; auto.
Qed.

(** One pass through [recv] either leaves the function, or finds
    nothing to read because the part is complete, or takes at least a
    byte from the stream. *)
Lemma recv_chunk_inr st sock st1 sock1 :
  recv_in_range st ->
  recv_chunk DNET_IO_CMD CMD_SIZE REQ_SIZE st sock = inr (st1, sock1) ->
  recv_in_range st1 /\ rcv_flags st1 = rcv_flags st
  /\ (st1 = st /\ sock1 = sock /\ rcv_offset st = rcv_end st
      \/ (sock_bytes sock1 < sock_bytes sock)%nat).
Proof.
  intros [Ho He] Hc. unfold recv_chunk in Hc. cbv zeta in Hc.
  destruct (Z.eqb_spec (wrap64 (rcv_end st - rcv_offset st)) 0) as [Hz|Hnz].
  - inversion Hc; subst. split; [split; assumption|]. split; [reflexivity|].
    left. repeat split. unfold wrap64 in Hz.
    destruct (Z.eq_dec (rcv_offset st1) (rcv_end st1)) as [|Hne]; [assumption|].
    exfalso.
    destruct (Z.lt_ge_cases (rcv_end st1 - rcv_offset st1) 0).
    + rewrite <- (Z.mod_add _ 1) in Hz by lia.
      rewrite Z.mod_small in Hz by lia. lia.
    + rewrite Z.mod_small in Hz by lia. lia.
  - destruct (sock_recv sock _) as [[l| |e] sock'] eqn:Hrecv.
    + destruct (recv_store _ _ st l) as [st'|] eqn:Hs; [|discriminate Hc].
      inversion Hc; subst.
      destruct (recv_store_spec _ _ _ Hs) as (Hf & Hend & Hoff).
      assert (Hpos : 0 < wrap64 (rcv_end st - rcv_offset st)).
      { unfold wrap64 in *. pose proof (Z.mod_pos_bound (rcv_end st - rcv_offset st) (2 ^ 64)).
        lia. }
      destruct (sock_recv_bytes _ _ _ _ Hpos Hrecv) as (Hl & _ & Hb & _).
      split; [|split; [exact Hf|right; lia]].
      split; [|rewrite Hend; exact He].
      rewrite Hoff. unfold wrap64. apply Z.mod_pos_bound. lia.
    + discriminate Hc.
    + destruct (_ && _); discriminate Hc.
Qed.

(** Every invocation comes to an end within the passes that
    [dnet_process_recv_single] allows. *)
Lemma recv_loop_total fuel : forall st sock,
  recv_in_range st ->
  (sock_bytes sock + (if flag_set (rcv_flags st) DNET_IO_CMD then 2 else 1) <= fuel)%nat ->
  recv_loop DNET_IO_CMD CMD_SIZE REQ_SIZE dnet_convert_cmd cmd_size n2_prepare n2_schedule malloc_ok
    fuel st sock <> Recv_fuel.
Proof.
  induction fuel as [|fuel IH]; intros st sock Hr Hf.
  - destruct (flag_set _ _); lia.
  - cbn [recv_loop].
    destruct (recv_chunk _ _ _ st sock) as [o|[st1 sock1]] eqn:Hc.
    + unfold recv_chunk in Hc. cbv zeta in Hc.
      destruct (_ =? 0); [discriminate Hc|].
      destruct (sock_recv sock _) as [[l| |e] sock'].
      * destruct (recv_store _ _ _ _); inversion Hc. discriminate.
      * inversion Hc. apply recv_out_not_fuel.
      * destruct (_ && _); inversion Hc; apply recv_out_not_fuel.
    + destruct (recv_chunk_inr _ _ _ _ Hr Hc) as (Hr1 & Hfl & Hcase).
      destruct (Z.eqb_spec (rcv_offset st1) (rcv_end st1)) as [Heq|Hne]; cbn [negb].
      * rewrite Hfl in *.
        destruct (flag_set (rcv_flags st) DNET_IO_CMD) eqn:Hflag;
          [|apply recv_schedule_not_fuel].
        cbv zeta. cbn [rcv_cmd rcv_flags].
        destruct (negb (_ =? _)); [discriminate|].
        destruct (negb (malloc_ok _)); [apply recv_out_not_fuel|].
        destruct (_ <? _); [discriminate|].
        destruct (negb (_ =? 0)); [|apply recv_schedule_not_fuel].
        apply IH.
        -- split; cbn [rcv_offset rcv_end]; [lia|].
           unfold wrap64. apply Z.mod_pos_bound. lia.
        -- cbn [rcv_flags]. rewrite flag_cleared.
           destruct Hcase as [(-> & -> & _)|Hlt]; lia.
      * apply IH; [exact Hr1|]. rewrite Hfl.
        destruct Hcase as [(-> & -> & Heq)|Hlt]; [contradiction|].
        destruct (flag_set _ _); lia.
Qed.

Lemma recv_loop_mono fuel : forall st sock o k,
  recv_loop DNET_IO_CMD CMD_SIZE REQ_SIZE dnet_convert_cmd cmd_size n2_prepare n2_schedule malloc_ok
    fuel st sock = o ->
  o <> Recv_fuel ->
  recv_loop DNET_IO_CMD CMD_SIZE REQ_SIZE dnet_convert_cmd cmd_size n2_prepare n2_schedule malloc_ok
    (fuel + k) st sock = o.
Proof.
  induction fuel as [|fuel IH]; intros st sock o k Hrun Ho.
  - simpl in Hrun. congruence.
  - cbn [recv_loop Nat.add] in *.
    destruct (recv_chunk _ _ _ st sock) as [o'|[st1 sock1]]; [exact Hrun|].
    destruct (negb (_ =? _)); [now apply IH|].
    destruct (flag_set _ _); [|exact Hrun].
    cbv zeta in *.
    destruct (negb (_ =? _)); [exact Hrun|].
    destruct (negb (malloc_ok _)); [exact Hrun|].
    destruct (_ <? _); [exact Hrun|].
    destruct (negb (_ =? 0)); [now apply IH|exact Hrun].
Qed.

(** An outcome that some number of passes gives is the outcome of
    [dnet_process_recv_single]. *)
Lemma recv_loop_single fuel st sock o :
  recv_in_range st ->
  recv_loop DNET_IO_CMD CMD_SIZE REQ_SIZE dnet_convert_cmd cmd_size n2_prepare n2_schedule malloc_ok
    fuel st sock = o ->
  o <> Recv_fuel ->
  dnet_process_recv_single DNET_IO_CMD CMD_SIZE REQ_SIZE dnet_convert_cmd cmd_size n2_prepare
    n2_schedule malloc_ok st sock = o.
Proof.
  intros Hr Hrun Ho. unfold dnet_process_recv_single.
  pose proof (recv_loop_total (sock_bytes sock + 2) st sock Hr) as Htot.
  assert (Hne : recv_loop DNET_IO_CMD CMD_SIZE REQ_SIZE dnet_convert_cmd cmd_size n2_prepare
                  n2_schedule malloc_ok (sock_bytes sock + 2) st sock <> Recv_fuel).
  { apply Htot. destruct (flag_set _ _); lia. }
  pose proof (recv_loop_mono _ _ _ _ fuel eq_refl Hne) as H1.
  pose proof (recv_loop_mono _ _ _ _ (sock_bytes sock + 2)%nat Hrun Ho) as H2.
  rewrite Nat.add_comm in H2. congruence.
Qed.
End RecvFacts.

Lemma write_at_mid (a x z l : list Z) :
  length x = length l ->
  write_at (a ++ x ++ z) (Z.of_nat (length a)) l = Some (a ++ l ++ z).
Proof.
  intros Hlen. unfold write_at.
  rewrite !length_app.
  destruct (Z.leb_spec 0 (Z.of_nat (length a))); [|lia].
  destruct (Z.leb_spec (Z.of_nat (length a) + Z.of_nat (length l))
              (Z.of_nat (length a + (length x + length z)))); [|lia].
  simpl. rewrite Nat2Z.id.
  rewrite take_app_length.
  rewrite drop_app_add'  by reflexivity.
  rewrite <- Hlen, drop_app_length. reflexivity.
Qed.

Section RecvHeader.
Variable DNET_IO_CMD : Z.
Variable CMD_SIZE : Z.
Variable REQ_SIZE : Z.
Variable dnet_convert_cmd : list Z -> list Z.
Variable cmd_size : list Z -> Z.
Variable n2_prepare : list Z -> Z.
Variable n2_schedule : list Z -> Z.
Variable malloc_ok : Z -> bool.
Variable old hdr : list Z.

Hypothesis cmd_bit : DNET_IO_CMD <> 0.
Hypothesis cmd_pos : 0 < CMD_SIZE.
Hypothesis cmd_fits : CMD_SIZE < 2 ^ 64.
Hypothesis hdr_size : Z.of_nat (length hdr) = CMD_SIZE.
Hypothesis old_size : Z.of_nat (length old) = CMD_SIZE.

Lemma flag_cmd_set : flag_set DNET_IO_CMD DNET_IO_CMD = true.
Proof.
  unfold flag_set. rewrite Z.land_diag.
  destruct (Z.eqb_spec DNET_IO_CMD 0); [contradiction|reflexivity].
Qed.

(** One pass through [again] while the header is incomplete: the bytes
    received go to [rcv_cmd]; a pass that completes the header goes on
    as a pass that finds it complete. *)
Lemma recv_header_step (k : nat) (sock : list recv_result) (t u : list Z) :
  (k < Z.to_nat CMD_SIZE)%nat ->
  sock_data sock <> [] ->
  sock_data sock ++ t = drop k hdr ++ u ->
  exists m sock1,
    (1 <= m)%nat /\ (k + m <= Z.to_nat CMD_SIZE)%nat
    /\ sock_data sock = take m (drop k hdr) ++ sock_data sock1
    /\ sock_rest sock1 = sock_rest sock
    /\ forall fuel,
        recv_loop DNET_IO_CMD CMD_SIZE REQ_SIZE dnet_convert_cmd cmd_size n2_prepare n2_schedule
          malloc_ok (S fuel)
          {| rcv_flags := DNET_IO_CMD; rcv_offset := Z.of_nat k;
             rcv_end := CMD_SIZE; rcv_cmd := take k hdr ++ drop k old;
             rcv_data := None |} sock
        = recv_loop DNET_IO_CMD CMD_SIZE REQ_SIZE dnet_convert_cmd cmd_size n2_prepare n2_schedule
            malloc_ok
            (if (k + m <? Z.to_nat CMD_SIZE)%nat then fuel else S fuel)
            {| rcv_flags := DNET_IO_CMD; rcv_offset := Z.of_nat (k + m);
               rcv_end := CMD_SIZE;
               rcv_cmd := take (k + m) hdr ++ drop (k + m) old;
               rcv_data := None |} sock1.
Proof.
  intros Hk Hne Hdata.
  set (c := Z.to_nat CMD_SIZE) in *.
  assert (Hc : Z.of_nat c = CMD_SIZE) by (unfold c; lia).
  assert (Hlh : length hdr = c) by lia.
  assert (Hlo : length old = c) by lia.
  assert (Hsz : wrap64 (CMD_SIZE - Z.of_nat k) = CMD_SIZE - Z.of_nat k).
  { unfold wrap64. apply Z.mod_small. lia. }
  destruct (sock_recv sock (CMD_SIZE - Z.of_nat k)) as [r sock1] eqn:Hrecv.
  assert (Hr : exists l, r = Ret_bytes l).
  { destruct sock as [|[b l0| |e] sock0]; simpl in Hne; try congruence.
    simpl in Hrecv. injection Hrecv as <- _. eauto. }
  destruct Hr as [l ->].
  assert (Hsize_pos : 0 < CMD_SIZE - Z.of_nat k) by lia.
  destruct (sock_recv_bytes _ _ _ _ Hsize_pos Hrecv) as (Hl & Hlsz & _ & Hsd & Hsr).
  assert (Hkm : (k + length l <= c)%nat) by lia.
  assert (Hl_hdr : l = take (length l) (drop k hdr)).
  { rewrite Hsd, <- app_assoc in Hdata.
    apply (f_equal (take (length l))) in Hdata.
    rewrite take_app_length in Hdata.
    rewrite take_app_le in Hdata; [exact Hdata|].
    rewrite length_drop. lia. }
  set (m := length l) in *.
  exists m, sock1.
  split; [lia|]. split; [exact Hkm|].
  split; [now rewrite <- Hl_hdr|]. split; [exact Hsr|].
  intros fuel.
  assert (Hstore : recv_store DNET_IO_CMD REQ_SIZE
                     {| rcv_flags := DNET_IO_CMD; rcv_offset := Z.of_nat k;
                        rcv_end := CMD_SIZE; rcv_cmd := take k hdr ++ drop k old;
                        rcv_data := None |} l
                   = Some {| rcv_flags := DNET_IO_CMD;
                             rcv_offset := Z.of_nat (k + m);
                             rcv_end := CMD_SIZE;
                             rcv_cmd := take (k + m) hdr ++ drop (k + m) old;
                             rcv_data := None |}).
  { unfold recv_store.
    cbn [rcv_flags rcv_cmd rcv_offset rcv_end rcv_data].
    rewrite flag_cmd_set.
    rewrite <- (take_drop m (drop k old)).
    assert (Hlk : length (take k hdr) = k) by (rewrite length_take; lia).
    replace (Z.of_nat k) with (Z.of_nat (length (take k hdr))) by (now rewrite Hlk).
    rewrite write_at_mid.
    2:{ rewrite length_take, length_drop. fold m. lia. }
    f_equal. f_equal.
    - unfold wrap64. rewrite Z.mod_small by lia. lia.
    - rewrite drop_drop. rewrite app_assoc. f_equal.
      rewrite Hl_hdr. apply take_take_drop. }
  cbn [recv_loop]. unfold recv_chunk at 1. cbv zeta.
  cbn [rcv_offset rcv_end].
  rewrite Hsz.
  destruct (Z.eqb_spec (CMD_SIZE - Z.of_nat k) 0); [lia|].
  rewrite Hrecv, Hstore. cbn [rcv_offset rcv_end rcv_flags rcv_cmd rcv_data].
  destruct (Nat.ltb_spec (k + m) c) as [Hmore|Hdone].
  - destruct (Z.eqb_spec (Z.of_nat (k + m)) CMD_SIZE); [lia|]. reflexivity.
  - destruct (Z.eqb_spec (Z.of_nat (k + m)) CMD_SIZE) as [Heq|]; [|lia].
    cbn [negb recv_loop]. unfold recv_chunk. cbv zeta.
    cbn [rcv_offset rcv_end]. rewrite Heq, Z.sub_diag.
    change (wrap64 0 =? 0) with true. cbv iota.
    cbn [rcv_offset rcv_end rcv_flags rcv_cmd rcv_data].
    rewrite Z.eqb_refl. reflexivity.
Qed.
(** A stream that delivers the rest of the header takes the function
    to the pass that finds the header complete. *)
Lemma recv_header_fill (d : nat) : forall k sock u o,
  (Z.to_nat CMD_SIZE - k = d)%nat -> (k <= Z.to_nat CMD_SIZE)%nat ->
  sock_data sock = drop k hdr ++ u ->
  (forall sock', sock_data sock' = u -> sock_rest sock' = sock_rest sock ->
     exists f, recv_loop DNET_IO_CMD CMD_SIZE REQ_SIZE dnet_convert_cmd cmd_size n2_prepare n2_schedule
                 malloc_ok f
                 {| rcv_flags := DNET_IO_CMD; rcv_offset := CMD_SIZE;
                    rcv_end := CMD_SIZE; rcv_cmd := hdr; rcv_data := None |} sock'
               = o /\ o <> Recv_fuel) ->
  exists f, recv_loop DNET_IO_CMD CMD_SIZE REQ_SIZE dnet_convert_cmd cmd_size n2_prepare n2_schedule
              malloc_ok f
              {| rcv_flags := DNET_IO_CMD; rcv_offset := Z.of_nat k;
                 rcv_end := CMD_SIZE; rcv_cmd := take k hdr ++ drop k old;
                 rcv_data := None |} sock
            = o /\ o <> Recv_fuel.
Proof.
  induction d as [d IH] using lt_wf_ind. intros k sock u o Hd Hk Hdata Hrun.
  set (c := Z.to_nat CMD_SIZE) in *.
  assert (Hc : Z.of_nat c = CMD_SIZE) by (unfold c; lia).
  assert (Hlh : length hdr = c) by lia.
  assert (Hlo : length old = c) by lia.
  destruct (Nat.eq_dec k c) as [->|Hne].
  - rewrite drop_ge in Hdata by lia. simpl in Hdata.
    rewrite take_ge, drop_ge, app_nil_r, Hc by lia.
    now apply Hrun.
  - assert (Hnonempty : sock_data sock <> []).
    { intros Hnil. rewrite Hnil in Hdata. apply (f_equal length) in Hdata.
      rewrite length_app, length_drop in Hdata. simpl in Hdata. lia. }
    assert (Hsplit : sock_data sock ++ [] = drop k hdr ++ u) by now rewrite app_nil_r.
    destruct (recv_header_step k sock _ _ ltac:(fold c; lia) Hnonempty Hsplit)
      as (m & sock1 & Hm & Hkm & Hsd & Hsr & Hloop).
    fold c in Hkm, Hloop.
    assert (Hdata1 : sock_data sock1 = drop (k + m) hdr ++ u).
    { rewrite Hdata in Hsd.
      rewrite <- (take_drop m (drop k hdr)) in Hsd at 1.
      rewrite <- app_assoc in Hsd. apply app_inv_head in Hsd.
      rewrite <- Hsd, drop_drop. reflexivity. }
    destruct (IH (c - (k + m))%nat ltac:(lia) (k + m)%nat sock1 u o eq_refl Hkm Hdata1)
      as (f & Hf & Ho).
    { intros sock' Hd' Hr'. apply Hrun; [exact Hd'|]. now rewrite Hr'. }
    destruct f as [|f']; [simpl in Hf; congruence|].
    subst c. destruct (k + m <? Z.to_nat CMD_SIZE)%nat eqn:Hcmp.
    + exists (S (S f')). split; [|exact Ho]. rewrite Hloop. exact Hf.
    + exists (S f'). split; [|exact Ho]. rewrite Hloop. exact Hf.
Qed.
End RecvHeader.

Section RecvFrame.
Variable DNET_IO_CMD : Z.
Variable CMD_SIZE : Z.
Variable REQ_SIZE : Z.
Variable dnet_convert_cmd : list Z -> list Z.
Variable cmd_size : list Z -> Z.
Variable n2_prepare : list Z -> Z.
Variable n2_schedule : list Z -> Z.
Variable malloc_ok : Z -> bool.
Variable old hdr payload : list Z.

Hypothesis cmd_bit : DNET_IO_CMD <> 0.
Hypothesis cmd_pos : 0 < CMD_SIZE.
Hypothesis req_pos : 0 <= REQ_SIZE.
Hypothesis frame : recv_frame CMD_SIZE REQ_SIZE dnet_convert_cmd cmd_size n2_prepare n2_schedule
                     malloc_ok hdr payload.
Hypothesis old_size : Z.of_nat (length old) = CMD_SIZE.

(** One pass through [again] while the header of a frame is
    incomplete. *)
Lemma recv_step_header (k : nat) (sock : list recv_result) (t u : list Z) :
  (k < Z.to_nat CMD_SIZE)%nat ->
  sock_data sock <> [] ->
  sock_data sock ++ t = drop k (hdr ++ payload) ++ u ->
  exists m sock1,
    (1 <= m)%nat /\ (k + m <= Z.to_nat CMD_SIZE)%nat
    /\ sock_data sock = take m (drop k (hdr ++ payload)) ++ sock_data sock1
    /\ sock_rest sock1 = sock_rest sock
    /\ forall fuel,
        recv_loop DNET_IO_CMD CMD_SIZE REQ_SIZE dnet_convert_cmd cmd_size n2_prepare n2_schedule
          malloc_ok (S fuel)
          (recv_progress DNET_IO_CMD CMD_SIZE REQ_SIZE dnet_convert_cmd old hdr payload k) sock
        = if (k + m <? length (hdr ++ payload))%nat
          then recv_loop DNET_IO_CMD CMD_SIZE REQ_SIZE dnet_convert_cmd cmd_size n2_prepare
                 n2_schedule malloc_ok fuel
                 (recv_progress DNET_IO_CMD CMD_SIZE REQ_SIZE dnet_convert_cmd old hdr payload (k + m))
                 sock1
          else Recv_return 0
                 {| rcv_flags := DNET_IO_CMD; rcv_offset := 0; rcv_end := CMD_SIZE;
                    rcv_cmd := dnet_convert_cmd hdr; rcv_data := None |}
                 sock1 (Some (recv_request CMD_SIZE (dnet_convert_cmd hdr) payload)).
Proof.
  intros Hk Hne Hdata.
  destruct frame as (Hhdr & Hconv & Hsize & Hprep & Hsched & Hfit & Hmalloc).
  set (c := Z.to_nat CMD_SIZE) in *.
  assert (Hc : Z.of_nat c = CMD_SIZE) by (unfold c; lia).
  assert (Hlh : length hdr = c) by lia.
  assert (Hlo : length old = c) by lia.
  assert (Hcf : CMD_SIZE < 2 ^ 64) by lia.
  rewrite drop_app_le, <- app_assoc in Hdata by lia.
  destruct (recv_header_step DNET_IO_CMD CMD_SIZE REQ_SIZE dnet_convert_cmd cmd_size n2_prepare
              n2_schedule malloc_ok old hdr cmd_bit cmd_pos Hcf Hhdr old_size
              k sock t (payload ++ u) Hk Hne Hdata)
    as (m & sock1 & Hm & Hkm & Hsd & Hsr & Hloop).
  fold c in Hkm.
  exists m, sock1.
  split; [exact Hm|]. split; [exact Hkm|].
  split.
  { rewrite Hsd. f_equal. rewrite drop_app_le by lia.
    rewrite take_app_le; [reflexivity|]. rewrite length_drop. lia. }
  split; [exact Hsr|].
  intros fuel.
  replace (recv_progress DNET_IO_CMD CMD_SIZE REQ_SIZE dnet_convert_cmd old hdr payload k)
    with {| rcv_flags := DNET_IO_CMD; rcv_offset := Z.of_nat k;
            rcv_end := CMD_SIZE; rcv_cmd := take k hdr ++ drop k old;
            rcv_data := None |}.
  2:{ unfold recv_progress. fold c. destruct (Nat.ltb_spec k c); [reflexivity|lia]. }
  rewrite Hloop. fold c. rewrite length_app.
  destruct (Nat.ltb_spec (k + m) c) as [Hmore|Hdone].
  - destruct (Nat.ltb_spec (k + m) (length hdr + length payload)); [|lia].
    f_equal. unfold recv_progress. fold c.
    destruct (Nat.ltb_spec (k + m) c); [reflexivity|lia].
  - assert (Hkmc : (k + m = c)%nat) by lia.
    assert (Hfull : take (k + m) hdr ++ drop (k + m) old = hdr).
    { rewrite take_ge, drop_ge by lia. apply app_nil_r. }
    rewrite Hfull. cbn [recv_loop]. unfold recv_chunk. cbv zeta.
    cbn [rcv_offset rcv_end].
    replace (CMD_SIZE - Z.of_nat (k + m)) with 0 by lia.
    change (wrap64 0 =? 0) with true. cbv iota.
    cbn [rcv_offset rcv_end rcv_flags rcv_cmd rcv_data].
    destruct (Z.eqb_spec (Z.of_nat (k + m)) CMD_SIZE) as [_|]; [|lia]. cbn [negb].
    rewrite (flag_cmd_set DNET_IO_CMD cmd_bit).
    rewrite Hprep, Hsize. rewrite Z.eqb_refl. cbn [negb].
    unfold wrap64. rewrite !Z.mod_small by lia.
    rewrite Hmalloc. cbn [negb].
    destruct (Z.ltb_spec (Z.of_nat (length payload) + CMD_SIZE + REQ_SIZE)
                (REQ_SIZE + CMD_SIZE)); [lia|].
    replace (Z.to_nat (Z.of_nat (length payload) + CMD_SIZE + REQ_SIZE
                       - REQ_SIZE - CMD_SIZE)) with (length payload) by lia.
    rewrite (take_ge (dnet_convert_cmd hdr)) by lia.
    destruct (Z.eqb_spec (Z.of_nat (length payload)) 0) as [Hempty|Hdata']; cbn [negb].
    + destruct (Nat.ltb_spec (k + m) (length hdr + length payload)); [lia|].
      unfold recv_schedule. cbn [rcv_cmd rcv_data rcv_flags rcv_offset rcv_end].
      rewrite Hsched, Z.eqb_refl. cbn [negb].
      unfold dnet_schedule_command, recv_request. cbn [rcv_cmd].
      destruct payload; [|simpl in Hempty; lia]. reflexivity.
    + destruct (Nat.ltb_spec (k + m) (length hdr + length payload)); [|lia].
      f_equal. unfold recv_progress. fold c. rewrite Hkmc.
      destruct (Nat.ltb_spec c c); [lia|].
      rewrite Nat.sub_diag, Nat.sub_0_r. cbn [take app Z.of_nat].
      rewrite Z.add_0_r. reflexivity.
Qed.

(** One pass through [again] while the data are incomplete. *)
Lemma recv_step_data (k : nat) (sock : list recv_result) (t u : list Z) :
  (Z.to_nat CMD_SIZE <= k < length (hdr ++ payload))%nat ->
  sock_data sock <> [] ->
  sock_data sock ++ t = drop k (hdr ++ payload) ++ u ->
  exists m sock1,
    (1 <= m)%nat /\ (k + m <= length (hdr ++ payload))%nat
    /\ sock_data sock = take m (drop k (hdr ++ payload)) ++ sock_data sock1
    /\ sock_rest sock1 = sock_rest sock
    /\ forall fuel,
        recv_loop DNET_IO_CMD CMD_SIZE REQ_SIZE dnet_convert_cmd cmd_size n2_prepare n2_schedule
          malloc_ok (S fuel)
          (recv_progress DNET_IO_CMD CMD_SIZE REQ_SIZE dnet_convert_cmd old hdr payload k) sock
        = if (k + m <? length (hdr ++ payload))%nat
          then recv_loop DNET_IO_CMD CMD_SIZE REQ_SIZE dnet_convert_cmd cmd_size n2_prepare
                 n2_schedule malloc_ok fuel
                 (recv_progress DNET_IO_CMD CMD_SIZE REQ_SIZE dnet_convert_cmd old hdr payload (k + m))
                 sock1
          else Recv_return 0
                 {| rcv_flags := DNET_IO_CMD; rcv_offset := 0; rcv_end := CMD_SIZE;
                    rcv_cmd := dnet_convert_cmd hdr; rcv_data := None |}
                 sock1 (Some (recv_request CMD_SIZE (dnet_convert_cmd hdr) payload)).
Proof.
  intros Hk Hne Hdata. rewrite length_app in *.
  destruct frame as (Hhdr & Hconv & Hsize & Hprep & Hsched & Hfit & Hmalloc).
  set (c := Z.to_nat CMD_SIZE) in *.
  assert (Hc : Z.of_nat c = CMD_SIZE) by (unfold c; lia).
  assert (Hlh : length hdr = c) by lia.
  set (len := length payload) in *.
  assert (Hprog : recv_progress DNET_IO_CMD CMD_SIZE REQ_SIZE dnet_convert_cmd old hdr payload k
                  = {| rcv_flags := Z.land DNET_IO_CMD (Z.lnot DNET_IO_CMD);
                       rcv_offset := REQ_SIZE + CMD_SIZE + Z.of_nat (k - c);
                       rcv_end := REQ_SIZE + CMD_SIZE + Z.of_nat len;
                       rcv_cmd := dnet_convert_cmd hdr;
                       rcv_data :=
                         Some {| r_bytes := dnet_convert_cmd hdr ++ take (k - c) payload
                                            ++ repeat 0 (len - (k - c));
                                 r_hsize := CMD_SIZE;
                                 r_dsize := Z.of_nat len |} |}).
  { unfold recv_progress. fold c. destruct (Nat.ltb_spec k c); [lia|reflexivity]. }
  set (k' := (k - c)%nat) in *.
  assert (Hsz : wrap64 (REQ_SIZE + CMD_SIZE + Z.of_nat len
                        - (REQ_SIZE + CMD_SIZE + Z.of_nat k'))
                = Z.of_nat len - Z.of_nat k').
  { unfold wrap64. rewrite Z.mod_small by lia. lia. }
  destruct (sock_recv sock (Z.of_nat len - Z.of_nat k')) as [r sock1] eqn:Hrecv.
  assert (Hr : exists l, r = Ret_bytes l).
  { destruct sock as [|[b l0| |e] sock0]; simpl in Hne; try congruence.
    simpl in Hrecv. injection Hrecv as <- _. eauto. }
  destruct Hr as [l ->].
  assert (Hsize_pos : 0 < Z.of_nat len - Z.of_nat k') by lia.
  destruct (sock_recv_bytes _ _ _ _ Hsize_pos Hrecv) as (Hl & Hlsz & _ & Hsd & Hsr).
  assert (Hl_eq : l = take (length l) (drop k (hdr ++ payload))).
  { rewrite Hsd, <- app_assoc in Hdata.
    apply (f_equal (take (length l))) in Hdata.
    rewrite take_app_length in Hdata.
    rewrite take_app_le in Hdata; [exact Hdata|].
    rewrite length_drop, length_app. lia. }
  assert (Hl_pay : l = take (length l) (drop k' payload)).
  { rewrite Hl_eq at 1. rewrite drop_app_ge by lia. rewrite Hlh. reflexivity. }
  set (m := length l) in *.
  exists m, sock1.
  split; [lia|]. split; [lia|].
  split; [now rewrite <- Hl_eq|]. split; [exact Hsr|].
  intros fuel. rewrite Hprog.
  assert (Hstore : recv_store DNET_IO_CMD REQ_SIZE
                     {| rcv_flags := Z.land DNET_IO_CMD (Z.lnot DNET_IO_CMD);
                        rcv_offset := REQ_SIZE + CMD_SIZE + Z.of_nat k';
                        rcv_end := REQ_SIZE + CMD_SIZE + Z.of_nat len;
                        rcv_cmd := dnet_convert_cmd hdr;
                        rcv_data :=
                          Some {| r_bytes := dnet_convert_cmd hdr ++ take k' payload
                                             ++ repeat 0 (len - k');
                                  r_hsize := CMD_SIZE;
                                  r_dsize := Z.of_nat len |} |} l
                   = Some {| rcv_flags := Z.land DNET_IO_CMD (Z.lnot DNET_IO_CMD);
                             rcv_offset := REQ_SIZE + CMD_SIZE + Z.of_nat (k' + m);
                             rcv_end := REQ_SIZE + CMD_SIZE + Z.of_nat len;
                             rcv_cmd := dnet_convert_cmd hdr;
                             rcv_data :=
                               Some {| r_bytes := dnet_convert_cmd hdr ++ take (k' + m) payload
                                                  ++ repeat 0 (len - (k' + m));
                                       r_hsize := CMD_SIZE;
                                       r_dsize := Z.of_nat len |} |}).
  { unfold recv_store.
    cbn [rcv_flags rcv_cmd rcv_offset rcv_end rcv_data r_bytes r_hsize r_dsize].
    rewrite flag_cleared.
    assert (Hla : length (dnet_convert_cmd hdr ++ take k' payload) = (c + k')%nat).
    { rewrite length_app, length_take. fold len. lia. }
    replace (REQ_SIZE + CMD_SIZE + Z.of_nat k' - REQ_SIZE)
      with (Z.of_nat (length (dnet_convert_cmd hdr ++ take k' payload))) by (rewrite Hla; lia).
    replace (len - k')%nat with (m + (len - (k' + m)))%nat by lia.
    rewrite repeat_app, (app_assoc (dnet_convert_cmd hdr)).
    rewrite write_at_mid by (rewrite repeat_length; reflexivity).
    f_equal. f_equal.
    - unfold wrap64. rewrite Z.mod_small by lia. lia.
    - f_equal. f_equal.
      rewrite <- app_assoc. f_equal. rewrite app_assoc. f_equal.
      rewrite Hl_pay. apply take_take_drop. }
  cbn [recv_loop]. unfold recv_chunk. cbv zeta.
  cbn [rcv_offset rcv_end].
  rewrite Hsz.
  destruct (Z.eqb_spec (Z.of_nat len - Z.of_nat k') 0); [lia|].
  rewrite Hrecv, Hstore. cbn [rcv_offset rcv_end rcv_flags rcv_cmd rcv_data].
  destruct (Z.eqb_spec (REQ_SIZE + CMD_SIZE + Z.of_nat (k' + m))
              (REQ_SIZE + CMD_SIZE + Z.of_nat len)) as [Hdone|Hmore]; cbn [negb].
  - destruct (Nat.ltb_spec (k + m) (length hdr + len)); [lia|].
    rewrite flag_cleared.
    unfold recv_schedule. cbn [rcv_cmd rcv_data rcv_flags rcv_offset rcv_end].
    rewrite Hsched, Z.eqb_refl. cbn [negb].
    unfold dnet_schedule_command, recv_request. cbn [rcv_cmd].
    f_equal. f_equal. f_equal.
    replace (len - (k' + m))%nat with 0%nat by lia.
    rewrite take_ge by (fold len; lia). cbn [repeat]. now rewrite app_nil_r.
  - destruct (Nat.ltb_spec (k + m) (length hdr + len)); [|lia].
    f_equal. unfold recv_progress. fold c.
    destruct (Nat.ltb_spec (k + m) c); [lia|].
    replace (k + m - c)%nat with (k' + m)%nat by lia. reflexivity.
Qed.
Lemma recv_step (k : nat) (sock : list recv_result) (t u : list Z) :
  (k < length (hdr ++ payload))%nat ->
  sock_data sock <> [] ->
  sock_data sock ++ t = drop k (hdr ++ payload) ++ u ->
  exists m sock1,
    (1 <= m)%nat /\ (k + m <= length (hdr ++ payload))%nat
    /\ sock_data sock = take m (drop k (hdr ++ payload)) ++ sock_data sock1
    /\ sock_rest sock1 = sock_rest sock
    /\ forall fuel,
        recv_loop DNET_IO_CMD CMD_SIZE REQ_SIZE dnet_convert_cmd cmd_size n2_prepare n2_schedule
          malloc_ok (S fuel)
          (recv_progress DNET_IO_CMD CMD_SIZE REQ_SIZE dnet_convert_cmd old hdr payload k) sock
        = if (k + m <? length (hdr ++ payload))%nat
          then recv_loop DNET_IO_CMD CMD_SIZE REQ_SIZE dnet_convert_cmd cmd_size n2_prepare
                 n2_schedule malloc_ok fuel
                 (recv_progress DNET_IO_CMD CMD_SIZE REQ_SIZE dnet_convert_cmd old hdr payload (k + m))
                 sock1
          else Recv_return 0
                 {| rcv_flags := DNET_IO_CMD; rcv_offset := 0; rcv_end := CMD_SIZE;
                    rcv_cmd := dnet_convert_cmd hdr; rcv_data := None |}
                 sock1 (Some (recv_request CMD_SIZE (dnet_convert_cmd hdr) payload)).
Proof.
  intros Hk Hne Hdata.
  destruct (Nat.lt_ge_cases k (Z.to_nat CMD_SIZE)) as [Hh|Hd].
  - destruct (recv_step_header k sock t u Hh Hne Hdata)
      as (m & sock1 & Hm & Hkm & Hsd & Hsr & Hloop).
    exists m, sock1. repeat split; try assumption.
    destruct frame as (Hhdr & _). rewrite length_app. lia.
  - apply (recv_step_data k sock t u); auto.
Qed.

(** The bytes of the frame that a stream delivers before it ends or
    fails take the state from the progress [k] to the progress [j]. *)
Lemma recv_advance (d : nat) : forall k j sock o,
  (j - k = d)%nat -> (k <= j < length (hdr ++ payload))%nat ->
  sock_data sock = take (j - k) (drop k (hdr ++ payload)) ->
  (exists f, recv_loop DNET_IO_CMD CMD_SIZE REQ_SIZE dnet_convert_cmd cmd_size n2_prepare n2_schedule
               malloc_ok f
               (recv_progress DNET_IO_CMD CMD_SIZE REQ_SIZE dnet_convert_cmd old hdr payload j)
               (sock_rest sock) = o /\ o <> Recv_fuel) ->
  exists f, recv_loop DNET_IO_CMD CMD_SIZE REQ_SIZE dnet_convert_cmd cmd_size n2_prepare n2_schedule
              malloc_ok f
              (recv_progress DNET_IO_CMD CMD_SIZE REQ_SIZE dnet_convert_cmd old hdr payload k)
              sock = o /\ o <> Recv_fuel.
Proof.
  induction d as [d IH] using lt_wf_ind. intros k j sock o Hd Hkj Hdata Hrun.
  destruct (Nat.eq_dec k j) as [->|Hne].
  - rewrite Nat.sub_diag in Hdata. simpl in Hdata.
    now rewrite (sock_data_nil _ Hdata) in Hrun.
  - assert (Hlen : length (sock_data sock) = (j - k)%nat).
    { rewrite Hdata, length_take, length_drop. lia. }
    assert (Hnonempty : sock_data sock <> []).
    { intros Hnil. rewrite Hnil in Hlen. simpl in Hlen. lia. }
    assert (Hsplit : sock_data sock ++ drop j (hdr ++ payload)
                     = drop k (hdr ++ payload) ++ []).
    { rewrite app_nil_r, Hdata.
      replace (drop j (hdr ++ payload))
        with (drop (j - k) (drop k (hdr ++ payload)))
        by (rewrite drop_drop; f_equal; lia).
      apply take_drop. }
    destruct (recv_step k sock _ _ ltac:(lia) Hnonempty Hsplit)
      as (m & sock1 & Hm & Hkm & Hsd & Hsr & Hloop).
    assert (Hmj : (m <= j - k)%nat).
    { rewrite <- Hlen, Hsd, length_app, length_take, length_drop. lia. }
    assert (Hdata1 : sock_data sock1
                     = take (j - (k + m)) (drop (k + m) (hdr ++ payload))).
    { rewrite Hdata in Hsd.
      replace (j - k)%nat with (m + (j - (k + m)))%nat in Hsd by lia.
      rewrite <- take_take_drop in Hsd.
      apply app_inv_head in Hsd. rewrite <- Hsd, drop_drop. reflexivity. }
    rewrite <- Hsr in Hrun.
    destruct (IH (j - (k + m))%nat ltac:(lia) (k + m)%nat j sock1 o eq_refl
                ltac:(lia) Hdata1 Hrun) as (f & Hf & Ho).
    exists (S f). split; [|exact Ho].
    rewrite Hloop. destruct (Nat.ltb_spec (k + m) (length (hdr ++ payload))); [exact Hf|lia].
Qed.

(** A stream that delivers the rest of the frame completes it,
    whatever the pieces. *)
Lemma recv_complete (d : nat) : forall k sock rest,
  (length (hdr ++ payload) - k = d)%nat -> (k < length (hdr ++ payload))%nat ->
  sock_data sock = drop k (hdr ++ payload) ++ rest ->
  exists f sock',
    recv_loop DNET_IO_CMD CMD_SIZE REQ_SIZE dnet_convert_cmd cmd_size n2_prepare n2_schedule
      malloc_ok f
      (recv_progress DNET_IO_CMD CMD_SIZE REQ_SIZE dnet_convert_cmd old hdr payload k) sock
    = Recv_return 0
        {| rcv_flags := DNET_IO_CMD; rcv_offset := 0; rcv_end := CMD_SIZE;
           rcv_cmd := dnet_convert_cmd hdr; rcv_data := None |}
        sock' (Some (recv_request CMD_SIZE (dnet_convert_cmd hdr) payload))
    /\ sock_data sock' = rest /\ sock_rest sock' = sock_rest sock.
Proof.
  induction d as [d IH] using lt_wf_ind. intros k sock rest Hd Hk Hdata.
  assert (Hnonempty : sock_data sock <> []).
  { intros Hnil. rewrite Hnil in Hdata. apply (f_equal length) in Hdata.
    rewrite length_app, length_drop in Hdata. simpl in Hdata. lia. }
  assert (Hsplit : sock_data sock ++ [] = drop k (hdr ++ payload) ++ rest)
    by now rewrite app_nil_r.
  destruct (recv_step k sock _ _ Hk Hnonempty Hsplit)
    as (m & sock1 & Hm & Hkm & Hsd & Hsr & Hloop).
  assert (Hdata1 : sock_data sock1 = drop (k + m) (hdr ++ payload) ++ rest).
  { rewrite Hdata in Hsd.
    rewrite <- (take_drop m (drop k (hdr ++ payload))) in Hsd at 1.
    rewrite <- app_assoc in Hsd. apply app_inv_head in Hsd.
    rewrite <- Hsd, drop_drop. reflexivity. }
  destruct (Nat.ltb_spec (k + m) (length (hdr ++ payload))) as [Hlt|Hge].
  - destruct (IH (length (hdr ++ payload) - (k + m))%nat ltac:(lia) (k + m)%nat
                sock1 rest eq_refl Hlt Hdata1) as (f & sock' & Hf & Hd' & Hr').
    exists (S f), sock'. rewrite Hloop.
    destruct (Nat.ltb_spec (k + m) (length (hdr ++ payload))); [|lia].
    split; [exact Hf|]. split; [exact Hd'|]. now rewrite Hr'.
  - exists 1%nat, sock1. rewrite Hloop.
    destruct (Nat.ltb_spec (k + m) (length (hdr ++ payload))); [lia|].
    split; [reflexivity|]. split; [|exact Hsr].
    rewrite Hdata1, drop_ge by lia. reflexivity.
Qed.

(** Where a frame is incomplete the function asks [recv] for more; the
    state of the stream then decides. *)
Lemma recv_stop (k : nat) (sock : list recv_result) (fuel : nat) :
  (k < length (hdr ++ payload))%nat ->
  sock_data sock = [] ->
  recv_loop DNET_IO_CMD CMD_SIZE REQ_SIZE dnet_convert_cmd cmd_size n2_prepare n2_schedule
    malloc_ok (S fuel)
    (recv_progress DNET_IO_CMD CMD_SIZE REQ_SIZE dnet_convert_cmd old hdr payload k) sock
  = match sock with
    | [] =>
        Recv_return (- Errno.EAGAIN)
          (recv_progress DNET_IO_CMD CMD_SIZE REQ_SIZE dnet_convert_cmd old hdr payload k) [] None
    | Recv_eof :: sock' =>
        Recv_return (- Errno.ECONNRESET)
          (dnet_schedule_command DNET_IO_CMD CMD_SIZE
             (recv_progress DNET_IO_CMD CMD_SIZE REQ_SIZE dnet_convert_cmd old hdr payload k))
          sock' None
    | Recv_errno e :: sock' =>
        if negb (e =? Errno.EAGAIN) && negb (e =? Errno.EINTR)
        then Recv_return (- e)
               (dnet_schedule_command DNET_IO_CMD CMD_SIZE
                  (recv_progress DNET_IO_CMD CMD_SIZE REQ_SIZE dnet_convert_cmd old hdr payload k))
               sock' None
        else Recv_return (- Errno.EAGAIN)
               (recv_progress DNET_IO_CMD CMD_SIZE REQ_SIZE dnet_convert_cmd old hdr payload k)
               sock' None
    | Recv_data _ _ :: _ => Recv_memory_error
    end.
Proof.
  intros Hk Hdata. rewrite length_app in Hk.
  destruct frame as (Hhdr & Hconv & Hsize & Hprep & Hsched & Hfit & Hmalloc).
  assert (Hsz : wrap64 (rcv_end (recv_progress DNET_IO_CMD CMD_SIZE REQ_SIZE dnet_convert_cmd old hdr
                                   payload k)
                        - rcv_offset (recv_progress DNET_IO_CMD CMD_SIZE REQ_SIZE dnet_convert_cmd old
                                        hdr payload k)) <> 0).
  { unfold recv_progress, wrap64.
    destruct (Nat.ltb_spec k (Z.to_nat CMD_SIZE)); cbn [rcv_end rcv_offset];
      rewrite Z.mod_small by lia; lia. }
  cbn [recv_loop]. unfold recv_chunk. cbv zeta.
  destruct (Z.eqb_spec (wrap64 (rcv_end (recv_progress DNET_IO_CMD CMD_SIZE REQ_SIZE dnet_convert_cmd
                                           old hdr payload k)
                                - rcv_offset (recv_progress DNET_IO_CMD CMD_SIZE
                                                REQ_SIZE dnet_convert_cmd old hdr payload k))) 0)
    as [Hz|_]; [contradiction|].
  destruct sock as [|[b l| |e] sock']; cbn [sock_recv].
  - reflexivity.
  - discriminate Hdata.
  - reflexivity.
  - destruct (negb (e =? Errno.EAGAIN) && negb (e =? Errno.EINTR)) eqn:He.
    + unfold recv_out.
      replace (- e =? - Errno.EAGAIN) with (e =? Errno.EAGAIN)
        by (destruct (Z.eqb_spec e Errno.EAGAIN), (Z.eqb_spec (- e) (- Errno.EAGAIN));
            lia || reflexivity).
      replace (- e =? - Errno.EINTR) with (e =? Errno.EINTR)
        by (destruct (Z.eqb_spec e Errno.EINTR), (Z.eqb_spec (- e) (- Errno.EINTR));
            lia || reflexivity).
      now rewrite He.
    + reflexivity.
Qed.
Lemma recv_progress_in_range (k : nat) :
  (k < length (hdr ++ payload))%nat ->
  recv_in_range (recv_progress DNET_IO_CMD CMD_SIZE REQ_SIZE dnet_convert_cmd old hdr payload k).
Proof.
  intros Hk. rewrite length_app in Hk.
  destruct frame as (Hhdr & _ & _ & _ & _ & Hfit & _).
  unfold recv_in_range, recv_progress.
  destruct (Nat.ltb_spec k (Z.to_nat CMD_SIZE)); cbn [rcv_offset rcv_end]; lia.
Qed.

Lemma recv_progress_reset (k : nat) :
  recv_ready DNET_IO_CMD CMD_SIZE
    (dnet_schedule_command DNET_IO_CMD CMD_SIZE
       (recv_progress DNET_IO_CMD CMD_SIZE REQ_SIZE dnet_convert_cmd old hdr payload k)).
Proof.
  destruct frame as (Hhdr & Hconv & _).
  unfold recv_ready, dnet_schedule_command, recv_progress.
  cbn [rcv_flags rcv_offset rcv_end rcv_data]. repeat split.
  destruct (Nat.ltb_spec k (Z.to_nat CMD_SIZE)); cbn [rcv_cmd];
    [|rewrite Hconv; exact Hhdr].
  rewrite length_app, length_take, length_drop. lia.
Qed.
End RecvFrame.



(** X21.  Reassembly of a frame of the old protocol does not depend on
    how the stream is cut into pieces.  From the state after the first
    [k] bytes of the frame (the state of a waiting connection for
    [k = 0]), on a stream that delivers the rest of the frame and then
    [rest], [dnet_process_recv_single] returns 0, hands to
    [dnet_schedule_io] the request made of exactly the header and the
    data, leaves the connection waiting for the next command, and
    leaves [rest] and what follows it in the stream. *)
Theorem dnet_process_recv_single_frame
    (DNET_IO_CMD CMD_SIZE REQ_SIZE : Z) (dnet_convert_cmd : list Z -> list Z)
    (cmd_size n2_prepare n2_schedule : list Z -> Z)
    (malloc_ok : Z -> bool) (old hdr payload : list Z) (k : nat)
    (sock : list recv_result) (rest : list Z) :
  DNET_IO_CMD <> 0 -> 0 < CMD_SIZE -> 0 <= REQ_SIZE ->
  recv_frame CMD_SIZE REQ_SIZE dnet_convert_cmd cmd_size n2_prepare n2_schedule malloc_ok hdr payload ->
  Z.of_nat (length old) = CMD_SIZE ->
  (k < length (hdr ++ payload))%nat ->
  sock_data sock = drop k (hdr ++ payload) ++ rest ->
  (forall st, recv_ready DNET_IO_CMD CMD_SIZE st -> rcv_cmd st = old ->
     st = recv_progress DNET_IO_CMD CMD_SIZE REQ_SIZE dnet_convert_cmd old hdr payload 0)
  /\ exists st' sock',
       dnet_process_recv_single DNET_IO_CMD CMD_SIZE REQ_SIZE dnet_convert_cmd cmd_size n2_prepare
         n2_schedule malloc_ok
         (recv_progress DNET_IO_CMD CMD_SIZE REQ_SIZE dnet_convert_cmd old hdr payload k) sock
       = Recv_return 0 st' sock' (Some (recv_request CMD_SIZE (dnet_convert_cmd hdr) payload))
       /\ recv_ready DNET_IO_CMD CMD_SIZE st' /\ rcv_cmd st' = dnet_convert_cmd hdr
       /\ sock_data sock' = rest /\ sock_rest sock' = sock_rest sock.
Proof.
  intros Hbit Hcmd Hreq Hframe Hold Hk Hdata. split.
  - intros [fl off en cm da] (Hfl & Hoff & Hen & Hda & _) Hcm. simpl in *. subst.
    unfold recv_progress.
    destruct (Nat.ltb_spec 0 (Z.to_nat (Z.of_nat (length old)))); [|lia].
    simpl. now rewrite drop_0.
  - destruct (recv_complete DNET_IO_CMD CMD_SIZE REQ_SIZE dnet_convert_cmd cmd_size n2_prepare
                n2_schedule malloc_ok old hdr payload Hbit Hcmd Hreq Hframe Hold
                _ k sock rest eq_refl Hk Hdata) as (f & sock' & Hrun & Hd & Hr).
    eexists _, sock'. split; [|split; [|split; [|split; [exact Hd|exact Hr]]]].
    + eapply recv_loop_single; [| |exact Hrun|discriminate].
      * destruct Hframe as (_ & _ & _ & _ & _ & Hfit & _). lia.
      * now apply (recv_progress_in_range DNET_IO_CMD CMD_SIZE REQ_SIZE dnet_convert_cmd cmd_size
                     n2_prepare n2_schedule malloc_ok old hdr payload Hcmd Hreq
                     Hframe).
    + destruct Hframe as (Hhdr & Hconv & _). repeat split.
      cbn [rcv_cmd]. rewrite Hconv. exact Hhdr.
    + reflexivity.
Qed.

Lemma dnet_process_recv_single_frame_witness :
  exists st' sock',
    sample_recv_single (sample_progress 0) sample_stream
    = Recv_return 0 st' sock' (Some (recv_request 4 [9; 9; 9; 2] [5; 6]))
    /\ sock_data sock' = [7; 7].
Proof.
  destruct (dnet_process_recv_single_frame 1 4 8 sample_convert_cmd sample_cmd_size old_protocol
              old_protocol malloc_fine [0; 0; 0; 0] [9; 9; 9; 2] [5; 6] 0
              sample_stream [7; 7])
    as (_ & st' & sock' & Hrun & _ & _ & Hd & _).
  - discriminate.
  - reflexivity.
  - discriminate.
  - repeat split.
  - reflexivity.
  - simpl; lia.
  - reflexivity.
  - exists st', sock'. split; [exact Hrun|exact Hd].
Defined.

(** X22.  A stream that runs dry before the frame is complete does not
    lose what arrived.  From the state after [k] bytes of the frame, on
    a stream that delivers the bytes up to [j] and then has nothing
    more, or fails with EAGAIN or EINTR, the function returns -EAGAIN
    (also for EINTR), hands over no request and leaves the state after
    [j] bytes, from which a later invocation goes on. *)
Theorem dnet_process_recv_single_would_block
    (DNET_IO_CMD CMD_SIZE REQ_SIZE : Z) (dnet_convert_cmd : list Z -> list Z)
    (cmd_size n2_prepare n2_schedule : list Z -> Z)
    (malloc_ok : Z -> bool) (old hdr payload : list Z) (k j : nat)
    (sock tail : list recv_result) (e : Z) :
  DNET_IO_CMD <> 0 -> 0 < CMD_SIZE -> 0 <= REQ_SIZE ->
  recv_frame CMD_SIZE REQ_SIZE dnet_convert_cmd cmd_size n2_prepare n2_schedule malloc_ok hdr payload ->
  Z.of_nat (length old) = CMD_SIZE ->
  (k <= j < length (hdr ++ payload))%nat ->
  sock_data sock = take (j - k) (drop k (hdr ++ payload)) ->
  (sock_rest sock = [] /\ tail = []
   \/ sock_rest sock = Recv_errno e :: tail
      /\ (e = Errno.EAGAIN \/ e = Errno.EINTR)) ->
  dnet_process_recv_single DNET_IO_CMD CMD_SIZE REQ_SIZE dnet_convert_cmd cmd_size n2_prepare
    n2_schedule malloc_ok
    (recv_progress DNET_IO_CMD CMD_SIZE REQ_SIZE dnet_convert_cmd old hdr payload k) sock
  = Recv_return (- Errno.EAGAIN)
      (recv_progress DNET_IO_CMD CMD_SIZE REQ_SIZE dnet_convert_cmd old hdr payload j) tail None.
Proof.
  intros Hbit Hcmd Hreq Hframe Hold Hkj Hdata Hrest.
  assert (Hsizes : 0 <= REQ_SIZE + CMD_SIZE < 2 ^ 64).
  { destruct Hframe as (_ & _ & _ & _ & _ & Hfit & _). lia. }
  destruct (recv_advance DNET_IO_CMD CMD_SIZE REQ_SIZE dnet_convert_cmd cmd_size n2_prepare
              n2_schedule malloc_ok old hdr payload Hbit Hcmd Hreq Hframe Hold
              _ k j sock
              (Recv_return (- Errno.EAGAIN)
                 (recv_progress DNET_IO_CMD CMD_SIZE REQ_SIZE dnet_convert_cmd old hdr payload j)
                 tail None) eq_refl Hkj Hdata) as (f & Hrun & Ho).
  - exists 1%nat. split; [|discriminate].
    rewrite (recv_stop DNET_IO_CMD CMD_SIZE REQ_SIZE dnet_convert_cmd cmd_size n2_prepare n2_schedule
               malloc_ok old hdr payload Hcmd Hreq Hframe) by
      (try lia;
       destruct Hrest as [[-> _]|[-> _]]; reflexivity).
    destruct Hrest as [[-> ->]|[-> [->| ->]]]; reflexivity.
  - eapply recv_loop_single; [exact Hsizes| |exact Hrun|exact Ho].
    apply (recv_progress_in_range DNET_IO_CMD CMD_SIZE REQ_SIZE dnet_convert_cmd cmd_size n2_prepare
             n2_schedule malloc_ok old hdr payload Hcmd Hreq Hframe). lia.
Qed.

Lemma dnet_process_recv_single_would_block_witness :
  sample_recv_single (sample_progress 0) stalled_stream
  = Recv_return (- Errno.EAGAIN) (sample_progress 5) [Recv_data 6 [7; 7]] None.
Proof.
  apply (dnet_process_recv_single_would_block 1 4 8 sample_convert_cmd sample_cmd_size old_protocol
           old_protocol malloc_fine [0; 0; 0; 0] [9; 9; 9; 2] [5; 6] 0 5
           stalled_stream [Recv_data 6 [7; 7]] Errno.EINTR).
  - discriminate.
  - reflexivity.
  - discriminate.
  - repeat split.
  - reflexivity.
  - simpl; lia.
  - reflexivity.
  - right. split; [reflexivity|right; reflexivity].
Defined.

(** X23.  The end of the stream or a failure of [recv] other than
    EAGAIN and EINTR discards the frame being received.  From the
    state after [k] bytes of the frame, on a stream that delivers the
    bytes up to [j] and then ends or fails, the function returns
    -ECONNRESET for the end and minus the errno for the failure, hands
    over no request, and leaves the connection waiting for a command,
    the block of the request released. *)
Theorem dnet_process_recv_single_failure
    (DNET_IO_CMD CMD_SIZE REQ_SIZE : Z) (dnet_convert_cmd : list Z -> list Z)
    (cmd_size n2_prepare n2_schedule : list Z -> Z)
    (malloc_ok : Z -> bool) (old hdr payload : list Z) (k j : nat)
    (sock tail : list recv_result) (e : Z) :
  DNET_IO_CMD <> 0 -> 0 < CMD_SIZE -> 0 <= REQ_SIZE ->
  recv_frame CMD_SIZE REQ_SIZE dnet_convert_cmd cmd_size n2_prepare n2_schedule malloc_ok hdr payload ->
  Z.of_nat (length old) = CMD_SIZE ->
  (k <= j < length (hdr ++ payload))%nat ->
  sock_data sock = take (j - k) (drop k (hdr ++ payload)) ->
  (sock_rest sock = Recv_eof :: tail /\ e = Errno.ECONNRESET
   \/ sock_rest sock = Recv_errno e :: tail
      /\ e <> Errno.EAGAIN /\ e <> Errno.EINTR) ->
  exists st',
    dnet_process_recv_single DNET_IO_CMD CMD_SIZE REQ_SIZE dnet_convert_cmd cmd_size n2_prepare
      n2_schedule malloc_ok
      (recv_progress DNET_IO_CMD CMD_SIZE REQ_SIZE dnet_convert_cmd old hdr payload k) sock
    = Recv_return (- e) st' tail None
    /\ recv_ready DNET_IO_CMD CMD_SIZE st'.
Proof.
  intros Hbit Hcmd Hreq Hframe Hold Hkj Hdata Hrest.
  assert (Hsizes : 0 <= REQ_SIZE + CMD_SIZE < 2 ^ 64).
  { destruct Hframe as (_ & _ & _ & _ & _ & Hfit & _). lia. }
  exists (dnet_schedule_command DNET_IO_CMD CMD_SIZE
            (recv_progress DNET_IO_CMD CMD_SIZE REQ_SIZE dnet_convert_cmd old hdr payload j)).
  split; [|now apply (recv_progress_reset DNET_IO_CMD CMD_SIZE REQ_SIZE dnet_convert_cmd cmd_size
                        n2_prepare n2_schedule malloc_ok old hdr payload Hcmd Hframe
                        Hold)].
  destruct (recv_advance DNET_IO_CMD CMD_SIZE REQ_SIZE dnet_convert_cmd cmd_size n2_prepare
              n2_schedule malloc_ok old hdr payload Hbit Hcmd Hreq Hframe Hold
              _ k j sock
              (Recv_return (- e)
                 (dnet_schedule_command DNET_IO_CMD CMD_SIZE
                    (recv_progress DNET_IO_CMD CMD_SIZE REQ_SIZE dnet_convert_cmd old hdr payload j))
                 tail None) eq_refl Hkj Hdata) as (f & Hrun & Ho).
  - exists 1%nat. split; [|discriminate].
    rewrite (recv_stop DNET_IO_CMD CMD_SIZE REQ_SIZE dnet_convert_cmd cmd_size n2_prepare n2_schedule
               malloc_ok old hdr payload Hcmd Hreq Hframe) by
      (try lia;
       destruct Hrest as [[-> _]|[-> _]]; reflexivity).
    destruct Hrest as [[-> ->]|[-> [Hne1 Hne2]]]; [reflexivity|].
    destruct (Z.eqb_spec e Errno.EAGAIN); [contradiction|].
    destruct (Z.eqb_spec e Errno.EINTR); [contradiction|]. reflexivity.
  - eapply recv_loop_single; [exact Hsizes| |exact Hrun|exact Ho].
    apply (recv_progress_in_range DNET_IO_CMD CMD_SIZE REQ_SIZE dnet_convert_cmd cmd_size n2_prepare
             n2_schedule malloc_ok old hdr payload Hcmd Hreq Hframe). lia.
Qed.

Lemma dnet_process_recv_single_failure_witness :
  exists st',
    sample_recv_single (sample_progress 0) broken_stream
    = Recv_return (- Errno.ECONNRESET) st' [] None
    /\ rcv_data st' = None.
Proof.
  destruct (dnet_process_recv_single_failure 1 4 8 sample_convert_cmd sample_cmd_size old_protocol
              old_protocol malloc_fine [0; 0; 0; 0] [9; 9; 9; 2] [5; 6] 0 5
              broken_stream [] Errno.ECONNRESET)
    as (st' & Hrun & Hready).
  - discriminate.
  - reflexivity.
  - discriminate.
  - repeat split.
  - reflexivity.
  - simpl; lia.
  - reflexivity.
  - left. split; reflexivity.
  - exists st'. split; [exact Hrun|]. apply Hready.
Defined.

(** X24.  The size that a header announces is used unchecked.  For a
    header of the old protocol whose size is so large that the sum with
    the sizes of the two structs passes 2^64, the number of bytes that
    the function asks of [malloc] wraps around to less than the structs
    need; if that allocation succeeds, the function writes the request
    past the end of the block. *)
Theorem dnet_process_recv_single_size_wraps
    (DNET_IO_CMD CMD_SIZE REQ_SIZE : Z) (dnet_convert_cmd : list Z -> list Z)
    (cmd_size n2_prepare n2_schedule : list Z -> Z)
    (malloc_ok : Z -> bool) (st : recv_state) (hdr rest : list Z)
    (sock : list recv_result) :
  DNET_IO_CMD <> 0 -> 0 < CMD_SIZE -> 0 <= REQ_SIZE -> REQ_SIZE + CMD_SIZE < 2 ^ 64 ->
  recv_ready DNET_IO_CMD CMD_SIZE st ->
  Z.of_nat (length hdr) = CMD_SIZE ->
  n2_prepare (dnet_convert_cmd hdr) = - Errno.ENOTSUP ->
  cmd_size (dnet_convert_cmd hdr) < 2 ^ 64 ->
  2 ^ 64 <= cmd_size (dnet_convert_cmd hdr) + CMD_SIZE + REQ_SIZE ->
  malloc_ok (cmd_size (dnet_convert_cmd hdr) + CMD_SIZE + REQ_SIZE - 2 ^ 64) = true ->
  sock_data sock = hdr ++ rest ->
  dnet_process_recv_single DNET_IO_CMD CMD_SIZE REQ_SIZE dnet_convert_cmd cmd_size n2_prepare
    n2_schedule malloc_ok st sock = Recv_memory_error.
Proof.
  intros Hbit Hcmd Hreq Hsizes Hready Hhdr Hprep Hsize Hwrap Hmalloc Hdata.
  destruct st as [fl off en old da].
  destruct Hready as (Hfl & Hoff & Hen & Hda & Hold). simpl in *. subst.
  assert (Hcf : Z.of_nat (length old) < 2 ^ 64) by lia.
  destruct (recv_header_fill DNET_IO_CMD (Z.of_nat (length old)) REQ_SIZE dnet_convert_cmd cmd_size
              n2_prepare n2_schedule malloc_ok old hdr Hbit Hcmd Hcf Hhdr eq_refl
              _ 0%nat sock rest Recv_memory_error eq_refl ltac:(lia) Hdata)
    as (f & Hrun & Ho).
  - intros sock' _ _. exists 1%nat. split; [|discriminate].
    cbn [recv_loop]. unfold recv_chunk. cbv zeta. cbn [rcv_offset rcv_end].
    rewrite Z.sub_diag. change (wrap64 0 =? 0) with true. cbv iota.
    cbn [rcv_offset rcv_end rcv_flags rcv_cmd rcv_data].
    rewrite Z.eqb_refl. cbn [negb].
    rewrite (flag_cmd_set DNET_IO_CMD Hbit).
    rewrite Hprep, Z.eqb_refl. cbn [negb].
    assert (Hn : wrap64 (cmd_size (dnet_convert_cmd hdr) + Z.of_nat (length old) + REQ_SIZE)
                 = cmd_size (dnet_convert_cmd hdr) + Z.of_nat (length old) + REQ_SIZE - 2 ^ 64).
    { unfold wrap64.
      rewrite <- (Z.mod_add _ (-1)) by lia. rewrite Z.mod_small by lia. lia. }
    rewrite Hn, Hmalloc. cbn [negb].
    destruct (Z.ltb_spec (cmd_size (dnet_convert_cmd hdr) + Z.of_nat (length old) + REQ_SIZE - 2 ^ 64)
                (REQ_SIZE + Z.of_nat (length old))); [reflexivity|lia].
  - eapply recv_loop_single; [| |exact Hrun|exact Ho].
    + lia.
    + split; simpl; lia.
Qed.

Lemma dnet_process_recv_single_size_wraps_witness :
  dnet_process_recv_single 1 4 8 sample_convert_cmd huge_cmd_size old_protocol old_protocol malloc_fine
    (sample_progress 0) sample_stream = Recv_memory_error.
Proof.
  apply (dnet_process_recv_single_size_wraps 1 4 8 sample_convert_cmd huge_cmd_size old_protocol
           old_protocol malloc_fine (sample_progress 0) [9; 9; 9; 2] [5; 6; 7; 7]
           sample_stream).
  - discriminate.
  - reflexivity.
  - discriminate.
  - reflexivity.
  - repeat split.
  - reflexivity.
  - reflexivity.
  - reflexivity.
  - discriminate.
  - reflexivity.
  - reflexivity.
Defined.

(** ** Addresses *)



Section LocalAddrFacts.
Context {A : Type}.
Variable dnet_addr_equal : A -> A -> bool.

Lemma local_addr_loop_spec (a : A) (addrs : list A) (n : nat) : forall i,
  0 <= i -> i + Z.of_nat n <= Z.of_nat (length addrs) ->
  exists r,
    local_addr_loop dnet_addr_equal n i a addrs = Some r
    /\ (r = -1 \/ i <= r < i + Z.of_nat n
                  /\ exists b, addrs !! Z.to_nat r = Some b
                               /\ dnet_addr_equal a b = true)
    /\ forall j b, i <= j < (if r =? -1 then i + Z.of_nat n else r) ->
         addrs !! Z.to_nat j = Some b -> dnet_addr_equal a b = false.
Proof.
  induction n as [|n IH]; intros i Hi Hlen.
  - exists (-1). split; [reflexivity|]. split; [now left|].
    intros j b Hj. simpl in Hj. lia.
  - cbn [local_addr_loop].
    destruct (lookup_lt_is_Some_2 addrs (Z.to_nat i)) as [b Hb]; [lia|].
    rewrite Hb. destruct (dnet_addr_equal a b) eqn:Heq.
    + exists i. split; [reflexivity|]. split.
      * right. split; [lia|]. eauto.
      * intros j b' Hj. destruct (Z.eqb_spec i (-1)); lia.
    + destruct (IH (i + 1) ltac:(lia) ltac:(lia)) as (r & Hr & Hcase & Hbefore).
      exists r. split; [exact Hr|]. split.
      * destruct Hcase as [->|[Hrange Hex]]; [now left|right].
        split; [lia|exact Hex].
      * intros j b' Hj Hjb.
        destruct (Z.eq_dec j i) as [->|Hji]; [congruence|].
        apply (Hbefore j b'); [|exact Hjb].
        destruct (Z.eqb_spec r (-1)); lia.
Qed.
End LocalAddrFacts.

(** X26.  [dnet_local_addr_index] over the [addr_num] addresses of the
    node returns the index of the first address equal to the given
    one, and -1 exactly when none of them is equal. *)
Theorem dnet_local_addr_index_first {A : Type} (dnet_addr_equal : A -> A -> bool)
    (addr_num : Z) (addrs : list A) (a : A) :
  0 <= addr_num <= Z.of_nat (length addrs) ->
  exists r,
    dnet_local_addr_index dnet_addr_equal addr_num addrs a = Some r
    /\ (r = -1 \/ 0 <= r < addr_num
                  /\ exists b, addrs !! Z.to_nat r = Some b
                               /\ dnet_addr_equal a b = true)
    /\ forall j b, 0 <= j < (if r =? -1 then addr_num else r) ->
         addrs !! Z.to_nat j = Some b -> dnet_addr_equal a b = false.
Proof.
  intros Hnum. unfold dnet_local_addr_index.
  destruct (local_addr_loop_spec dnet_addr_equal a addrs (Z.to_nat addr_num) 0)
    as (r & Hr & Hcase & Hbefore); [lia|lia|].
  exists r. split; [exact Hr|]. split.
  - destruct Hcase as [->|[Hrange Hex]]; [now left|right]. split; [lia|exact Hex].
  - intros j b Hj. apply Hbefore. destruct (r =? -1); lia.
Qed.

Lemma dnet_local_addr_index_first_witness :
  dnet_local_addr_index same_family 3 node_addrs mapped_addr = Some 1.
Proof.
  destruct (dnet_local_addr_index_first same_family 3 node_addrs mapped_addr)
    as (r & Hr & _ & _).
  - simpl; lia.
  - rewrite Hr. vm_compute in Hr. symmetry. exact Hr.
Defined.

(** ** Network threads *)

(** X27.  [dnet_net_io_init] leaks nothing when it fails: whatever
    [epoll_create] and [pthread_create] answer, a failed initialisation
    leaves no descriptor open and no thread running; a successful one
    returns 0 and leaves exactly the epoll descriptor and the thread,
    and [dnet_net_io_cleanup] then joins the thread and closes the
    descriptor. *)
Theorem dnet_net_io_init_no_leak (efd epoll_errno : Z) (create : Z * pthread_t) :
  match dnet_net_io_init efd epoll_errno create with
  | (err, None, cs) =>
      (efd < 0 /\ err = - epoll_errno \/ fst create <> 0 /\ err = - fst create)
      /\ nio_held cs [] [] = ([], [])
  | (err, Some nio, cs) =>
      err = 0 /\ 0 <= efd /\ fst create = 0
      /\ nio_held cs [] [] = ([epoll_fd nio], [nio_tid nio])
      /\ nio_held (cs ++ dnet_net_io_cleanup nio) [] [] = ([], [])
  end.
Proof.
  unfold dnet_net_io_init.
  destruct (Z.ltb_spec efd 0) as [Hneg|Hpos].
  - split; [left; auto|reflexivity].
  - destruct (Z.eqb_spec (fst create) 0) as [Hok|Hfail]; cbn [negb].
    + split; [reflexivity|]. split; [exact Hpos|]. split; [exact Hok|].
      split; [reflexivity|].
      cbn [app nio_held dnet_net_io_cleanup epoll_fd nio_tid].
      rewrite !filter_cons_False by (intros Hc; now apply Hc). reflexivity.
    + split; [right; auto|].
      cbn [app nio_held].
      rewrite filter_cons_False by (intros Hc; now apply Hc). reflexivity.
Qed.
